(** * BirthdayBuzz: occurrence scheduling and message lifecycle

    A shallow embedding of the scheduling core of the repository
    ([src/scheduler.ts], [src/store.ts], [src/sms-service.ts] and the message
    routes of [src/server.ts]) together with the part of the ECMAScript
    [Date] semantics those files rely on. *)

From Stdlib Require Import ZArith Lia Ascii String DecimalString.
From stdpp Require Import base tactics option list strings.

Local Open Scope Z_scope.

(** ** ECMAScript time values

    A [Date] is its time value: milliseconds since 1970-01-01T00:00:00Z.
    The definitions follow the abstract operations of ECMA-262 (section
    "Date Objects") and keep their names.  The host is there twice.
    Section [Host] has a fixed offset, without the range check of
    [TimeClip] (|t| <= 8.64e15) and the two-digit-year convention of the
    [Date] constructor (years 0..99): the message records are built on it.
    Section [Zone] has an offset that depends on the instant, the range
    check and that convention. *)

Module JSDate.

Definition msPerSecond : Z := 1000.
Definition msPerMinute : Z := 60000.
Definition msPerHour : Z := 3600000.
Definition msPerDay : Z := 86400000.

Definition Day (t : Z) : Z := t / msPerDay.
Definition TimeWithinDay (t : Z) : Z := t mod msPerDay.

Definition isLeapYear (y : Z) : bool :=
  if y mod 4 =? 0 then (if y mod 100 =? 0 then y mod 400 =? 0 else true) else false.

Definition DaysInYear (y : Z) : Z := if isLeapYear y then 366 else 365.

Definition DayFromYear (y : Z) : Z :=
  365 * (y - 1970) + (y - 1969) / 4 - (y - 1901) / 100 + (y - 1601) / 400.

Definition TimeFromYear (y : Z) : Z := msPerDay * DayFromYear y.

(** The year of a day number: ECMA-262 defines it as the largest [y] with
    [DayFromYear y <= d].  It is computed from the mean length of a
    Gregorian year (146097 days per 400 years), corrected by one year. *)
Definition YearFromDay (d : Z) : Z :=
  let y := 1970 + (400 * d) / 146097 in
  if d <? DayFromYear y then y - 1
  else if DayFromYear (y + 1) <=? d then y + 1
  else y.

Definition YearFromTime (t : Z) : Z := YearFromDay (Day t).

Definition InLeapYear (t : Z) : Z := if isLeapYear (YearFromTime t) then 1 else 0.

Definition DayWithinYear (t : Z) : Z := Day t - DayFromYear (YearFromTime t).

(** Month number (0 = January) of a day within a year; [leap] is 0 or 1. *)
Definition monthOfYearDay (dwy leap : Z) : Z :=
  if dwy <? 31 then 0
  else if dwy <? 59 + leap then 1
  else if dwy <? 90 + leap then 2
  else if dwy <? 120 + leap then 3
  else if dwy <? 151 + leap then 4
  else if dwy <? 181 + leap then 5
  else if dwy <? 212 + leap then 6
  else if dwy <? 243 + leap then 7
  else if dwy <? 273 + leap then 8
  else if dwy <? 304 + leap then 9
  else if dwy <? 334 + leap then 10
  else 11.

(** Number of days of the year that precede month [m] (0 = January). *)
Definition daysBeforeMonth (m leap : Z) : Z :=
  if m =? 0 then 0
  else if m =? 1 then 31
  else if m =? 2 then 59 + leap
  else if m =? 3 then 90 + leap
  else if m =? 4 then 120 + leap
  else if m =? 5 then 151 + leap
  else if m =? 6 then 181 + leap
  else if m =? 7 then 212 + leap
  else if m =? 8 then 243 + leap
  else if m =? 9 then 273 + leap
  else if m =? 10 then 304 + leap
  else 334 + leap.

Definition MonthFromTime (t : Z) : Z := monthOfYearDay (DayWithinYear t) (InLeapYear t).

Definition DateFromTime (t : Z) : Z :=
  DayWithinYear t - daysBeforeMonth (MonthFromTime t) (InLeapYear t) + 1.

Definition HourFromTime (t : Z) : Z := (t / msPerHour) mod 24.
Definition MinFromTime (t : Z) : Z := (t / msPerMinute) mod 60.
Definition SecFromTime (t : Z) : Z := (t / msPerSecond) mod 60.
Definition msFromTime (t : Z) : Z := t mod msPerSecond.

Definition MakeTime (hour min sec ms : Z) : Z :=
  hour * msPerHour + min * msPerMinute + sec * msPerSecond + ms.

(** [MakeDay year month date]: months outside 0..11 carry into the year,
    and [date] is added as a plain day count, so a day that the month does
    not have runs on into the following month. *)
Definition MakeDay (year month date : Z) : Z :=
  let ym := year + month / 12 in
  let mn := month mod 12 in
  DayFromYear ym + daysBeforeMonth mn (if isLeapYear ym then 1 else 0) + date - 1.

Definition MakeDate (day time : Z) : Z := day * msPerDay + time.

(** Number of days of month [m] (0 = January) in year [y]. *)
Definition DaysInMonth (y m : Z) : Z :=
  if m =? 1 then (if isLeapYear y then 29 else 28)
  else if (m =? 3) || (m =? 5) || (m =? 8) || (m =? 10) then 30
  else 31.

Section Host.

(** The host's offset of local time from UTC, in milliseconds (ECMA-262
    LocalTZA).  The zone is a fixed offset: it has no daylight-saving
    transitions. *)
Variable tza : Z.

Definition LocalTime (t : Z) : Z := t + tza.
Definition UTC (t : Z) : Z := t - tza.

(** [new Date(year, month, date, hours, minutes, seconds)] *)
Definition newDate (year month date hours minutes seconds : Z) : Z :=
  UTC (MakeDate (MakeDay year month date) (MakeTime hours minutes seconds 0)).

Definition getFullYear (t : Z) : Z := YearFromTime (LocalTime t).
Definition getMonth (t : Z) : Z := MonthFromTime (LocalTime t).
Definition getDate (t : Z) : Z := DateFromTime (LocalTime t).
Definition getHours (t : Z) : Z := HourFromTime (LocalTime t).
Definition getMinutes (t : Z) : Z := MinFromTime (LocalTime t).
Definition getSeconds (t : Z) : Z := SecFromTime (LocalTime t).
Definition getMilliseconds (t : Z) : Z := msFromTime (LocalTime t).

End Host.

(** TimeClip: a time value is at most 8.64e15 ms away from the epoch;
    [None] is NaN, the time value of an invalid [Date]. *)
Definition TimeClip (time : Z) : option Z :=
  if Z.abs time <=? 8640000000000000 then Some time else None.

(** MakeFullYear: the years 0..99 stand for 1900..1999. *)
Definition MakeFullYear (year : Z) : Z :=
  if (0 <=? year) && (year <=? 99) then 1900 + year else year.

Section Zone.

(** [zone t isUTC] is LocalTZA(t, isUTC): the offset of local time from
    UTC, in milliseconds, that is in force at the instant [t] when [isUTC]
    holds, and by which the local time value [t] is read otherwise (where a
    transition lets a local time occur twice or not at all, this is the
    offset before the transition).  With daylight saving it takes two
    values over a year; [fun _ _ => tza] is the fixed offset of [Host]. *)
Variable zone : Z -> bool -> Z.

Definition LocalTimeIn (t : Z) : Z := t + zone t true.
Definition UTCIn (t : Z) : Z := t - zone t false.

(** [new Date(year, month, date, hours, minutes, seconds)] *)
Definition newDateIn (year month date hours minutes seconds : Z) : option Z :=
  TimeClip
    (UTCIn (MakeDate (MakeDay (MakeFullYear year) month date)
              (MakeTime hours minutes seconds 0))).

Definition getFullYearIn (t : Z) : Z := YearFromTime (LocalTimeIn t).

End Zone.

(** *** Text forms *)

Definition digitChar (n : Z) : ascii := ascii_of_N (Z.to_N (48 + n mod 10)).

(** [n] as exactly [w] decimal digits, zero padded (low digits kept). *)
Fixpoint digits (w : nat) (n : Z) : string :=
  match w with
  | O => EmptyString
  | S w' => digits w' (n / 10) +:+ String (digitChar n) EmptyString
  end.

(** The decimal form of an integer, as string conversion of a Number gives
    it for integers below 1e21. *)
Definition decimal (n : Z) : string := NilZero.string_of_int (Z.to_int n).

(** [Date.prototype.toISOString]: the UTC fields as
    YYYY-MM-DDTHH:mm:ss.sssZ, the year as a sign and six digits when it is
    outside 0..9999. *)
Definition isoYear (y : Z) : string :=
  if (0 <=? y) && (y <=? 9999) then digits 4 y
  else (if y <? 0 then "-" else "+") +:+ digits 6 (Z.abs y).

Definition toISOString (t : Z) : string :=
  isoYear (YearFromTime t) +:+ "-" +:+ digits 2 (MonthFromTime t + 1) +:+ "-"
  +:+ digits 2 (DateFromTime t) +:+ "T" +:+ digits 2 (HourFromTime t) +:+ ":"
  +:+ digits 2 (MinFromTime t) +:+ ":" +:+ digits 2 (SecFromTime t) +:+ "."
  +:+ digits 3 (msFromTime t) +:+ "Z".

Definition digitVal (c : ascii) : option Z :=
  let n := Z.of_N (N_of_ascii c) in
  if (48 <=? n) && (n <=? 57) then Some (n - 48) else None.

Fixpoint parseDigits (s : string) (acc : Z) : option Z :=
  match s with
  | EmptyString => Some acc
  | String c s' => d ← digitVal c; parseDigits s' (10 * acc + d)
  end.

(** The [len] characters of [s] from [start], read as a decimal number. *)
Definition field (s : string) (start len : nat) : option Z :=
  let f := substring start len s in
  if decide (String.length f = len) then parseDigits f 0 else None.

Definition charIs (s : string) (i : nat) (c : ascii) : bool :=
  bool_decide (String.get i s = Some c).

(** [new Date(string)] on the date-time form that [toISOString] writes,
    which is the only form the application stores.  [None] is the
    Invalid Date; any other text is read as Invalid Date here. *)
Definition parse (s : string) : option Z :=
  let '(sign, o, ylen) :=
    if charIs s 0 "+" then (1, 1%nat, 6%nat)
    else if charIs s 0 "-" then (-1, 1%nat, 6%nat)
    else (1, 0%nat, 4%nat) in
  let e := (o + ylen)%nat in
  if decide (String.length s = (e + 20)%nat) then
    y ← field s o ylen;
    mo ← field s (e + 1) 2;
    d ← field s (e + 4) 2;
    h ← field s (e + 7) 2;
    mi ← field s (e + 10) 2;
    se ← field s (e + 13) 2;
    ms ← field s (e + 16) 3;
    if charIs s e "-" && charIs s (e + 3) "-" && charIs s (e + 6) "T"
       && charIs s (e + 9) ":" && charIs s (e + 12) ":" && charIs s (e + 15) "."
       && charIs s (e + 19) "Z"
       && (1 <=? mo) && (mo <=? 12) && (1 <=? d) && (d <=? DaysInMonth (sign * y) (mo - 1))
       && (h <=? 23) && (mi <=? 59) && (se <=? 59)
       && negb ((sign =? -1) && (y =? 0))
    then Some (MakeDate (MakeDay (sign * y) (mo - 1) d) (MakeTime h mi se ms))
    else None
  else None.

End JSDate.

(** ** Data model ([src/types.ts]) *)

Inductive MessageStatus :=
  | scheduled | sending | sent | delivered | failed | cancelled.

Global Instance MessageStatus_eq_dec : EqDecision MessageStatus.
Proof. solve_decision. Defined.

(** A contact.  [birthday] is the MM-DD string of the source kept as its
    two numbers (month, day): [birthdayMMDD.split('-').map(Number)] reads
    exactly these back from the string the contact route writes. *)
Module Contact.
Record t := mk {
  id : string;
  name : string;
  phone : string;
  birthday : Z * Z;
  birthdayFull : string;
  createdAt : string;
}.
End Contact.

Module ScheduledMessage.
Record t := mk {
  id : string;
  contactId : string;
  contactName : string;
  phone : string;
  messageBody : string;
  scheduledFor : string;
  status : MessageStatus;
  notificationSid : option string;
  errorMessage : option string;
  sentAt : option string;
  deliveredAt : option string;
  createdAt : string;
  year : Z;
}.
End ScheduledMessage.

(** [Partial<ScheduledMessage>]: [None] is an absent key.  An optional
    field can be present with the value [undefined] ([Some None]). *)
Module Partial.
Record t := mk {
  id : option string;
  contactId : option string;
  contactName : option string;
  phone : option string;
  messageBody : option string;
  scheduledFor : option string;
  status : option MessageStatus;
  notificationSid : option (option string);
  errorMessage : option (option string);
  sentAt : option (option string);
  deliveredAt : option (option string);
  createdAt : option string;
  year : option Z;
}.

Definition only_status (s : MessageStatus) : t :=
  mk None None None None None None (Some s) None None None None None None.

(** The object spread [{ ...m, ...u }]. *)
Definition spread (m : ScheduledMessage.t) (u : t) : ScheduledMessage.t :=
  ScheduledMessage.mk
    (default (ScheduledMessage.id m) (id u))
    (default (ScheduledMessage.contactId m) (contactId u))
    (default (ScheduledMessage.contactName m) (contactName u))
    (default (ScheduledMessage.phone m) (phone u))
    (default (ScheduledMessage.messageBody m) (messageBody u))
    (default (ScheduledMessage.scheduledFor m) (scheduledFor u))
    (default (ScheduledMessage.status m) (status u))
    (default (ScheduledMessage.notificationSid m) (notificationSid u))
    (default (ScheduledMessage.errorMessage m) (errorMessage u))
    (default (ScheduledMessage.sentAt m) (sentAt u))
    (default (ScheduledMessage.deliveredAt m) (deliveredAt u))
    (default (ScheduledMessage.createdAt m) (createdAt u))
    (default (ScheduledMessage.year m) (year u)).
End Partial.

Record AppData := mkAppData {
  contacts : list Contact.t;
  messages : list ScheduledMessage.t;
  notifyServiceSid : option string;
}.

Record SessionCredentials := mkCredentials {
  accountSid : string;
  authToken : string;
  messagingServiceSid : string;
  cred_notifyServiceSid : option string;
}.

(** The API objects of a bundle are handles on the remote service; what
    the service answers is part of the world below. *)
Record TwilioClientBundle := mkBundle {
  credentials : SessionCredentials;
}.

(** What an awaited SDK call does. *)
Inductive ApiOutcome :=
  | Responded (result : option (option string))
      (* resolved; [response.result], and in it [sid], may be missing *)
  | ThrewApiError (statusCode : Z) (errorBody : string)
      (* [errorBody]: [error.body], through JSON.stringify when not a string *)
  | ThrewError (message : string)
  | ThrewOther (text : string).

Record SmsResult := mkSmsResult {
  success : bool;
  sms_notificationSid : option string;
  error : option string;
}.

(** ** The world

    The persisted data file, the module-level maps of [sms-service.ts],
    the pending [setTimeout] callbacks, and what the environment will
    answer next: clock readings, UUIDs, random template choices and the
    outcomes of the SDK calls.  Each stream is consumed from index 0. *)
Record World := mkWorld {
  data : AppData;
  activeClients : list (string * TwilioClientBundle);
  sessionNotifyServiceSids : list (string * string);
  timers : list string;
  sendLog : list (string * string);
  LocalTZA : Z;
  clock : nat -> Z;
  uuid : nat -> string;
  random : nat -> nat;
  serviceApi : nat -> ApiOutcome;
  notificationApi : nat -> ApiOutcome;
}.

Definition set_data (d : AppData) (w : World) : World :=
  mkWorld d (activeClients w) (sessionNotifyServiceSids w) (timers w) (sendLog w)
    (LocalTZA w) (clock w) (uuid w) (random w) (serviceApi w) (notificationApi w).
Definition set_sessionNotifyServiceSids (c : list (string * string)) (w : World) : World :=
  mkWorld (data w) (activeClients w) c (timers w) (sendLog w)
    (LocalTZA w) (clock w) (uuid w) (random w) (serviceApi w) (notificationApi w).
Definition set_timers (t : list string) (w : World) : World :=
  mkWorld (data w) (activeClients w) (sessionNotifyServiceSids w) t (sendLog w)
    (LocalTZA w) (clock w) (uuid w) (random w) (serviceApi w) (notificationApi w).
Definition set_sendLog (l : list (string * string)) (w : World) : World :=
  mkWorld (data w) (activeClients w) (sessionNotifyServiceSids w) (timers w) l
    (LocalTZA w) (clock w) (uuid w) (random w) (serviceApi w) (notificationApi w).
Definition set_clock (c : nat -> Z) (w : World) : World :=
  mkWorld (data w) (activeClients w) (sessionNotifyServiceSids w) (timers w) (sendLog w)
    (LocalTZA w) c (uuid w) (random w) (serviceApi w) (notificationApi w).
Definition set_uuid (u : nat -> string) (w : World) : World :=
  mkWorld (data w) (activeClients w) (sessionNotifyServiceSids w) (timers w) (sendLog w)
    (LocalTZA w) (clock w) u (random w) (serviceApi w) (notificationApi w).
Definition set_random (r : nat -> nat) (w : World) : World :=
  mkWorld (data w) (activeClients w) (sessionNotifyServiceSids w) (timers w) (sendLog w)
    (LocalTZA w) (clock w) (uuid w) r (serviceApi w) (notificationApi w).
Definition set_serviceApi (a : nat -> ApiOutcome) (w : World) : World :=
  mkWorld (data w) (activeClients w) (sessionNotifyServiceSids w) (timers w) (sendLog w)
    (LocalTZA w) (clock w) (uuid w) (random w) a (notificationApi w).
Definition set_notificationApi (a : nat -> ApiOutcome) (w : World) : World :=
  mkWorld (data w) (activeClients w) (sessionNotifyServiceSids w) (timers w) (sendLog w)
    (LocalTZA w) (clock w) (uuid w) (random w) (serviceApi w) a.

(** *** The state monad of effectful code *)

Definition M (A : Type) : Type := World -> A * World.

Global Instance M_ret : MRet M := fun A a w => (a, w).
Global Instance M_bind : MBind M :=
  fun A B f m w => let (a, w') := m w in f a w'.

(** [for (const x of l) { f(x) }] *)
Fixpoint forEach {A} (f : A -> M unit) (l : list A) : M unit :=
  match l with
  | [] => mret tt
  | x :: l' => f x;; forEach f l'
  end.

Definition streamTail {A} (s : nat -> A) : nat -> A := fun n => s (S n).

(** [new Date()] and [Date.now()] *)
Definition now : M Z := fun w => (clock w 0%nat, set_clock (streamTail (clock w)) w).
Definition uuidv4 : M string := fun w => (uuid w 0%nat, set_uuid (streamTail (uuid w)) w).
(** [Math.floor(Math.random() * n)] *)
Definition randomBelow (n : nat) : M nat :=
  fun w => ((random w 0%nat) mod n, set_random (streamTail (random w)) w)%nat.
Definition hostTZA : M Z := fun w => (LocalTZA w, w).

(** The truthiness of a string, and of an optional one. *)
Definition truthy (s : string) : bool := negb (bool_decide (s = EmptyString)).
Definition truthy_opt (o : option string) : bool :=
  match o with Some s => truthy s | None => false end.

(** ** The store ([src/store.ts])

    [data w] is the content of data/app-data.json; a missing file reads as
    the default data, which is what [loadData] writes in that case. *)

Definition loadData : M AppData := fun w => (data w, w).
Definition saveData (d : AppData) : M unit := fun w => (tt, set_data d w).

Definition addContact (contact : Contact.t) : M unit :=
  d ← loadData;
  saveData (mkAppData (contacts d ++ [contact]) (messages d) (notifyServiceSid d)).

Definition removeContact (id : string) : M bool :=
  d ← loadData;
  match list_find (fun c => Contact.id c = id) (contacts d) with
  | None => mret false
  | Some (idx, _) =>
      let contacts' := delete idx (contacts d) in
      (* Also cancel pending messages for this contact *)
      let messages' :=
        (fun m =>
           if decide (ScheduledMessage.contactId m = id
                      /\ ScheduledMessage.status m = scheduled)
           then Partial.spread m (Partial.only_status cancelled)
           else m) <$> messages d in
      saveData (mkAppData contacts' messages' (notifyServiceSid d));;
      mret true
  end.

Definition getContacts : M (list Contact.t) := d ← loadData; mret (contacts d).

Definition getContact (id : string) : M (option Contact.t) :=
  d ← loadData; mret (snd <$> list_find (fun c => Contact.id c = id) (contacts d)).

Definition addMessage (message : ScheduledMessage.t) : M unit :=
  d ← loadData;
  saveData (mkAppData (contacts d) (messages d ++ [message]) (notifyServiceSid d)).

Definition updateMessage (id : string) (updates : Partial.t) : M unit :=
  d ← loadData;
  match list_find (fun m => ScheduledMessage.id m = id) (messages d) with
  | Some (idx, m) =>
      saveData (mkAppData (contacts d) (<[idx := Partial.spread m updates]> (messages d))
                  (notifyServiceSid d))
  | None => mret tt
  end.

Definition getMessages : M (list ScheduledMessage.t) := d ← loadData; mret (messages d).

Definition getNotifyServiceSid : M (option string) := d ← loadData; mret (notifyServiceSid d).

Definition setNotifyServiceSid (sid : string) : M unit :=
  d ← loadData; saveData (mkAppData (contacts d) (messages d) (Some sid)).

(** ** The gateway ([src/sms-service.ts]) *)

(** A JavaScript [Map] keeps its keys in insertion order. *)
Definition map_get {V} (k : string) (m : list (string * V)) : option V :=
  (fun r => r.2.2) <$> list_find (fun p => p.1 = k) m.

Fixpoint map_set {V} (k : string) (v : V) (m : list (string * V)) : list (string * V) :=
  match m with
  | [] => [(k, v)]
  | p :: m' => if decide (p.1 = k) then (k, v) :: m' else p :: map_set k v m'
  end.

Definition getSessionClient (sessionId : string) : M (option TwilioClientBundle) :=
  fun w => (map_get sessionId (activeClients w), w).

Definition getFirstActiveClient : M (option TwilioClientBundle) :=
  fun w => (snd <$> head (activeClients w), w).

Definition cacheNotifyServiceSid (sessionId sid : string) : M unit :=
  fun w => (tt, set_sessionNotifyServiceSids
                  (map_set sessionId sid (sessionNotifyServiceSids w)) w).

Definition createService : M ApiOutcome :=
  fun w => (serviceApi w 0%nat, set_serviceApi (streamTail (serviceApi w)) w).

Definition createNotification : M ApiOutcome :=
  fun w => (notificationApi w 0%nat, set_notificationApi (streamTail (notificationApi w)) w).

Definition ensureNotifyService (bundle : TwilioClientBundle) (sessionId : string)
  : M (option string) :=
  cached ← (fun w => (map_get sessionId (sessionNotifyServiceSids w), w));
  if truthy_opt cached then mret cached else
  let preset := cred_notifyServiceSid (credentials bundle) in
  if truthy_opt preset then
    cacheNotifyServiceSid sessionId (default EmptyString preset);; mret preset
  else
  stored ← getNotifyServiceSid;
  if truthy_opt stored then
    cacheNotifyServiceSid sessionId (default EmptyString stored);; mret stored
  else
  if negb (truthy (messagingServiceSid (credentials bundle))) then mret None else
  response ← createService;
  match response with
  | Responded (Some (Some sid)) =>
      if truthy sid then
        cacheNotifyServiceSid sessionId sid;; setNotifyServiceSid sid;; mret (Some sid)
      else mret None
  | _ => mret None
  end.

(** Instrumentation: every invocation of [sendBirthdaySms] is recorded
    with its destination and body. *)
Definition logSend (phoneE164 messageBody : string) : M unit :=
  fun w => (tt, set_sendLog (sendLog w ++ [(phoneE164, messageBody)]) w).

Definition sendBirthdaySms (bundle : option TwilioClientBundle)
    (sessionId contactId phoneE164 messageBody : string) : M SmsResult :=
  logSend phoneE164 messageBody;;
  match bundle with
  | None =>
      (* If no client bundle, simulate sending *)
      t ← now;
      mret (mkSmsResult true (Some ("SIM_" +:+ JSDate.decimal t)) None)
  | Some bundle =>
      serviceSid ← ensureNotifyService bundle sessionId;
      match serviceSid with
      | None => mret (mkSmsResult false None (Some "Notify service not available"))
      | Some serviceSid =>
          response ← createNotification;
          match response with
          | Responded (Some sid) => mret (mkSmsResult true sid None)
          | Responded None =>
              mret (mkSmsResult false None (Some "No result in notification response"))
          | ThrewApiError statusCode errorBody =>
              if (statusCode =? 400) || (statusCode =? 403) then
                mret (mkSmsResult false None
                  (Some ("SMS failed (" +:+ JSDate.decimal statusCode
                         +:+ "): This may be a trial account restriction. Ensure the recipient number is verified in your account. "
                         +:+ errorBody)))
              else
                mret (mkSmsResult false None
                  (Some ("SMS API error (" +:+ JSDate.decimal statusCode +:+ "): " +:+ errorBody)))
          | ThrewError errMsg => mret (mkSmsResult false None (Some errMsg))
          | ThrewOther errMsg => mret (mkSmsResult false None (Some errMsg))
          end
      end
  end.

(** ** The scheduler ([src/scheduler.ts]) *)

Definition BIRTHDAY_MESSAGES : list string := [
  "Happy Birthday, {{name}}! Wishing you a day filled with joy, laughter, and all the things that make you smile. Have an amazing year ahead!";
  "It's your special day, {{name}}! May this birthday bring you endless happiness and wonderful surprises. Cheers to another incredible year!";
  "Happy Birthday, {{name}}! Here's to celebrating YOU today. May your day be as wonderful and bright as you are!";
  "Wishing you the happiest of birthdays, {{name}}! May all your dreams come true this year. Enjoy every moment of your special day!";
  "Happy Birthday, {{name}}! Another year of being awesome starts today. Hope your day is full of cake, fun, and unforgettable memories!"
]%string.

(** Strings are read as sequences of one-byte characters; [trim] removes
    the white space and line terminators among them. *)
Definition isTrimChar (c : ascii) : bool :=
  let n := nat_of_ascii c in
  bool_decide (n = 9 \/ n = 10 \/ n = 11 \/ n = 12 \/ n = 13 \/ n = 32 \/ n = 160)%nat.

Fixpoint trimStart (s : list ascii) : list ascii :=
  match s with
  | c :: s' => if isTrimChar c then trimStart s' else s
  | [] => []
  end.

Definition trim (s : list ascii) : list ascii := reverse (trimStart (reverse (trimStart s))).

(** The replacement text of [String.prototype.replace] for a pattern
    without capture groups: [$$], [$&], [$`] and [$'] are expanded. *)
Fixpoint getSubstitution (matched before after r : list ascii) : list ascii :=
  match r with
  | [] => []
  | c :: r' =>
      if bool_decide (c = "$"%char) then
        match r' with
        | d :: r'' =>
            if bool_decide (d = "$"%char) then
              "$"%char :: getSubstitution matched before after r''
            else if bool_decide (d = "&"%char) then
              matched ++ getSubstitution matched before after r''
            else if bool_decide (d = "`"%char) then
              before ++ getSubstitution matched before after r''
            else if bool_decide (d = "'"%char) then
              after ++ getSubstitution matched before after r''
            else c :: getSubstitution matched before after r'
        | [] => [c]
        end
      else c :: getSubstitution matched before after r'
  end.

Definition namePlaceholder : list ascii := list_ascii_of_string "{{name}}".

(** [template.replace(/\{\{name\}\}/g, r)]: [skip] counts the characters
    of a match still to pass over, [before] is the text already read. *)
Fixpoint replaceName (r : list ascii) (skip : nat) (before s : list ascii) : list ascii :=
  match s with
  | [] => []
  | c :: s' =>
      match skip with
      | S k => replaceName r k (before ++ [c]) s'
      | O =>
          if bool_decide (take 8 s = namePlaceholder) then
            getSubstitution namePlaceholder before (drop 8 s) r
              ++ replaceName r 7 (before ++ [c]) s'
          else c :: replaceName r 0 (before ++ [c]) s'
      end
  end.

Definition interpolateName (template name : string) : string :=
  let safeName :=
    trim (filter (fun c => c <> "<"%char /\ c <> ">"%char) (list_ascii_of_string name)) in
  string_of_list_ascii (replaceName safeName 0 [] (list_ascii_of_string template)).

Definition generateBirthdayMessage (name : string) : M string :=
  i ← randomBelow (length BIRTHDAY_MESSAGES);
  mret (interpolateName (default EmptyString (BIRTHDAY_MESSAGES !! i)) name).

Definition getNextBirthdayDate (tza : Z) (birthdayMMDD : Z * Z) (ref : Z) : Z :=
  let '(month, day) := birthdayMMDD in
  let thisYear := JSDate.getFullYear tza ref in
  let thisYearBday := JSDate.newDate tza thisYear (month - 1) day 9 0 0 in
  if thisYearBday <=? ref then JSDate.newDate tza (thisYear + 1) (month - 1) day 9 0 0
  else thisYearBday.

(** [getNextBirthdayDate] on a host with zone rules.  An invalid [Date]
    compares false with every [Date]: it is returned as it is. *)
Definition getNextBirthdayDateIn (zone : Z -> bool -> Z) (birthdayMMDD : Z * Z) (ref : Z)
  : option Z :=
  let '(month, day) := birthdayMMDD in
  let thisYear := JSDate.getFullYearIn zone ref in
  let thisYearBday := JSDate.newDateIn zone thisYear (month - 1) day 9 0 0 in
  match thisYearBday with
  | Some t =>
      if t <=? ref then JSDate.newDateIn zone (thisYear + 1) (month - 1) day 9 0 0
      else thisYearBday
  | None => thisYearBday
  end.

Definition scheduleMessagesForContact (contactId : string) : M (option ScheduledMessage.t) :=
  contacts ← getContacts;
  match snd <$> list_find (fun c => Contact.id c = contactId) contacts with
  | None => mret None
  | Some contact =>
      messages ← getMessages;
      now_ ← now;
      tza ← hostTZA;
      let nextBirthday := getNextBirthdayDate tza (Contact.birthday contact) now_ in
      let year := JSDate.getFullYear tza nextBirthday in
      let existing :=
        snd <$> list_find
          (fun m => ScheduledMessage.contactId m = contactId
                    /\ ScheduledMessage.year m = year
                    /\ ScheduledMessage.status m = scheduled) messages in
      match existing with
      | Some existing => mret (Some existing)
      | None =>
          messageBody ← generateBirthdayMessage (Contact.name contact);
          id ← uuidv4;
          createdAt ← now;
          let message :=
            ScheduledMessage.mk id (Contact.id contact) (Contact.name contact)
              (Contact.phone contact) messageBody (JSDate.toISOString nextBirthday)
              scheduled None None None None (JSDate.toISOString createdAt) year in
          addMessage message;;
          mret (Some message)
      end
  end.

Fixpoint scheduleEach (contacts : list Contact.t) (scheduled : list ScheduledMessage.t)
  : M (list ScheduledMessage.t) :=
  match contacts with
  | [] => mret scheduled
  | contact :: rest =>
      msg ← scheduleMessagesForContact (Contact.id contact);
      scheduleEach rest (match msg with Some m => scheduled ++ [m] | None => scheduled end)
  end.

Definition scheduleAllContacts : M (list ScheduledMessage.t) :=
  contacts ← getContacts; scheduleEach contacts [].

(** [setTimeout(() => updateMessage(id, {status: 'delivered', ...}), 5000)]:
    the callback is kept pending under the id it closes over. *)
Definition setTimeoutDelivered (id : string) : M unit :=
  fun w => (tt, set_timers (timers w ++ [id]) w).

Definition deliveredCallback (id : string) : M unit :=
  t ← now;
  updateMessage id
    (Partial.mk None None None None None None (Some delivered) None None None
       (Some (Some (JSDate.toISOString t))) None None).

(** The [n]-th pending callback fires. *)
Definition fireTimer (n : nat) : M unit :=
  pending ← (fun w => (timers w, w));
  match pending !! n with
  | Some id => (fun w => (tt, set_timers (delete n pending) w));; deliveredCallback id
  | None => mret tt
  end.

Definition markSent (id : string) (result : SmsResult) : M unit :=
  t ← now;
  updateMessage id
    (Partial.mk None None None None None None (Some sent)
       (Some (sms_notificationSid result)) None (Some (Some (JSDate.toISOString t)))
       None None None);;
  setTimeoutDelivered id.

Definition markFailed (id : string) (result : SmsResult) : M unit :=
  updateMessage id
    (Partial.mk None None None None None None (Some failed) None (Some (error result))
       None None None None).

(** The body of the loop of [processDueMessages]: [msg] is an element of
    the list read at the start of the cycle, [now_] and [bundle] were taken
    then as well. *)
Definition processDueMessage (bundle : option TwilioClientBundle) (now_ : Z)
    (msg : ScheduledMessage.t) : M unit :=
  if decide (ScheduledMessage.status msg <> scheduled) then mret tt else
  match JSDate.parse (ScheduledMessage.scheduledFor msg) with
  | Some scheduledTime =>
      if scheduledTime <=? now_ then
        updateMessage (ScheduledMessage.id msg) (Partial.only_status sending);;
        result ← sendBirthdaySms bundle "scheduler" (ScheduledMessage.contactId msg)
                   (ScheduledMessage.phone msg) (ScheduledMessage.messageBody msg);
        if success result then
          markSent (ScheduledMessage.id msg) result;;
          contacts ← getContacts;
          match snd <$> list_find
                  (fun c => Contact.id c = ScheduledMessage.contactId msg) contacts with
          | Some contact => scheduleMessagesForContact (Contact.id contact);; mret tt
          | None => mret tt
          end
        else markFailed (ScheduledMessage.id msg) result
      else mret tt
  | None => mret tt
  end.

Definition processDueMessages : M unit :=
  messages ← getMessages;
  now_ ← now;
  (* Use the first active session client for scheduled sends *)
  bundle ← getFirstActiveClient;
  forEach (processDueMessage bundle now_) messages.

(** ** The message and contact routes ([src/server.ts])

    Each handler is given what it reads from the request and returns the
    HTTP status it answers with. *)

(** [DELETE /api/contacts/:id] *)
Definition deleteContact (id : string) : M Z :=
  removed ← removeContact id;
  if (removed : bool) then mret 200 else mret 404.

(** [POST /api/messages/send-now] *)
Definition postSendNow (sessionID contactId : string) (messageBody : option string) : M Z :=
  if negb (truthy contactId) then mret 400 else
  contacts ← getContacts;
  match snd <$> list_find (fun c => Contact.id c = contactId) contacts with
  | None => mret 404
  | Some contact =>
      body ← (if truthy_opt messageBody then mret (default EmptyString messageBody)
              else generateBirthdayMessage (Contact.name contact));
      id ← uuidv4;
      scheduledFor ← now;
      createdAt ← now;
      yearNow ← now;
      tza ← hostTZA;
      let msgRecord :=
        ScheduledMessage.mk id (Contact.id contact) (Contact.name contact)
          (Contact.phone contact) body (JSDate.toISOString scheduledFor)
          sending None None None None (JSDate.toISOString createdAt)
          (JSDate.getFullYear tza yearNow) in
      addMessage msgRecord;;
      bundle ← getSessionClient sessionID;
      result ← sendBirthdaySms bundle sessionID (Contact.id contact)
                 (Contact.phone contact) body;
      if success result then markSent id result;; mret 200
      else markFailed id result;; mret 500
  end.

(** [POST /api/messages/:id/cancel] *)
Definition postCancel (id : string) : M Z :=
  messages ← getMessages;
  match snd <$> list_find (fun m => ScheduledMessage.id m = id) messages with
  | None => mret 404
  | Some msg =>
      if decide (ScheduledMessage.status msg <> scheduled) then mret 400
      else updateMessage (ScheduledMessage.id msg) (Partial.only_status cancelled);; mret 200
  end.

(** [POST /api/messages/schedule-all] *)
Definition postScheduleAll : M Z := scheduleAllContacts;; mret 200.

(** ** Operations of the system and their sequences *)

Inductive Op :=
  | EnsureScheduled (contactId : string)
  | ScheduleAll
  | DispatchCycle
  | Cancel (id : string)
  | DeleteContact (id : string)
  | DeliveredTimer (n : nat)
  | SendNow (sessionID contactId : string) (messageBody : option string).

Definition runOp (op : Op) : M unit :=
  match op with
  | EnsureScheduled contactId => scheduleMessagesForContact contactId;; mret tt
  | ScheduleAll => postScheduleAll;; mret tt
  | DispatchCycle => processDueMessages
  | Cancel id => postCancel id;; mret tt
  | DeleteContact id => deleteContact id;; mret tt
  | DeliveredTimer n => fireTimer n
  | SendNow sessionID contactId messageBody =>
      postSendNow sessionID contactId messageBody;; mret tt
  end.

(** The world after a sequence of operations, each run to completion:
    none is served while another one waits for the provider. *)
Definition runOps (ops : list Op) (w : World) : World :=
  foldl (fun w op => (runOp op w).2) w ops.

(** ** Vocabulary of the properties *)


(** [m] with its status replaced and every other field kept. *)
Definition with_status (s : MessageStatus) (m : ScheduledMessage.t) : ScheduledMessage.t :=
  ScheduledMessage.mk (ScheduledMessage.id m) (ScheduledMessage.contactId m)
    (ScheduledMessage.contactName m) (ScheduledMessage.phone m)
    (ScheduledMessage.messageBody m) (ScheduledMessage.scheduledFor m) s
    (ScheduledMessage.notificationSid m) (ScheduledMessage.errorMessage m)
    (ScheduledMessage.sentAt m) (ScheduledMessage.deliveredAt m)
    (ScheduledMessage.createdAt m) (ScheduledMessage.year m).

Definition ids (w : World) : list string := ScheduledMessage.id <$> messages (data w).

(** The dedup key of an occurrence. *)
Definition key (m : ScheduledMessage.t) : string * Z :=
  (ScheduledMessage.contactId m, ScheduledMessage.year m).

Definition isScheduled (m : ScheduledMessage.t) : Prop := ScheduledMessage.status m = scheduled.

Definition scheduledKeys (msgs : list ScheduledMessage.t) : list (string * Z) :=
  key <$> filter isScheduled msgs.

(** At most one "scheduled" occurrence per (subject id, recurrence year). *)
Definition atMostOneScheduled (msgs : list ScheduledMessage.t) : Prop :=
  forall i j mi mj,
    msgs !! i = Some mi -> msgs !! j = Some mj ->
    ScheduledMessage.status mi = scheduled -> ScheduledMessage.status mj = scheduled ->
    ScheduledMessage.contactId mi = ScheduledMessage.contactId mj ->
    ScheduledMessage.year mi = ScheduledMessage.year mj ->
    i = j.

Definition validBirthday (birthdayMMDD : Z * Z) : Prop :=
  1 <= birthdayMMDD.1 <= 12 /\ 1 <= birthdayMMDD.2 <= 31.

Definition findContact (contactId : string) (w : World) : option Contact.t :=
  snd <$> list_find (fun c => Contact.id c = contactId) (contacts (data w)).

(** The "scheduled" occurrence that [scheduleMessagesForContact] finds for
    a contact and a year among the stored messages. *)
Definition findScheduled (contactId : string) (year : Z) (msgs : list ScheduledMessage.t)
  : option ScheduledMessage.t :=
  snd <$> list_find
    (fun m => ScheduledMessage.contactId m = contactId
              /\ ScheduledMessage.year m = year
              /\ ScheduledMessage.status m = scheduled) msgs.

(** The fire instant that [scheduleMessagesForContact] computes in [w]. *)
Definition nextBirthdayIn (w : World) (contact : Contact.t) : Z :=
  getNextBirthdayDate (LocalTZA w) (Contact.birthday contact) (clock w 0%nat).

(** The record that [scheduleMessagesForContact] builds in [w] when it
    finds no occurrence to reuse. *)
Definition nextOccurrence (w : World) (contact : Contact.t) : ScheduledMessage.t :=
  ScheduledMessage.mk (uuid w 0%nat) (Contact.id contact) (Contact.name contact)
    (Contact.phone contact)
    (interpolateName
       (default EmptyString
          (BIRTHDAY_MESSAGES !! (random w 0%nat mod length BIRTHDAY_MESSAGES)%nat))
       (Contact.name contact))
    (JSDate.toISOString (nextBirthdayIn w contact))
    scheduled None None None None (JSDate.toISOString (clock w 1%nat))
    (JSDate.getFullYear (LocalTZA w) (nextBirthdayIn w contact)).

(** The world after such a record has been stored. *)
Definition afterScheduling (w : World) (m : ScheduledMessage.t) : World :=
  mkWorld (mkAppData (contacts (data w)) (messages (data w) ++ [m]) (notifyServiceSid (data w)))
    (activeClients w) (sessionNotifyServiceSids w) (timers w) (sendLog w) (LocalTZA w)
    (streamTail (streamTail (clock w))) (streamTail (uuid w)) (streamTail (random w)) (serviceApi w)
    (notificationApi w).

(** The year component of a stored date-time string with a four-digit
    year. *)
Definition yearComponent (s : string) : option Z := JSDate.field s 0 4.

(** What the gateway and the readings of the environment leave as it
    was: the stored messages and contacts, the pending callbacks, the
    UUIDs and template choices to come, the zone and the sessions. *)
Definition sameStore (w w' : World) : Prop :=
  messages (data w') = messages (data w)
  /\ contacts (data w') = contacts (data w)
  /\ timers w' = timers w
  /\ uuid w' = uuid w
  /\ random w' = random w
  /\ LocalTZA w' = LocalTZA w
  /\ activeClients w' = activeClients w.

(** Whether the dispatch loop takes a message of its list as due. *)
Definition dueAt (now_ : Z) (msg : ScheduledMessage.t) : bool :=
  bool_decide (ScheduledMessage.status msg = scheduled)
  && match JSDate.parse (ScheduledMessage.scheduledFor msg) with
     | Some scheduledTime => scheduledTime <=? now_
     | None => false
     end.

Definition set_messages (msgs : list ScheduledMessage.t) (w : World) : World :=
  set_data (mkAppData (contacts (data w)) msgs (notifyServiceSid (data w))) w.

(** The records that the dispatch loop writes back. *)
Definition sentRecord (m : ScheduledMessage.t) (result : SmsResult) (t : Z)
  : ScheduledMessage.t :=
  ScheduledMessage.mk (ScheduledMessage.id m) (ScheduledMessage.contactId m)
    (ScheduledMessage.contactName m) (ScheduledMessage.phone m)
    (ScheduledMessage.messageBody m) (ScheduledMessage.scheduledFor m) sent
    (sms_notificationSid result) (ScheduledMessage.errorMessage m)
    (Some (JSDate.toISOString t)) (ScheduledMessage.deliveredAt m)
    (ScheduledMessage.createdAt m) (ScheduledMessage.year m).

Definition failedRecord (m : ScheduledMessage.t) (result : SmsResult) : ScheduledMessage.t :=
  ScheduledMessage.mk (ScheduledMessage.id m) (ScheduledMessage.contactId m)
    (ScheduledMessage.contactName m) (ScheduledMessage.phone m)
    (ScheduledMessage.messageBody m) (ScheduledMessage.scheduledFor m) failed
    (ScheduledMessage.notificationSid m) (error result)
    (ScheduledMessage.sentAt m) (ScheduledMessage.deliveredAt m)
    (ScheduledMessage.createdAt m) (ScheduledMessage.year m).

Definition deliveredRecord (m : ScheduledMessage.t) (t : Z) : ScheduledMessage.t :=
  ScheduledMessage.mk (ScheduledMessage.id m) (ScheduledMessage.contactId m)
    (ScheduledMessage.contactName m) (ScheduledMessage.phone m)
    (ScheduledMessage.messageBody m) (ScheduledMessage.scheduledFor m) delivered
    (ScheduledMessage.notificationSid m) (ScheduledMessage.errorMessage m)
    (ScheduledMessage.sentAt m) (Some (JSDate.toISOString t))
    (ScheduledMessage.createdAt m) (ScheduledMessage.year m).

(** The stages of the loop body for a due message: the world once the
    message is marked "sending", the send with its result, and the world
    once the result is written back. *)
Definition claimed (w : World) (msg : ScheduledMessage.t) : World :=
  (updateMessage (ScheduledMessage.id msg) (Partial.only_status sending) w).2.

Definition sendOutcome (bundle : option TwilioClientBundle) (w : World)
    (msg : ScheduledMessage.t) : SmsResult * World :=
  sendBirthdaySms bundle "scheduler" (ScheduledMessage.contactId msg)
    (ScheduledMessage.phone msg) (ScheduledMessage.messageBody msg) (claimed w msg).

Definition sentWorld (bundle : option TwilioClientBundle) (w : World)
    (msg : ScheduledMessage.t) : World :=
  (markSent (ScheduledMessage.id msg) (sendOutcome bundle w msg).1
     (sendOutcome bundle w msg).2).2.

Definition failedWorld (bundle : option TwilioClientBundle) (w : World)
    (msg : ScheduledMessage.t) : World :=
  (markFailed (ScheduledMessage.id msg) (sendOutcome bundle w msg).1
     (sendOutcome bundle w msg).2).2.

(** The re-arming of the subject's next occurrence after a send. *)
Definition rearmed (w : World) (contactId : string) : World :=
  match findContact contactId w with
  | Some contact => (scheduleMessagesForContact (Contact.id contact) w).2
  | None => w
  end.

(** What a dispatch cycle fixes before its loop: the channel, and the
    world once the clock has been read. *)
Definition cycleBundle (w : World) : option TwilioClientBundle :=
  snd <$> head (activeClients w).

Definition cycleStart (w : World) : World := set_clock (streamTail (clock w)) w.

(** The invariant of the dedup key, on a world. *)
Definition uniqueScheduled (w : World) : Prop := atMostOneScheduled (messages (data w)).

(** [m] keeps [P]: from a world with [P] it ends in a world with [P]. *)
Definition preserves {A} (P : World -> Prop) (m : M A) : Prop :=
  forall w, P w -> P (m w).2.

(** The worlds after each operation of a sequence, the last first. *)
Fixpoint history (ops : list Op) (w : World) : list World :=
  match ops with
  | [] => []
  | op :: ops' => let w' := (runOp op w).2 in history ops' w' ++ [w']
  end.

(** The terminal statuses of the claim on monotonicity. *)
Definition terminal (s : MessageStatus) : Prop :=
  s = sent \/ s = delivered \/ s = failed \/ s = cancelled.

(** The delivery state machine: [status_le s s'] when [s'] is [s] or can
    follow it. *)
Definition status_le (s s' : MessageStatus) : Prop :=
  match s with
  | scheduled => True
  | sending => s' = sending \/ s' = sent \/ s' = delivered \/ s' = failed
  | sent => s' = sent \/ s' = delivered
  | delivered => s' = delivered
  | failed => s' = failed
  | cancelled => s' = cancelled
  end.

(** A well-formed world: message ids are unique; each pending delivered
    callback is for a stored message with status "sent", and no id has two
    callbacks; [uuidv4] will return ids that are not stored, each once. *)
Definition wellFormed (w : World) : Prop :=
  NoDup (ids w)
  /\ NoDup (timers w)
  /\ (forall x, x ∈ timers w ->
        exists m, m ∈ messages (data w) /\ ScheduledMessage.id m = x
                  /\ ScheduledMessage.status m = sent)
  /\ (forall n, uuid w n ∉ ids w)
  /\ (forall i j, uuid w i = uuid w j -> i = j).

(** Every stored message is still stored at its place, with its id, in a
    status that its former status can reach. *)
Definition advances (w w' : World) : Prop :=
  forall i m, messages (data w) !! i = Some m ->
    exists m', messages (data w') !! i = Some m'
      /\ ScheduledMessage.id m' = ScheduledMessage.id m
      /\ status_le (ScheduledMessage.status m) (ScheduledMessage.status m').

(** Code that keeps worlds well-formed and only advances messages. *)
Definition respects {A} (m : M A) : Prop :=
  forall w, wellFormed w -> wellFormed (m w).2 /\ advances w (m w).2.

(** A step that ends well-formed, only advances messages, and leaves every
    message but the one at place [k] as it was. *)
Definition stepAt (k : nat) (w w' : World) : Prop :=
  wellFormed w' /\ advances w w'
  /\ forall j m, j <> k -> messages (data w) !! j = Some m -> messages (data w') !! j = Some m.

(** The stages of the send-now route: the body it sends, the record it
    stores first, and the world once that record is stored. *)
Definition sendNowBody (messageBody : option string) (contact : Contact.t) : M string :=
  if truthy_opt messageBody then mret (default EmptyString messageBody)
  else generateBirthdayMessage (Contact.name contact).

Definition sendNowRecord (w : World) (contact : Contact.t) (body : string)
  : ScheduledMessage.t :=
  ScheduledMessage.mk (uuid w 0%nat) (Contact.id contact) (Contact.name contact)
    (Contact.phone contact) body (JSDate.toISOString (clock w 0%nat))
    sending None None None None (JSDate.toISOString (clock w 1%nat))
    (JSDate.getFullYear (LocalTZA w) (clock w 2%nat)).

Definition sendNowStored (w : World) (messageBody : option string) (contact : Contact.t)
  : World :=
  let wb := (sendNowBody messageBody contact w).2 in
  set_messages
    (messages (data w) ++ [sendNowRecord w contact (sendNowBody messageBody contact w).1])
    (set_clock (streamTail (streamTail (streamTail (clock w))))
       (set_uuid (streamTail (uuid w)) wb)).

Definition sendNowOutcome (sessionID : string) (w : World) (messageBody : option string)
    (contact : Contact.t) : SmsResult * World :=
  sendBirthdaySms (map_get sessionID (activeClients w)) sessionID (Contact.id contact)
    (Contact.phone contact) (sendNowBody messageBody contact w).1
    (sendNowStored w messageBody contact).

(** ** Sample data *)

Definition alice : Contact.t :=
  Contact.mk "c-1" "Alice" "+15550100" (3, 15) "1990-03-15" "2024-01-01T00:00:00.000Z".

Definition newYearChild : Contact.t :=
  Contact.mk "c-2" "Sydney" "+61255550100" (1, 1) "2000-01-01" "2024-01-01T00:00:00.000Z".

(** Ids that differ from one another: "u", "u#", "u##", ... *)
Fixpoint hashes (n : nat) : string :=
  match n with O => EmptyString | S n' => String "#" (hashes n') end.

Definition sampleUuid (n : nat) : string := String "u" (hashes n).

(** A clock that advances by a millisecond at every reading. *)
Definition tickingFrom (t0 : Z) : nat -> Z := fun n => t0 + Z.of_nat n.

Definition sampleWorld (tza : Z) (cs : list Contact.t) (msgs : list ScheduledMessage.t)
    (clients : list (string * TwilioClientBundle)) (t0 : Z) (notification : ApiOutcome)
  : World :=
  mkWorld (mkAppData cs msgs None) clients [] [] [] tza (tickingFrom t0) sampleUuid
    (fun n => n) (fun _ => Responded None) (fun _ => notification).

Definition sampleBundle : TwilioClientBundle :=
  mkBundle (mkCredentials "AC0123456789abcdef0123456789abcdef" "token" "MG1" (Some "IS1")).

(** An occurrence of Alice's that fires on 2025-03-15 at 09:00 UTC. *)
Definition dueMessage : ScheduledMessage.t :=
  ScheduledMessage.mk "m-0" "c-1" "Alice" "+15550100" "Happy Birthday, Alice!"
    "2025-03-15T09:00:00.000Z" scheduled None None None None
    "2024-03-15T10:00:00.001Z" 2025.

(** 2024-03-15T10:00:00Z, 2024-03-15T08:00:00Z, 2025-03-15T09:00:30Z,
    2023-01-01T00:00:00Z and 2024-06-01T00:00:00Z. *)
Definition t_2024_03_15_10h : Z := 1710496800000.
Definition t_2024_03_15_08h : Z := 1710489600000.
Definition t_2025_03_15_09h30s : Z := 1742029230000.
Definition t_2023_01_01 : Z := 1672531200000.
Definition t_2024_06_01 : Z := 1717200000000.

(** A UTC host with Alice and no message yet. *)
Definition worldNew : World := sampleWorld 0 [alice] [] [] t_2024_03_15_10h (Responded None).

(** A UTC host half a minute after [dueMessage] fires: without a session,
    with a session whose notification answers without a sid, and with a
    session whose notification is refused. *)
Definition worldDue : World :=
  sampleWorld 0 [alice] [dueMessage] [] t_2025_03_15_09h30s (Responded None).

Definition worldDueNoSid : World :=
  sampleWorld 0 [alice] [dueMessage] [("session-1", sampleBundle)] t_2025_03_15_09h30s
    (Responded (Some None)).

Definition worldDueRefused : World :=
  sampleWorld 0 [alice] [dueMessage] [("session-1", sampleBundle)] t_2025_03_15_09h30s
    (ThrewError "invalid destination").

(** A host ten hours ahead of UTC with a contact born on 1 January. *)
Definition worldAhead : World :=
  sampleWorld 36000000 [newYearChild] [] [] t_2024_06_01 (Responded None).

(** ** Phone numbers ([src/phone.ts]) *)

(** Common country calling codes for reference *)
Definition COUNTRY_CODES : list (string * string) := [
  ("1", "US/CA"); ("44", "UK"); ("91", "IN"); ("61", "AU"); ("33", "FR"); ("49", "DE");
  ("81", "JP"); ("86", "CN"); ("55", "BR"); ("52", "MX"); ("34", "ES"); ("39", "IT");
  ("82", "KR"); ("31", "NL"); ("46", "SE"); ("47", "NO"); ("45", "DK"); ("358", "FI");
  ("48", "PL"); ("41", "CH"); ("43", "AT"); ("32", "BE"); ("351", "PT"); ("353", "IE");
  ("64", "NZ"); ("65", "SG"); ("60", "MY"); ("66", "TH"); ("63", "PH"); ("62", "ID");
  ("84", "VN"); ("90", "TR"); ("966", "SA"); ("971", "AE"); ("972", "IL"); ("20", "EG");
  ("27", "ZA"); ("234", "NG"); ("254", "KE"); ("92", "PK"); ("880", "BD")
]%string.

Record PhoneValidationResult := mkPhoneResult {
  valid : bool;
  formatted : option string;
  phone_error : option string;
  countryHint : option string;
}.

(** The quotation mark, as a string. *)
Definition doubleQuote : string := String (ascii_of_nat 34) EmptyString.

(** [\d] *)
Definition isDigit (c : ascii) : bool :=
  let n := nat_of_ascii c in (48 <=? n)%nat && (n <=? 57)%nat.

(** The loop of [detectCountry] over the prefix lengths still to try.
    [COUNTRY_CODES[prefix]] reads the table: its keys are distinct, and no
    property that the object inherits has a name as short as a prefix. *)
Fixpoint detectCountryIn (lens : list nat) (digits : list ascii) : option string :=
  match lens with
  | [] => None
  | len :: lens' =>
      let prefix := string_of_list_ascii (take len digits) in
      if truthy_opt (map_get prefix COUNTRY_CODES) then map_get prefix COUNTRY_CODES
      else detectCountryIn lens' digits
  end.

(** Check 3-digit codes first, then 2-digit, then 1-digit *)
Definition detectCountry (digits : list ascii) : option string :=
  detectCountryIn [3; 2; 1]%nat digits.

Definition validateAndFormatPhone (input : string) : PhoneValidationResult :=
  (* Strip all non-digit characters except leading + *)
  let cleaned := trim (list_ascii_of_string input) in
  let hasPlus := bool_decide (head cleaned = Some "+"%char) in
  let cleaned := filter (fun c => Is_true (isDigit c)) cleaned in
  if decide (length cleaned = 0%nat) then
    mkPhoneResult false None (Some "Phone number is empty") None
  else if hasPlus then
    (* If it started with +, we already have the full international number *)
    if ((length cleaned <? 7) || (15 <? length cleaned))%nat then
      mkPhoneResult false None
        (Some ("Phone number with country code should be 7-15 digits, got "
               +:+ JSDate.decimal (Z.of_nat (length cleaned)))) None
    else
      mkPhoneResult true (Some (string_of_list_ascii ("+"%char :: cleaned))) None
        (detectCountry cleaned)
  else if bool_decide (take 2 cleaned = ["0"; "0"]%char) then
    (* international dialing prefix: the rest is country code + number *)
    let cleaned := drop 2 cleaned in
    if ((length cleaned <? 7) || (15 <? length cleaned))%nat then
      mkPhoneResult false None
        (Some ("Phone number should be 7-15 digits after country code, got "
               +:+ JSDate.decimal (Z.of_nat (length cleaned)))) None
    else
      mkPhoneResult true (Some (string_of_list_ascii ("+"%char :: cleaned))) None
        (detectCountry cleaned)
  else if decide (length cleaned = 10%nat) then
    (* If 10 digits (no country code), assume US/Canada (+1) *)
    mkPhoneResult true (Some (string_of_list_ascii ("+"%char :: "1"%char :: cleaned))) None
      (Some "US/CA (assumed)")
  else if bool_decide (length cleaned = 11%nat) && bool_decide (head cleaned = Some "1"%char) then
    (* If 11 digits starting with 1, assume US/Canada *)
    mkPhoneResult true (Some (string_of_list_ascii ("+"%char :: cleaned))) None (Some "US/CA")
  else if ((7 <=? length cleaned) && (length cleaned <=? 15))%nat then
    (* Try to treat it as a full international number *)
    let countryHint := detectCountry cleaned in
    if truthy_opt countryHint then
      mkPhoneResult true (Some (string_of_list_ascii ("+"%char :: cleaned))) None countryHint
    else
      mkPhoneResult false None
        (Some ("Could not determine country code. Please include " +:+ doubleQuote +:+ "+"
               +:+ doubleQuote
               +:+ " followed by your country code (e.g., +44 for UK, +1 for US)."))
        None
  else
    mkPhoneResult false None
      (Some ("Invalid phone number length (" +:+ JSDate.decimal (Z.of_nat (length cleaned))
             +:+ " digits). Expected 7-15 digits with country code.")) None.

(** [/^\+[1-9]\d{6,14}$/.test(phone)] *)
Definition isE164 (phone : string) : bool :=
  match list_ascii_of_string phone with
  | plus :: first :: rest =>
      bool_decide (plus = "+"%char) && isDigit first && negb (bool_decide (first = "0"%char))
      && forallb isDigit rest && (6 <=? length rest)%nat && (length rest <=? 14)%nat
  | _ => false
  end.

(** ** Sessions ([src/sms-service.ts]) *)

Definition createTwilioClientBundle (creds : SessionCredentials) : TwilioClientBundle :=
  mkBundle creds.

Definition set_activeClients (c : list (string * TwilioClientBundle)) (w : World) : World :=
  mkWorld (data w) c (sessionNotifyServiceSids w) (timers w) (sendLog w)
    (LocalTZA w) (clock w) (uuid w) (random w) (serviceApi w) (notificationApi w).

(** [Map.prototype.delete] *)
Definition map_delete {V} (k : string) (m : list (string * V)) : list (string * V) :=
  filter (fun p => p.1 <> k) m.

Definition setSessionClient (sessionId : string) (bundle : TwilioClientBundle) : M unit :=
  fun w => (tt, set_activeClients (map_set sessionId bundle (activeClients w)) w).

Definition removeSessionClient (sessionId : string) : M unit :=
  fun w => (tt, set_activeClients (map_delete sessionId (activeClients w)) w).

(** [binding] is what [bundle.bindingApi.createBinding] does when it is
    called. *)
Definition createSmsBinding (binding : ApiOutcome) (bundle : TwilioClientBundle)
    (sessionId contactId phoneE164 : string) : M bool :=
  serviceSid ← ensureNotifyService bundle sessionId;
  if negb (truthy_opt serviceSid) then mret false else
  match binding with
  | Responded (Some (Some sid)) => mret (truthy sid)
  | _ => mret false
  end.

(** ** The account and contact routes ([src/server.ts])

    The fields of a request body are strings, [None] when a field is
    missing. *)

Definition maskSid (sid : string) : string :=
  let s := list_ascii_of_string sid in
  if (length s <=? 8)%nat then sid
  else string_of_list_ascii (take 6 s) +:+ "..."
       +:+ string_of_list_ascii (drop (length s - 4) s).

Definition trimString (s : string) : string :=
  string_of_list_ascii (trim (list_ascii_of_string s)).

(** What [POST /api/auth/login] answers: the status, the masked account
    SID of a success, and the credentials it leaves in the session. *)
Record LoginResponse := mkLoginResponse {
  login_status : Z;
  login_accountSid : option string;
  login_session : option SessionCredentials;
}.

(** [POST /api/auth/login].  [creds] is one object: the bundle holds it,
    so the bundle that is registered sees the [notifyServiceSid] written
    after [ensureNotifyService] has returned. *)
Definition postLogin (sessionID : string) (accountSid authToken messagingServiceSid : option string)
  : M LoginResponse :=
  if negb (truthy_opt accountSid) || negb (truthy_opt authToken)
     || negb (truthy_opt messagingServiceSid)
  then mret (mkLoginResponse 400 None None) else
  let accountSid := default EmptyString accountSid in
  (* Basic format validation *)
  if negb (String.prefix "AC" accountSid) || negb (String.length accountSid =? 34)%nat
  then mret (mkLoginResponse 400 None None) else
  let sid := trimString accountSid in
  let token := trimString (default EmptyString authToken) in
  let messagingSid := trimString (default EmptyString messagingServiceSid) in
  let creds := mkCredentials sid token messagingSid None in
  let bundle := createTwilioClientBundle creds in
  serviceSid ← ensureNotifyService bundle sessionID;
  if negb (truthy_opt serviceSid) then mret (mkLoginResponse 401 None None) else
  (* Store credentials in session and register the client *)
  let creds := mkCredentials sid token messagingSid serviceSid in
  setSessionClient sessionID (mkBundle creds);;
  mret (mkLoginResponse 200 (Some (maskSid sid)) (Some creds)).

(** [POST /api/auth/logout] *)
Definition postLogout (sessionID : string) : M Z :=
  removeSessionClient sessionID;; mret 200.

(** The middleware in front of every [/api] route: [true] when the
    request goes on to its route, [false] when it is answered with 401.
    [path] is relative to [/api]; [sessionCredentials] is what the session
    of the request holds. *)
Definition authGuard (path : string) (sessionCredentials : option SessionCredentials)
    (sessionID : string) : M bool :=
  (* Skip auth for auth routes *)
  if String.prefix "/auth/" path then mret true else
  match sessionCredentials with
  | None => mret false
  | Some creds =>
      (* Ensure client bundle exists for this session *)
      existing ← getSessionClient sessionID;
      match existing with
      | Some _ => mret true
      | None => setSessionClient sessionID (createTwilioClientBundle creds);; mret true
      end
  end.

(** [/^(\d{4})-(\d{2})-(\d{2})$/]: the three groups as numbers. *)
Definition matchBirthday (s : string) : option (Z * Z * Z) :=
  if bool_decide (String.length s = 10%nat) && JSDate.charIs s 4 "-" && JSDate.charIs s 7 "-"
  then
    y ← JSDate.field s 0 4;
    m ← JSDate.field s 5 2;
    d ← JSDate.field s 8 2;
    Some (y, m, d)
  else None.

Inductive ContactsResponse :=
  | ContactCreated (contact : Contact.t) (scheduled : option ScheduledMessage.t)
      (phoneFormatted : string) (hint : option string)
  | ContactRejected (status : Z) (message : string).

(** [POST /api/contacts].  The contact keeps its birthday as the month
    and day that the route writes as MM-DD. *)
Definition postContacts (binding : ApiOutcome) (sessionID : string)
    (name phone birthday : option string) : M ContactsResponse :=
  if negb (truthy_opt name) || negb (truthy_opt phone) || negb (truthy_opt birthday)
  then mret (ContactRejected 400 "Name, phone, and birthday are required.") else
  let safeName := trimString (default EmptyString name) in
  if (String.length safeName =? 0)%nat || (100 <? String.length safeName)%nat
  then mret (ContactRejected 400 "Name must be 1-100 characters.") else
  let phoneResult := validateAndFormatPhone (default EmptyString phone) in
  if negb (valid phoneResult) || negb (truthy_opt (formatted phoneResult))
  then mret (ContactRejected 400
               (if truthy_opt (phone_error phoneResult)
                then default EmptyString (phone_error phoneResult)
                else "Invalid phone number.")) else
  let phoneFormatted := default EmptyString (formatted phoneResult) in
  let bdayStr := default EmptyString birthday in
  match matchBirthday bdayStr with
  | None => mret (ContactRejected 400 "Birthday must be in YYYY-MM-DD format.")
  | Some (_, month, day) =>
      if (month <? 1) || (12 <? month) || (day <? 1) || (31 <? day)
      then mret (ContactRejected 400 "Invalid birthday date.") else
      contacts ← getContacts;
      match snd <$> list_find (fun c => Contact.phone c = phoneFormatted) contacts with
      | Some existing =>
          mret (ContactRejected 409
                  ("A contact with this phone number already exists ("
                   +:+ Contact.name existing +:+ ")."))
      | None =>
          id ← uuidv4;
          createdAt ← now;
          let contact :=
            Contact.mk id safeName phoneFormatted (month, day) bdayStr
              (JSDate.toISOString createdAt) in
          addContact contact;;
          bundle ← getSessionClient sessionID;
          match bundle with
          | Some bundle =>
              createSmsBinding binding bundle sessionID (Contact.id contact)
                (Contact.phone contact);; mret tt
          | None => mret tt
          end;;
          scheduled ← scheduleMessagesForContact (Contact.id contact);
          mret (ContactCreated contact scheduled phoneFormatted (countryHint phoneResult))
      end
  end.

(** ** Requests

    What a client or the host can make the server do: the operations of
    the scheduler and the message routes, and the account and contact
    routes behind the middleware. *)
Inductive Request :=
  | SystemOp (op : Op)
  | PostContacts (binding : ApiOutcome) (sessionID : string)
      (name phone birthday : option string)
  | PostLogin (sessionID : string) (accountSid authToken messagingServiceSid : option string)
  | PostLogout (sessionID : string)
  | AuthGuard (path : string) (sessionCredentials : option SessionCredentials)
      (sessionID : string).

Definition runRequest (r : Request) : M unit :=
  match r with
  | SystemOp op => runOp op
  | PostContacts binding sessionID name phone birthday =>
      postContacts binding sessionID name phone birthday;; mret tt
  | PostLogin sessionID accountSid authToken messagingServiceSid =>
      postLogin sessionID accountSid authToken messagingServiceSid;; mret tt
  | PostLogout sessionID => postLogout sessionID;; mret tt
  | AuthGuard path sessionCredentials sessionID =>
      authGuard path sessionCredentials sessionID;; mret tt
  end.

Definition runRequests (rs : list Request) (w : World) : World :=
  foldl (fun w r => (runRequest r w).2) w rs.

(** ** Requests served during a dispatch cycle

    [processDueMessages] is an [async] function: at [await
    sendBirthdaySms(...)] it hands the control back, and until the send
    has answered the server runs what else comes in.  The loop then goes
    on with the [msg] of the list that it read at its start.  [served] is
    what runs in between; with [mret tt] for it these are
    [processDueMessage] and [processDueMessages]. *)
Definition processDueMessageServing (served : M unit) (bundle : option TwilioClientBundle)
    (now_ : Z) (msg : ScheduledMessage.t) : M unit :=
  if decide (ScheduledMessage.status msg <> scheduled) then mret tt else
  match JSDate.parse (ScheduledMessage.scheduledFor msg) with
  | Some scheduledTime =>
      if scheduledTime <=? now_ then
        updateMessage (ScheduledMessage.id msg) (Partial.only_status sending);;
        result ← sendBirthdaySms bundle "scheduler" (ScheduledMessage.contactId msg)
                   (ScheduledMessage.phone msg) (ScheduledMessage.messageBody msg);
        served;;
        if success result then
          markSent (ScheduledMessage.id msg) result;;
          contacts ← getContacts;
          match snd <$> list_find
                  (fun c => Contact.id c = ScheduledMessage.contactId msg) contacts with
          | Some contact => scheduleMessagesForContact (Contact.id contact);; mret tt
          | None => mret tt
          end
        else markFailed (ScheduledMessage.id msg) result
      else mret tt
  | None => mret tt
  end.

(** [served msg] is what the server runs while the send of [msg] is
    awaited. *)
Definition processDueMessagesServing (served : ScheduledMessage.t -> M unit) : M unit :=
  messages ← getMessages;
  now_ ← now;
  bundle ← getFirstActiveClient;
  forEach (fun msg => processDueMessageServing (served msg) bundle now_ msg) messages.

(** ** Vocabulary of the properties of the routes *)

(** The local time value of 09:00:00.000 on the day [date] of the month
    [month] (0..11) of [year]: what [new Date(year, month, date, 9, 0, 0)]
    hands to [UTC]. *)
Definition localNine (year month date : Z) : Z :=
  JSDate.MakeDate (JSDate.MakeDay year month date) (JSDate.MakeTime 9 0 0 0).

(** Code that leaves a component [f] of the world as it is. *)
Definition keeps {A B} (f : World -> B) (m : M A) : Prop :=
  forall w, f (m w).2 = f w.

Definition storedContacts (w : World) : list Contact.t := contacts (data w).

(** What the contact route lets into the store: phone numbers that are
    "+" and 7 to 15 digits, each stored once; a month from 1 to 12 and a
    day from 1 to 31; a name of 1 to 100 characters. *)
Definition contactValid (c : Contact.t) : Prop :=
  validBirthday (Contact.birthday c)
  /\ (1 <= String.length (Contact.name c) <= 100)%nat
  /\ exists d, Contact.phone c = string_of_list_ascii ("+"%char :: d)
               /\ Forall (fun x => isDigit x = true) d /\ (7 <= length d <= 15)%nat.

Definition contactsValid (w : World) : Prop :=
  NoDup (Contact.phone <$> contacts (data w)) /\ Forall contactValid (contacts (data w)).

(** The name as [interpolateName] inserts it: without angle brackets,
    trimmed. *)
Definition safeName (name : string) : list ascii :=
  trim (filter (fun c => c <> "<"%char /\ c <> ">"%char) (list_ascii_of_string name)).

(** The segments [segs] with [sep] between each two of them. *)
Fixpoint joinWith (sep : list ascii) (segs : list (list ascii)) : list ascii :=
  match segs with
  | [] => []
  | [s] => s
  | s :: rest => s ++ sep ++ joinWith sep rest
  end.

(** Neither "<" nor ">". *)
Definition noAngle (c : ascii) : Prop := c <> "<"%char /\ c <> ">"%char.

(** ** More sample data *)

(** An occurrence of Alice's that was cancelled before it fired, on
    2024-03-15 at 09:00 UTC. *)
Definition cancelledMessage : ScheduledMessage.t :=
  ScheduledMessage.mk "m-9" "c-1" "Alice" "+15550100" "Happy Birthday, Alice!"
    "2024-03-15T09:00:00.000Z" cancelled None None None None
    "2023-03-15T10:00:00.001Z" 2024.

(** A UTC host on 2024-03-15 at 10:00 that stores the cancelled
    occurrence and [dueMessage], which fires a year later. *)
Definition worldQuiet : World :=
  sampleWorld 0 [alice] [cancelledMessage; dueMessage] [] t_2024_03_15_10h (Responded None).

(** Bob has his birthday on the day of Alice's: his occurrence fires with
    hers. *)
Definition bob : Contact.t :=
  Contact.mk "c-3" "Bob" "+15550101" (3, 15) "1985-03-15" "2024-01-01T00:00:00.000Z".

Definition dueMessageOfBob : ScheduledMessage.t :=
  ScheduledMessage.mk "m-1" "c-3" "Bob" "+15550101" "Happy Birthday, Bob!"
    "2025-03-15T09:00:00.000Z" scheduled None None None None
    "2024-03-15T10:00:00.002Z" 2025.

(** A UTC host half a minute after both occurrences fire, with a session
    whose notifications are accepted. *)
Definition worldTwoDue : World :=
  sampleWorld 0 [alice; bob] [dueMessage; dueMessageOfBob] [("session-1", sampleBundle)]
    t_2025_03_15_09h30s (Responded (Some (Some "NT1"))).

(** While the send of [dueMessage] is awaited the server takes a request
    to cancel Bob's occurrence; nothing else comes in during the cycle. *)
Definition cancelOfBobComesIn (msg : ScheduledMessage.t) : M unit :=
  if decide (ScheduledMessage.id msg = "m-0") then postCancel "m-1";; mret tt else mret tt.

(** New York around the end of daylight saving on 2024-11-03 at 06:00
    UTC, when the clocks go from 02:00 back to 01:00: four hours behind
    UTC before, five hours behind after.  The local times from 01:00 to
    02:00 of that day occur twice and are read as the earlier ones. *)
Definition t_2024_11_03_06h : Z := 1730613600000.

Definition newYork (t : Z) (isUTC : bool) : Z :=
  if t <? (if isUTC then t_2024_11_03_06h else t_2024_11_03_06h - 4 * JSDate.msPerHour)
  then - 4 * JSDate.msPerHour else - 5 * JSDate.msPerHour.

(** 2023-11-04T13:00:00Z, which is 09:00 in New York. *)
Definition t_2023_11_04_13h : Z := 1699102800000.

(** * Properties *)

(** ** The calendar *)

Section Calendar.

Import JSDate.

Lemma DayFromYear_succ y : DayFromYear (y + 1) = DayFromYear y + DaysInYear y.
Proof.
  unfold DayFromYear, DaysInYear, isLeapYear.
  repeat case_match; rewrite ?Z.eqb_eq, ?Z.eqb_neq in *; Z.div_mod_to_equations; lia.
Qed.

Lemma DayFromYear_mono y y' : y <= y' -> DayFromYear y + 365 * (y' - y) <= DayFromYear y'.
Proof. unfold DayFromYear. intros. Z.div_mod_to_equations. lia. Qed.

Lemma leap_years_apart y : isLeapYear y = true -> isLeapYear (y + 1) = false.
Proof.
  unfold isLeapYear.
  repeat case_match; rewrite ?Z.eqb_eq, ?Z.eqb_neq in *; try done;
    Z.div_mod_to_equations; lia.
Qed.

(** [YearFromDay d] is the year whose days include [d]. *)
Lemma YearFromDay_spec d :
  DayFromYear (YearFromDay d) <= d < DayFromYear (YearFromDay d + 1).
Proof.
  unfold YearFromDay. cbv zeta.
  repeat case_match; rewrite ?Z.ltb_lt, ?Z.ltb_ge, ?Z.leb_le, ?Z.leb_gt in *.
  - split; [|replace (1970 + 400 * d / 146097 - 1 + 1) with (1970 + 400 * d / 146097) by lia; lia].
    unfold DayFromYear in *. Z.div_mod_to_equations. lia.
  - split; [lia|]. unfold DayFromYear in *. Z.div_mod_to_equations. lia.
  - lia.
Qed.

Lemma YearFromDay_unique d y :
  DayFromYear y <= d < DayFromYear (y + 1) -> YearFromDay d = y.
Proof.
  intros Hy. pose proof (YearFromDay_spec d) as HY.
  destruct (Z.lt_trichotomy (YearFromDay d) y) as [Hlt | [-> | Hgt]]; [|done|].
  - pose proof (DayFromYear_mono (YearFromDay d + 1) y). lia.
  - pose proof (DayFromYear_mono (y + 1) (YearFromDay d)). lia.
Qed.

Lemma YearFromDay_mono d d' : d <= d' -> YearFromDay d <= YearFromDay d'.
Proof.
  intros Hd. pose proof (YearFromDay_spec d). pose proof (YearFromDay_spec d').
  destruct (Z.le_gt_cases (YearFromDay d) (YearFromDay d')) as [|Hgt]; [done|].
  pose proof (DayFromYear_mono (YearFromDay d' + 1) (YearFromDay d)). lia.
Qed.

Lemma Day_MakeDate d tm : 0 <= tm < msPerDay -> Day (MakeDate d tm) = d.
Proof. unfold Day, MakeDate, msPerDay. intros. Z.div_mod_to_equations. lia. Qed.

Lemma Day_mono t t' : t <= t' -> Day t <= Day t'.
Proof. unfold Day, msPerDay. intros. Z.div_mod_to_equations. lia. Qed.

Lemma Day_bounds t : Day t * msPerDay <= t < (Day t + 1) * msPerDay.
Proof. unfold Day, msPerDay. Z.div_mod_to_equations. lia. Qed.

Lemma YearFromTime_mono t t' : t <= t' -> YearFromTime t <= YearFromTime t'.
Proof. intros. by apply YearFromDay_mono, Day_mono. Qed.

(** A time value lies between the start of its year and of the next. *)
Lemma YearFromTime_bounds t :
  DayFromYear (YearFromTime t) * msPerDay <= t
  < DayFromYear (YearFromTime t + 1) * msPerDay.
Proof.
  pose proof (YearFromDay_spec (Day t)). pose proof (Day_bounds t).
  unfold YearFromTime, msPerDay in *. lia.
Qed.

Lemma daysBeforeMonth_bounds m leap :
  0 <= m <= 11 -> 0 <= leap <= 1 -> 0 <= daysBeforeMonth m leap <= 334 + leap.
Proof. unfold daysBeforeMonth. intros. repeat case_match; lia. Qed.

Lemma MakeDay_in_range y m :
  0 <= m <= 11 ->
  MakeDay y m 1 = DayFromYear y + daysBeforeMonth m (if isLeapYear y then 1 else 0).
Proof.
  intros. unfold MakeDay. cbv zeta.
  replace (m / 12) with 0 by (Z.div_mod_to_equations; lia).
  replace (m mod 12) with m by (Z.div_mod_to_equations; lia).
  rewrite Z.add_0_r. lia.
Qed.

Lemma MakeDay_date y m date : MakeDay y m date = MakeDay y m 1 + (date - 1).
Proof. unfold MakeDay. lia. Qed.

(** Days 1..31 of a month 0..11 stay inside the year. *)
Lemma MakeDay_year y m date :
  0 <= m <= 11 -> 1 <= date <= 31 ->
  DayFromYear y <= MakeDay y m date < DayFromYear (y + 1).
Proof.
  intros Hm Hd. rewrite MakeDay_date, MakeDay_in_range, DayFromYear_succ by done.
  unfold DaysInYear.
  pose proof (daysBeforeMonth_bounds m (if isLeapYear y then 1 else 0) Hm).
  destruct (isLeapYear y); lia.
Qed.

(** The same month and day one year later is 365 or 366 days later. *)
Lemma MakeDay_next_year y m date :
  0 <= m <= 11 ->
  365 <= MakeDay (y + 1) m date - MakeDay y m date <= 366.
Proof.
  intros Hm. rewrite (MakeDay_date y), (MakeDay_date (y + 1)), !MakeDay_in_range by done.
  rewrite DayFromYear_succ. unfold DaysInYear.
  pose proof (leap_years_apart y).
  assert (m = 0 \/ m = 1 \/ m = 2 \/ m = 3 \/ m = 4 \/ m = 5 \/ m = 6 \/ m = 7
          \/ m = 8 \/ m = 9 \/ m = 10 \/ m = 11) as Hcases by lia.
  destruct (isLeapYear y); [rewrite H by done|destruct (isLeapYear (y + 1))];
    destruct_or!; subst m; cbn; lia.
Qed.

Lemma fields_of_year_day y k tm :
  0 <= k < DaysInYear y -> 0 <= tm < msPerDay ->
  let t := MakeDate (DayFromYear y + k) tm in
  YearFromTime t = y /\ DayWithinYear t = k
  /\ InLeapYear t = (if isLeapYear y then 1 else 0).
Proof.
  intros Hk Htm t.
  assert (Hday : Day t = DayFromYear y + k) by by apply Day_MakeDate.
  assert (Hy : YearFromTime t = y).
  { unfold YearFromTime. rewrite Hday. apply YearFromDay_unique.
    rewrite DayFromYear_succ. lia. }
  unfold DayWithinYear, InLeapYear. rewrite Hy, Hday. split_and!; [done|lia|done].
Qed.

Lemma month_date_in_month y m date :
  0 <= m <= 11 -> 1 <= date <= DaysInMonth y m ->
  let leap := if isLeapYear y then 1 else 0 in
  let k := daysBeforeMonth m leap + date - 1 in
  0 <= k < DaysInYear y /\ monthOfYearDay k leap = m
  /\ k - daysBeforeMonth m leap + 1 = date.
Proof.
  intros Hm Hd leap k. subst leap k. unfold DaysInMonth, DaysInYear in *.
  assert (m = 0 \/ m = 1 \/ m = 2 \/ m = 3 \/ m = 4 \/ m = 5 \/ m = 6 \/ m = 7
          \/ m = 8 \/ m = 9 \/ m = 10 \/ m = 11) as Hcases by lia.
  destruct (isLeapYear y);
    destruct_or!; subst m; cbn in Hd |- *; unfold monthOfYearDay;
    repeat case_match; lia.
Qed.

(** A day past the end of its month is a day of the following month. *)
Lemma month_date_overflow y m date :
  0 <= m <= 11 -> DaysInMonth y m < date <= 31 ->
  let leap := if isLeapYear y then 1 else 0 in
  let k := daysBeforeMonth m leap + date - 1 in
  0 <= k < DaysInYear y /\ monthOfYearDay k leap = m + 1
  /\ k - daysBeforeMonth (m + 1) leap + 1 = date - DaysInMonth y m.
Proof.
  intros Hm Hd leap k. subst leap k. unfold DaysInMonth, DaysInYear in *.
  assert (m = 0 \/ m = 1 \/ m = 2 \/ m = 3 \/ m = 4 \/ m = 5 \/ m = 6 \/ m = 7
          \/ m = 8 \/ m = 9 \/ m = 10 \/ m = 11) as Hcases by lia.
  destruct (isLeapYear y);
    destruct_or!; subst m; cbn in Hd |- *; unfold monthOfYearDay, daysBeforeMonth;
    repeat case_match; lia.
Qed.

Lemma time_fields d h :
  0 <= h <= 23 ->
  let t := MakeDate d (MakeTime h 0 0 0) in
  HourFromTime t = h /\ MinFromTime t = 0 /\ SecFromTime t = 0 /\ msFromTime t = 0.
Proof.
  cbv zeta. unfold HourFromTime, MinFromTime, SecFromTime, msFromTime, MakeDate, MakeTime,
    msPerDay, msPerHour, msPerMinute, msPerSecond.
  intros. split_and!; Z.div_mod_to_equations; lia.
Qed.

(** The local fields of [new Date(y, m, date, 9, 0, 0)] for a month 0..11
    and a day 1..31. *)
Lemma newDate_fields tza y m date :
  0 <= m <= 11 -> 1 <= date <= 31 ->
  let t := newDate tza y m date 9 0 0 in
  getFullYear tza t = y
  /\ getHours tza t = 9 /\ getMinutes tza t = 0 /\ getSeconds tza t = 0
  /\ getMilliseconds tza t = 0
  /\ (date <= DaysInMonth y m -> getMonth tza t = m /\ getDate tza t = date)
  /\ (DaysInMonth y m < date ->
      getMonth tza t = m + 1 /\ getDate tza t = date - DaysInMonth y m).
Proof.
  intros Hm Hd t.
  unfold getFullYear, getHours, getMinutes, getSeconds, getMilliseconds, getMonth, getDate.
  assert (Ht : LocalTime tza t = MakeDate (MakeDay y m date) (MakeTime 9 0 0 0)).
  { unfold t, newDate, LocalTime, UTC. lia. }
  rewrite Ht. clear Ht t.
  pose proof (time_fields (MakeDay y m date) 9 ltac:(lia)) as (Hh & Hmi & Hs & Hms).
  rewrite MakeDay_date, MakeDay_in_range in * by done.
  set (leap := if isLeapYear y then 1 else 0) in *.
  set (k := daysBeforeMonth m leap + date - 1).
  replace (DayFromYear y + daysBeforeMonth m leap + (date - 1)) with (DayFromYear y + k)
    in * by (unfold k; lia).
  assert (Hk : 0 <= k < DaysInYear y).
  { destruct (Z.le_gt_cases date (DaysInMonth y m)).
    - by destruct (month_date_in_month y m date Hm ltac:(lia)) as (Hk & _).
    - by destruct (month_date_overflow y m date Hm ltac:(lia)) as (Hk & _). }
  destruct (fields_of_year_day y k (MakeTime 9 0 0 0) Hk ltac:(by vm_compute))
    as (HY & HD & HL).
  fold leap in HL.
  split_and!; try done.
  - intros Hin. unfold MonthFromTime, DateFromTime, MonthFromTime. rewrite HD, HL.
    destruct (month_date_in_month y m date Hm ltac:(lia)) as (_ & Hmo & Hda).
    fold leap k in Hmo, Hda. by rewrite Hmo.
  - intros Hov. unfold MonthFromTime, DateFromTime, MonthFromTime. rewrite HD, HL.
    destruct (month_date_overflow y m date Hm ltac:(lia)) as (_ & Hmo & Hda).
    fold leap k in Hmo, Hda. by rewrite Hmo.
Qed.

End Calendar.

(** ** The occurrence calculator *)

Section OccurrenceCalculator.

Import JSDate.

Lemma newDate_local tza y m date :
  LocalTime tza (newDate tza y m date 9 0 0)
  = MakeDay y m date * msPerDay + 9 * msPerHour.
Proof. unfold newDate, LocalTime, UTC, MakeDate, MakeTime. lia. Qed.

Lemma getNextBirthdayDate_eq tza month day ref :
  getNextBirthdayDate tza (month, day) ref
  = if newDate tza (getFullYear tza ref) (month - 1) day 9 0 0 <=? ref
    then newDate tza (getFullYear tza ref + 1) (month - 1) day 9 0 0
    else newDate tza (getFullYear tza ref) (month - 1) day 9 0 0.
Proof. reflexivity. Qed.

(** Where the candidates of the reference's year and of the next lie. *)
Lemma candidate_bounds tza y m date ref :
  0 <= m <= 11 -> 1 <= date <= 31 -> getFullYear tza ref = y ->
  ref < newDate tza (y + 1) m date 9 0 0
  /\ newDate tza (y + 1) m date 9 0 0 - newDate tza y m date 9 0 0 <= 366 * msPerDay
  /\ newDate tza y m date 9 0 0 - ref <= 366 * msPerDay.
Proof.
  intros Hm Hd Hy.
  pose proof (YearFromTime_bounds (LocalTime tza ref)) as Href.
  unfold getFullYear in Hy. rewrite Hy in Href. clear Hy.
  pose proof (newDate_local tza y m date) as Hc.
  pose proof (newDate_local tza (y + 1) m date) as Hn.
  pose proof (MakeDay_year y m date Hm Hd) as Hd1.
  pose proof (MakeDay_year (y + 1) m date Hm Hd) as Hd2.
  pose proof (MakeDay_next_year y m date Hm) as Hstep.
  rewrite DayFromYear_succ in Hd1.
  assert (DaysInYear y <= 366) by (unfold DaysInYear; case_match; lia).
  generalize dependent (newDate tza y m date 9 0 0).
  generalize dependent (newDate tza (y + 1) m date 9 0 0).
  generalize dependent (MakeDay y m date). generalize dependent (MakeDay (y + 1) m date).
  generalize dependent (DayFromYear y). generalize dependent (DayFromYear (y + 1)).
  generalize dependent (DaysInYear y).
  unfold LocalTime, msPerDay, msPerHour. intros. lia.
Qed.


End OccurrenceCalculator.

(** ** The occurrence calculator on a host with zone rules *)

Section ZoneRules.

Import JSDate.

Variable zone : Z -> bool -> Z.

Lemma localNine_eq y m date : localNine y m date = MakeDay y m date * msPerDay + 9 * msPerHour.
Proof. unfold localNine, MakeDate, MakeTime. lia. Qed.

(** 09:00 of a day 1..31 of a month 0..11 lies in the year, nine hours or
    more after its start. *)
Lemma localNine_in_year y m date :
  0 <= m <= 11 -> 1 <= date <= 31 ->
  DayFromYear y * msPerDay + 9 * msPerHour <= localNine y m date
  < DayFromYear (y + 1) * msPerDay.
Proof.
  intros Hm Hd. rewrite localNine_eq. pose proof (MakeDay_year y m date Hm Hd).
  unfold msPerDay, msPerHour. lia.
Qed.

Lemma localNine_next_year y m date :
  0 <= m <= 11 -> localNine (y + 1) m date - localNine y m date <= 366 * msPerDay.
Proof.
  intros Hm. rewrite !localNine_eq. pose proof (MakeDay_next_year y m date Hm).
  unfold msPerDay. lia.
Qed.

(** On a host at UTC the local time value is the time value. *)
Lemma newDate_utc y m date : newDate 0 y m date 9 0 0 = localNine y m date.
Proof. unfold newDate, UTC, localNine. apply Z.sub_0_r. Qed.

Lemma LocalTime_utc t : LocalTime 0 t = t.
Proof. unfold LocalTime. apply Z.add_0_r. Qed.

(** The fields of that local time value. *)
Lemma localNine_fields y m date :
  0 <= m <= 11 -> 1 <= date <= 31 ->
  let t := localNine y m date in
  YearFromTime t = y
  /\ HourFromTime t = 9 /\ MinFromTime t = 0 /\ SecFromTime t = 0 /\ msFromTime t = 0
  /\ (date <= DaysInMonth y m -> MonthFromTime t = m /\ DateFromTime t = date)
  /\ (DaysInMonth y m < date ->
      MonthFromTime t = m + 1 /\ DateFromTime t = date - DaysInMonth y m).
Proof.
  intros Hm Hd. pose proof (newDate_fields 0 y m date Hm Hd) as H. cbv zeta in H |- *.
  rewrite newDate_utc in H. generalize dependent (localNine y m date). intros t.
  unfold getFullYear, getHours, getMinutes, getSeconds, getMilliseconds, getMonth, getDate.
  rewrite LocalTime_utc. exact (fun H => H).
Qed.

Lemma MakeFullYear_id y : 100 <= y -> MakeFullYear y = y.
Proof.
  intros. unfold MakeFullYear. destruct (Z.leb_spec y 99); [lia|]. by rewrite andb_false_r.
Qed.

(** Between the years 100 and 275759, and with an offset of a day at
    most, the instant of such a local time is in the range of [Date]. *)
Lemma TimeClip_localNine y m date off :
  0 <= m <= 11 -> 1 <= date <= 31 -> 100 <= y <= 275759 ->
  - msPerDay <= off <= msPerDay ->
  TimeClip (localNine y m date - off) = Some (localNine y m date - off).
Proof.
  intros Hm Hd Hy Hoff. unfold TimeClip.
  pose proof (localNine_in_year y m date Hm Hd) as Hl.
  pose proof (DayFromYear_mono 100 y ltac:(lia)) as Hlow.
  pose proof (DayFromYear_mono (y + 1) 275760 ltac:(lia)) as Hup.
  change (DayFromYear 100) with (-683003) in Hlow.
  change (DayFromYear 275760) with 99999744 in Hup.
  generalize dependent (localNine y m date).
  generalize dependent (DayFromYear y). generalize dependent (DayFromYear (y + 1)).
  unfold msPerDay, msPerHour in *. intros.
  destruct (Z.leb_spec (Z.abs (z1 - off)) 8640000000000000); [done|lia].
Qed.

Lemma newDateIn_nine y m date :
  0 <= m <= 11 -> 1 <= date <= 31 -> 100 <= y <= 275759 ->
  - msPerDay <= zone (localNine y m date) false <= msPerDay ->
  newDateIn zone y m date 9 0 0 = Some (UTCIn zone (localNine y m date)).
Proof.
  intros Hm Hd Hy Hoff. unfold newDateIn. rewrite MakeFullYear_id by lia.
  fold (localNine y m date). unfold UTCIn. by apply TimeClip_localNine.
Qed.

(** The two ways [getNextBirthdayDateIn] ends when its candidates are
    valid dates. *)
Lemma getNextBirthdayDateIn_eq month day ref :
  1 <= month <= 12 -> 1 <= day <= 31 ->
  (forall t isUTC, - msPerDay <= zone t isUTC <= msPerDay) ->
  100 <= getFullYearIn zone ref <= 275758 ->
  getNextBirthdayDateIn zone (month, day) ref
  = Some (if UTCIn zone (localNine (getFullYearIn zone ref) (month - 1) day) <=? ref
          then UTCIn zone (localNine (getFullYearIn zone ref + 1) (month - 1) day)
          else UTCIn zone (localNine (getFullYearIn zone ref) (month - 1) day)).
Proof.
  intros Hm Hd Hz Hy. unfold getNextBirthdayDateIn.
  rewrite !newDateIn_nine by (try apply Hz; lia).
  by destruct (_ <=? ref).
Qed.

End ZoneRules.

Section ZoneRulesAndFixedOffset.

Import JSDate.

(** The arithmetic of the two candidates: [d0] and [d1] are the first
    days of the reference's local year and of the next, [t0] and [t1] the
    local times of the candidates, [zr], [z0] and [z1] the offsets at the
    reference and at the candidates. *)
Lemma later_candidate_arith (d0 d1 t0 t1 ref zr z0 z1 lo hi : Z) :
  d0 * msPerDay <= ref + zr < d1 * msPerDay ->
  d1 - d0 <= 366 ->
  d0 * msPerDay + 9 * msPerHour <= t0 < d1 * msPerDay ->
  d1 * msPerDay + 9 * msPerHour <= t1 ->
  t1 - t0 <= 366 * msPerDay ->
  lo <= zr <= hi -> lo <= z0 <= hi -> lo <= z1 <= hi -> hi - lo <= 9 * msPerHour ->
  (t0 - z0 <= ref -> ref < t1 - z1 /\ t1 - z1 - ref <= 366 * msPerDay + (hi - lo))
  /\ (ref < t0 - z0 -> t0 - z0 - ref <= 366 * msPerDay + (hi - lo)).
Proof. unfold msPerDay, msPerHour. lia. Qed.

Lemma getFullYearIn_fixed tza t : getFullYearIn (fun _ _ => tza) t = getFullYear tza t.
Proof. reflexivity. Qed.

Lemma UTCIn_fixed tza y m date :
  UTCIn (fun _ _ => tza) (localNine y m date) = newDate tza y m date 9 0 0.
Proof. reflexivity. Qed.

(** On the years and offsets above, a fixed offset is a zone whose rule
    is constant. *)
Lemma getNextBirthdayDateIn_fixed tza month day ref :
  1 <= month <= 12 -> 1 <= day <= 31 -> - msPerDay <= tza <= msPerDay ->
  100 <= getFullYear tza ref <= 275758 ->
  getNextBirthdayDateIn (fun _ _ => tza) (month, day) ref
  = Some (getNextBirthdayDate tza (month, day) ref).
Proof.
  intros Hm Hd Hz Hy.
  rewrite getNextBirthdayDateIn_eq by (try done; exact Hy).
  rewrite getNextBirthdayDate_eq, getFullYearIn_fixed, !UTCIn_fixed. reflexivity.
Qed.

(** C2 (amended): on a host whose offsets from UTC are a day at most and
    differ from one another by nine hours at most, for a month 1..12, a
    day 1..31 and a reference in the local years 100 to 275758, the result
    is a valid date, strictly after the reference and at most 366 days and
    the spread of the host's offsets after it.  It is the instant that the
    host gives to 09:00:00.000 local time of a day in the reference's
    local calendar year, when that instant is strictly after the
    reference, and in the next year otherwise.  That day is the given
    month and day when the month has the day in that year, and otherwise
    the day of the following month that the surplus runs on to.  The
    result reads back as that local time when the offset in force at the
    result is the one by which the local time was read (no transition
    skips it). *)
Theorem getNextBirthdayDateIn_spec (zone : Z -> bool -> Z) (lo hi month day ref : Z) :
  1 <= month <= 12 -> 1 <= day <= 31 ->
  (forall t isUTC, lo <= zone t isUTC <= hi) ->
  - msPerDay <= lo -> hi <= msPerDay -> hi - lo <= 9 * msPerHour ->
  100 <= getFullYearIn zone ref <= 275758 ->
  let thisYear := getFullYearIn zone ref in
  let candidate := UTCIn zone (localNine thisYear (month - 1) day) in
  exists r y,
    getNextBirthdayDateIn zone (month, day) ref = Some r
    /\ ref < r
    /\ r - ref <= 366 * msPerDay + (hi - lo)
    /\ (y = thisYear \/ y = thisYear + 1)
    /\ (ref < candidate -> y = thisYear)
    /\ (candidate <= ref -> y = thisYear + 1)
    /\ let t := localNine y (month - 1) day in
       r = UTCIn zone t
       /\ YearFromTime t = y
       /\ HourFromTime t = 9 /\ MinFromTime t = 0 /\ SecFromTime t = 0 /\ msFromTime t = 0
       /\ (day <= DaysInMonth y (month - 1) ->
           MonthFromTime t + 1 = month /\ DateFromTime t = day)
       /\ (DaysInMonth y (month - 1) < day ->
           MonthFromTime t + 1 = month + 1
           /\ DateFromTime t = day - DaysInMonth y (month - 1))
       /\ (zone r true = zone t false -> LocalTimeIn zone r = t).
Proof.
  intros Hm Hd Hz Hlo Hhi Hspread Hy. cbv zeta.
  assert (Hm' : 0 <= month - 1 <= 11) by lia.
  assert (Hday : forall t isUTC, - msPerDay <= zone t isUTC <= msPerDay).
  { intros t b. specialize (Hz t b). lia. }
  rewrite (getNextBirthdayDateIn_eq zone month day ref Hm Hd Hday Hy).
  set (y := getFullYearIn zone ref) in *. clear Hy Hday.
  set (t0 := localNine y (month - 1) day). set (t1 := localNine (y + 1) (month - 1) day).
  assert (Harith :
    (UTCIn zone t0 <= ref ->
     ref < UTCIn zone t1 /\ UTCIn zone t1 - ref <= 366 * msPerDay + (hi - lo))
    /\ (ref < UTCIn zone t0 -> UTCIn zone t0 - ref <= 366 * msPerDay + (hi - lo))).
  { pose proof (YearFromTime_bounds (LocalTimeIn zone ref)) as Href.
    fold (getFullYearIn zone ref) in Href. fold y in Href. unfold LocalTimeIn in Href.
    unfold UTCIn.
    apply (later_candidate_arith (DayFromYear y) (DayFromYear (y + 1)) t0 t1 ref
             (zone ref true) (zone t0 false) (zone t1 false) lo hi);
      [exact Href| |apply localNine_in_year; assumption| |
       apply localNine_next_year; assumption|apply Hz..|exact Hspread].
    - rewrite DayFromYear_succ. unfold DaysInYear. destruct (isLeapYear y); lia.
    - apply (proj1 (localNine_in_year (y + 1) (month - 1) day Hm' Hd)). }
  destruct Harith as [Hnext Hthis].
  destruct (Z.leb_spec (UTCIn zone t0) ref) as [Hle|Hgt].
  - destruct (Hnext Hle) as [Hafter Hnear].
    destruct (localNine_fields (y + 1) (month - 1) day Hm' Hd)
      as (HY & HH & HM & HS & HMS & Hin & Hov).
    fold t1 in HY, HH, HM, HS, HMS, Hin, Hov.
    exists (UTCIn zone t1), (y + 1).
    split; [reflexivity|]. split; [exact Hafter|]. split; [exact Hnear|].
    split; [right; reflexivity|]. split; [intros Hlt; lia|]. split; [reflexivity|].
    fold t1. split; [reflexivity|]. split; [exact HY|].
    split; [exact HH|]. split; [exact HM|]. split; [exact HS|]. split; [exact HMS|].
    split; [|split].
    + intros Hdim. destruct (Hin Hdim) as [Hmo Hda]. split; [lia|exact Hda].
    + intros Hdim. destruct (Hov Hdim) as [Hmo Hda]. split; [lia|exact Hda].
    + intros Heq. unfold LocalTimeIn. rewrite Heq. unfold UTCIn. lia.
  - pose proof (Hthis Hgt) as Hnear.
    destruct (localNine_fields y (month - 1) day Hm' Hd)
      as (HY & HH & HM & HS & HMS & Hin & Hov).
    fold t0 in HY, HH, HM, HS, HMS, Hin, Hov.
    exists (UTCIn zone t0), y.
    split; [reflexivity|]. split; [exact Hgt|]. split; [exact Hnear|].
    split; [left; reflexivity|]. split; [reflexivity|]. split; [intros Hle; lia|].
    fold t0. split; [reflexivity|]. split; [exact HY|].
    split; [exact HH|]. split; [exact HM|]. split; [exact HS|]. split; [exact HMS|].
    split; [|split].
    + intros Hdim. destruct (Hin Hdim) as [Hmo Hda]. split; [lia|exact Hda].
    + intros Hdim. destruct (Hov Hdim) as [Hmo Hda]. split; [lia|exact Hda].
    + intros Heq. unfold LocalTimeIn. rewrite Heq. unfold UTCIn. lia.
Qed.

End ZoneRulesAndFixedOffset.

(** ** The state monad and the store *)

Lemma bind_run {A B} (m : M A) (f : A -> M B) (w : World) :
  (m ≫= f) w = f (m w).1 (m w).2.
Proof. unfold mbind, M_bind. by destruct (m w). Qed.

Lemma ret_run {A} (a : A) (w : World) : (mret a : M A) w = (a, w).
Proof. done. Qed.

Lemma unit_run (p : unit * World) : p = (tt, p.2).
Proof. by destruct p as [[] ?]. Qed.

Lemma getContacts_run (w : World) : getContacts w = (contacts (data w), w).
Proof. reflexivity. Qed.

Lemma getMessages_run (w : World) : getMessages w = (messages (data w), w).
Proof. reflexivity. Qed.

Lemma addMessage_run m (w : World) :
  addMessage m w = (tt, set_messages (messages (data w) ++ [m]) w).
Proof. reflexivity. Qed.

Lemma spread_only_status s m :
  Partial.spread m (Partial.only_status s) = with_status s m.
Proof. done. Qed.

Lemma list_find_id_lookup (msgs : list ScheduledMessage.t) i m :
  NoDup (ScheduledMessage.id <$> msgs) -> msgs !! i = Some m ->
  list_find (fun m' => ScheduledMessage.id m' = ScheduledMessage.id m) msgs = Some (i, m).
Proof.
  intros Hnd Hi. apply list_find_Some. split_and!; [done..|].
  intros j y Hj Hlt Heq.
  assert (i = j); [|lia].
  eapply (NoDup_lookup _ i j (ScheduledMessage.id m)); [done|..];
    rewrite list_lookup_fmap; [by rewrite Hi|by rewrite Hj, <- Heq].
Qed.

(** C8: deleting an existing contact answers [true]; no message record is
    removed; each message of that contact that is "scheduled" becomes
    "cancelled" with every other field kept, and every other message, of
    this contact or another, is left as it was. *)
Theorem removeContact_cascade (id : string) (w : World) :
  (exists c, c ∈ contacts (data w) /\ Contact.id c = id) ->
  (removeContact id w).1 = true
  /\ length (messages (data (removeContact id w).2)) = length (messages (data w))
  /\ forall i m, messages (data w) !! i = Some m ->
       messages (data (removeContact id w).2) !! i
       = Some (if decide (ScheduledMessage.contactId m = id
                          /\ ScheduledMessage.status m = scheduled)
               then with_status cancelled m else m).
Proof.
  intros (c & Hc & Hid). unfold removeContact.
  rewrite bind_run. cbn [loadData fst snd].
  destruct (list_find (fun c => Contact.id c = id) (contacts (data w)))
    as [[idx c']|] eqn:Hfind.
  - rewrite bind_run. cbn. split_and!; [done|by rewrite length_fmap|].
    intros i m Hi. rewrite list_lookup_fmap, Hi. cbn. by case_decide.
  - apply list_find_None in Hfind. rewrite Forall_forall in Hfind.
    by destruct (Hfind c Hc).
Qed.

(** ** At most one scheduled occurrence per subject and year *)

Section UniqueScheduled.

Implicit Types (msgs : list ScheduledMessage.t) (m : ScheduledMessage.t) (w : World).

Lemma scheduledKeys_app msgs m :
  scheduledKeys (msgs ++ [m])
  = scheduledKeys msgs ++ (if decide (isScheduled m) then [key m] else []).
Proof.
  unfold scheduledKeys. rewrite filter_app, fmap_app. f_equal.
  rewrite filter_cons, filter_nil. by case_decide.
Qed.

Lemma scheduledKeys_insert msgs i m :
  ~ isScheduled m -> scheduledKeys (<[i := m]> msgs) `sublist_of` scheduledKeys msgs.
Proof.
  intros Hm. revert i. induction msgs as [|x msgs IH]; intros [|i]; try done.
  - change (<[0%nat := m]> (x :: msgs)) with (m :: msgs).
    unfold scheduledKeys. rewrite !filter_cons. rewrite decide_False by done.
    case_decide; [by apply sublist_cons|done].
  - change (<[S i := m]> (x :: msgs)) with (x :: <[i := m]> msgs).
    specialize (IH i). unfold scheduledKeys in *. rewrite !filter_cons.
    case_decide; [by apply sublist_skip|done].
Qed.

Lemma scheduledKeys_fmap (g : ScheduledMessage.t -> ScheduledMessage.t) msgs :
  (forall m, g m = m \/ ~ isScheduled (g m)) ->
  scheduledKeys (g <$> msgs) `sublist_of` scheduledKeys msgs.
Proof.
  intros Hg. induction msgs as [|x msgs IH]; [done|].
  rewrite fmap_cons. unfold scheduledKeys in *. rewrite !filter_cons.
  destruct (Hg x) as [-> | Hx].
  - case_decide; [by apply sublist_skip|done].
  - rewrite decide_False by done. case_decide; [by apply sublist_cons|done].
Qed.

Lemma elem_of_scheduledKeys msgs k :
  k ∈ scheduledKeys msgs <-> exists m, m ∈ msgs /\ isScheduled m /\ key m = k.
Proof.
  unfold scheduledKeys. rewrite list_elem_of_fmap. split.
  - intros (m & -> & [Hs Hm]%list_elem_of_filter). by exists m.
  - intros (m & Hm & Hs & <-). exists m. split; [done|]. by apply list_elem_of_filter.
Qed.

(** The property of the claim is the absence of a repeated key among the
    scheduled occurrences. *)
Lemma atMostOneScheduled_NoDup msgs :
  atMostOneScheduled msgs <-> NoDup (scheduledKeys msgs).
Proof.
  induction msgs as [|x msgs IH].
  - split; [constructor|]. intros _ i j mi mj Hi. by rewrite lookup_nil in Hi.
  - unfold scheduledKeys in *. rewrite filter_cons. split.
    + intros H.
      assert (Htl : atMostOneScheduled msgs).
      { intros i j mi mj Hi Hj ? ? ? ?.
        assert (S i = S j) by (eapply (H (S i) (S j)); eauto). lia. }
      apply IH in Htl. case_decide as Hx; [|done]. cbn. constructor; [|done].
      intros Hin. apply (elem_of_scheduledKeys msgs) in Hin as (m & Hm & Hs & Hk).
      apply list_elem_of_lookup in Hm as [j Hj].
      unfold key in Hk. injection Hk as Hc Hy.
      assert (0%nat = S j); [|lia].
      eapply (H 0%nat (S j) x m); eauto.
    + intros Hnd i j mi mj Hi Hj Hsi Hsj Hc Hy.
      assert (Htl : NoDup (key <$> filter isScheduled msgs)).
      { case_decide; [by inversion Hnd|done]. }
      apply IH in Htl.
      assert (Hhead : forall k m, isScheduled x -> msgs !! k = Some m -> isScheduled m ->
                 key m = key x -> False).
      { intros k m Hx Hk Hs Heq. rewrite decide_True in Hnd by done.
        cbn in Hnd. inversion Hnd as [|? ? Hnotin _]; subst.
        apply Hnotin, (elem_of_scheduledKeys msgs). exists m.
        split_and!; [by eapply list_elem_of_lookup_2|done|done]. }
      destruct i as [|i], j as [|j]; cbn in Hi, Hj; simplify_eq; try done.
      * exfalso. eapply (Hhead j mj); eauto. unfold key. by rewrite Hc, Hy.
      * exfalso. eapply (Hhead i mi); eauto. unfold key. by rewrite Hc, Hy.
      * f_equal. eapply Htl; eauto.
Qed.

End UniqueScheduled.

(** ** The occurrence scheduler *)

Section Scheduler.

Import JSDate.

Implicit Types (w : World) (m : ScheduledMessage.t) (contact : Contact.t).

(** The three ways [scheduleMessagesForContact] ends. *)
Lemma scheduleMessagesForContact_unknown contactId w :
  findContact contactId w = None ->
  scheduleMessagesForContact contactId w = (None, w).
Proof.
  unfold findContact. intros Hc.
  unfold scheduleMessagesForContact, getContacts. rewrite !bind_run. cbn.
  by rewrite Hc.
Qed.

Lemma scheduleMessagesForContact_existing contactId w contact m :
  findContact contactId w = Some contact ->
  findScheduled contactId (getFullYear (LocalTZA w) (nextBirthdayIn w contact))
    (messages (data w)) = Some m ->
  scheduleMessagesForContact contactId w = (Some m, set_clock (streamTail (clock w)) w).
Proof.
  unfold findContact, findScheduled, nextBirthdayIn. intros Hc He.
  unfold scheduleMessagesForContact, getContacts, getMessages.
  rewrite !bind_run. cbn. rewrite Hc. rewrite !bind_run. cbn. by rewrite He.
Qed.

Lemma scheduleMessagesForContact_created contactId w contact :
  findContact contactId w = Some contact ->
  findScheduled contactId (getFullYear (LocalTZA w) (nextBirthdayIn w contact))
    (messages (data w)) = None ->
  scheduleMessagesForContact contactId w
  = (Some (nextOccurrence w contact), afterScheduling w (nextOccurrence w contact)).
Proof.
  unfold findContact, findScheduled, nextBirthdayIn. intros Hc He.
  unfold scheduleMessagesForContact, getContacts, getMessages.
  rewrite !bind_run. cbn. rewrite Hc. rewrite !bind_run. cbn. by rewrite He.
Qed.

Lemma findContact_id contactId w contact :
  findContact contactId w = Some contact ->
  Contact.id contact = contactId /\ contact ∈ contacts (data w).
Proof.
  unfold findContact. intros H.
  destruct (list_find _ _) as [[i c]|] eqn:Hf; [|done]. cbn in H. simplify_eq.
  apply list_find_Some in Hf as (Hi & Hid & _). split; [done|].
  by eapply list_elem_of_lookup_2.
Qed.

Lemma findScheduled_Some contactId year msgs m :
  findScheduled contactId year msgs = Some m ->
  m ∈ msgs /\ ScheduledMessage.contactId m = contactId
  /\ ScheduledMessage.year m = year /\ ScheduledMessage.status m = scheduled.
Proof.
  unfold findScheduled. intros H.
  destruct (list_find _ _) as [[i x]|] eqn:Hf; [|done]. cbn in H. simplify_eq.
  apply list_find_Some in Hf as (Hi & (? & ? & ?) & _).
  split_and!; try done. by eapply list_elem_of_lookup_2.
Qed.

Lemma findScheduled_None contactId year msgs :
  findScheduled contactId year msgs = None ->
  (contactId, year) ∉ scheduledKeys msgs.
Proof.
  unfold findScheduled. intros H.
  destruct (list_find _ _) as [[i x]|] eqn:Hf; [done|].
  apply list_find_None in Hf. rewrite Forall_forall in Hf.
  intros (m & Hm & Hs & Hk)%elem_of_scheduledKeys.
  apply (Hf m Hm). unfold key in Hk. by simplify_eq.
Qed.

(** Adding a record at the end makes it the first match of a search that
    found nothing before. *)
Lemma findScheduled_app_new contactId year msgs m :
  findScheduled contactId year msgs = None ->
  ScheduledMessage.contactId m = contactId -> ScheduledMessage.year m = year ->
  ScheduledMessage.status m = scheduled ->
  findScheduled contactId year (msgs ++ [m]) = Some m.
Proof.
  unfold findScheduled. intros H Hc Hy Hs.
  destruct (list_find _ msgs) as [[i x]|] eqn:Hf; [done|].
  rewrite list_find_app_r by done. cbn. rewrite decide_True by done. done.
Qed.

Lemma next_candidate_stable (c : Z -> Z) (y1 y2 ref ref' : Z) :
  y1 <= y2 -> ref <= ref' -> (forall y, ref' < c y -> y2 <= y) ->
  ref' < (if c y1 <=? ref then c (y1 + 1) else c y1) ->
  (if c y2 <=? ref' then c (y2 + 1) else c y2)
  = (if c y1 <=? ref then c (y1 + 1) else c y1).
Proof.
  intros Hy12 Hle Hup Hlt.
  destruct (Z.leb_spec (c y1) ref) as [Hc1 | Hc1].
  - pose proof (Hup _ Hlt). assert (y2 = y1 \/ y2 = y1 + 1) as [-> | ->] by lia.
    + destruct (Z.leb_spec (c y1) ref'); [done|lia].
    + destruct (Z.leb_spec (c (y1 + 1)) ref'); [lia|done].
  - pose proof (Hup _ Hlt). assert (y2 = y1) as -> by lia.
    destruct (Z.leb_spec (c y1) ref'); [lia|done].
Qed.

(** Between a reference instant and the fire instant computed from it the
    computed fire instant does not change. *)
Lemma getNextBirthdayDate_stable tza birthdayMMDD ref ref' :
  validBirthday birthdayMMDD ->
  ref <= ref' < getNextBirthdayDate tza birthdayMMDD ref ->
  getNextBirthdayDate tza birthdayMMDD ref' = getNextBirthdayDate tza birthdayMMDD ref.
Proof.
  destruct birthdayMMDD as [month day]. intros [Hm Hd] [Hle Hlt]. cbn in Hm, Hd.
  assert (Hm' : 0 <= month - 1 <= 11) by lia.
  rewrite !getNextBirthdayDate_eq in *.
  apply (next_candidate_stable (fun y => newDate tza y (month - 1) day 9 0 0)
           (getFullYear tza ref) (getFullYear tza ref') ref ref'); [|done| |done].
  - apply YearFromTime_mono. unfold LocalTime. lia.
  - intros y Hlt'.
    rewrite <- (proj1 (newDate_fields tza y (month - 1) day Hm' Hd)).
    apply YearFromTime_mono. unfold LocalTime. lia.
Qed.

(** C3: for an existing contact with a birthday of month 1..12 and day
    1..31, a second [scheduleMessagesForContact] right after the first, at a
    clock reading not before the first call's and before the fire instant
    the first call computed, returns the very record the first call
    returned (so the same id), which is stored with status "scheduled", and
    leaves the stored data as the first call left them. *)
Theorem scheduleMessagesForContact_idempotent contactId w contact :
  findContact contactId w = Some contact ->
  validBirthday (Contact.birthday contact) ->
  clock w 0%nat <= clock (scheduleMessagesForContact contactId w).2 0%nat
    < nextBirthdayIn w contact ->
  exists m,
    (scheduleMessagesForContact contactId w).1 = Some m
    /\ (scheduleMessagesForContact contactId
          (scheduleMessagesForContact contactId w).2).1 = Some m
    /\ data (scheduleMessagesForContact contactId
               (scheduleMessagesForContact contactId w).2).2
       = data (scheduleMessagesForContact contactId w).2
    /\ m ∈ messages (data (scheduleMessagesForContact contactId w).2)
    /\ ScheduledMessage.status m = scheduled.
Proof.
  intros Hc Hb Hclock.
  set (year := getFullYear (LocalTZA w) (nextBirthdayIn w contact)).
  destruct (findScheduled contactId year (messages (data w))) as [m|] eqn:He.
  - rewrite (scheduleMessagesForContact_existing _ _ _ _ Hc He) in *. cbn in Hclock.
    set (w1 := set_clock (streamTail (clock w)) w).
    assert (Hnext : nextBirthdayIn w1 contact = nextBirthdayIn w contact).
    { unfold nextBirthdayIn. cbn. by apply getNextBirthdayDate_stable. }
    assert (He1 : findScheduled contactId
                    (getFullYear (LocalTZA w1) (nextBirthdayIn w1 contact))
                    (messages (data w1)) = Some m) by by rewrite Hnext.
    exists m. cbn [fst snd].
    rewrite (scheduleMessagesForContact_existing contactId w1 contact m Hc He1).
    apply findScheduled_Some in He as (? & ? & ? & ?). done.
  - rewrite (scheduleMessagesForContact_created _ _ _ Hc He) in *. cbn in Hclock.
    set (m := nextOccurrence w contact). set (w1 := afterScheduling w m).
    assert (Hc1 : findContact contactId w1 = Some contact) by done.
    apply findContact_id in Hc as [Hid _].
    assert (Hnext : nextBirthdayIn w1 contact = nextBirthdayIn w contact).
    { unfold nextBirthdayIn. cbn. by apply getNextBirthdayDate_stable. }
    assert (He1 : findScheduled contactId
                    (getFullYear (LocalTZA w1) (nextBirthdayIn w1 contact))
                    (messages (data w1)) = Some m).
    { rewrite Hnext. cbn. by apply findScheduled_app_new. }
    exists m. cbn [fst snd].
    rewrite (scheduleMessagesForContact_existing contactId w1 contact m Hc1 He1).
    split_and!; try done. cbn. apply elem_of_app. right. by apply list_elem_of_singleton.
Qed.

End Scheduler.

(** ** The text form of dates *)

Section IsoText.

Import JSDate.

Lemma app_String c (s1 s2 : string) : String c s1 +:+ s2 = String c (s1 +:+ s2).
Proof. reflexivity. Qed.

Lemma app_EmptyString (s : string) : EmptyString +:+ s = s.
Proof. reflexivity. Qed.

Lemma length_app_string (s1 s2 : string) :
  String.length (s1 +:+ s2) = (String.length s1 + String.length s2)%nat.
Proof.
  induction s1 as [|c s1 IH]; [done|].
  rewrite app_String. cbn [String.length]. by rewrite IH.
Qed.

Lemma length_digits w n : String.length (digits w n) = w.
Proof.
  revert n. induction w as [|w IH]; intros n; cbn [digits]; [done|].
  rewrite length_app_string, IH. cbn. lia.
Qed.

Lemma substring_prefix (s1 s2 : string) :
  substring 0 (String.length s1) (s1 +:+ s2) = s1.
Proof.
  induction s1 as [|c s1 IH].
  - rewrite app_EmptyString. by destruct s2.
  - rewrite app_String. cbn [String.length substring]. by rewrite IH.
Qed.

Lemma parseDigits_app (s1 s2 : string) acc :
  parseDigits (s1 +:+ s2) acc = parseDigits s1 acc ≫= parseDigits s2.
Proof.
  revert acc. induction s1 as [|c s1 IH]; intros acc; [done|].
  rewrite app_String. cbn [parseDigits].
  destruct (digitVal c); cbn; [apply IH|done].
Qed.

Lemma digitVal_digitChar n : digitVal (digitChar n) = Some (n mod 10).
Proof.
  unfold digitChar.
  assert (n mod 10 = 0 \/ n mod 10 = 1 \/ n mod 10 = 2 \/ n mod 10 = 3 \/ n mod 10 = 4
          \/ n mod 10 = 5 \/ n mod 10 = 6 \/ n mod 10 = 7 \/ n mod 10 = 8 \/ n mod 10 = 9)
    as H by (Z.div_mod_to_equations; lia).
  destruct_or!; rewrite H; reflexivity.
Qed.

Lemma parseDigits_digits w n acc :
  parseDigits (digits w n) acc = Some (acc * 10 ^ Z.of_nat w + n mod 10 ^ Z.of_nat w).
Proof.
  revert n acc. induction w as [|w IH]; intros n acc.
  - cbn. f_equal. rewrite Z.mod_1_r. lia.
  - cbn [digits]. rewrite parseDigits_app, IH. cbn.
    rewrite digitVal_digitChar. cbn. f_equal.
    rewrite Nat2Z.inj_succ, Z.pow_succ_r by lia.
    assert (0 < 10 ^ Z.of_nat w) by (apply Z.pow_pos_nonneg; lia).
    rewrite Z.rem_mul_r by lia. lia.
Qed.

(** The first four characters of the text of a date whose UTC year is in
    0..9999 are that year. *)
Lemma yearComponent_toISOString t :
  0 <= YearFromTime t <= 9999 ->
  yearComponent (toISOString t) = Some (YearFromTime t).
Proof.
  intros Hy. unfold yearComponent, field, toISOString, isoYear.
  replace ((0 <=? YearFromTime t) && (YearFromTime t <=? 9999)) with true
    by (symmetry; apply andb_true_iff; lia).
  cbv iota.
  assert (Hsub : forall rest,
            substring 0 4 (digits 4 (YearFromTime t) +:+ rest) = digits 4 (YearFromTime t)).
  { intros rest. pose proof (substring_prefix (digits 4 (YearFromTime t)) rest) as H.
    by rewrite length_digits in H. }
  rewrite Hsub, length_digits, decide_True by done.
  rewrite parseDigits_digits. f_equal.
  change (10 ^ Z.of_nat 4) with 10000. Z.div_mod_to_equations. lia.
Qed.

End IsoText.

(** ** The gateway *)

Section Gateway.

Implicit Types (w : World).

Lemma sameStore_refl w : sameStore w w.
Proof. by repeat split. Qed.

Lemma sameStore_trans w1 w2 w3 : sameStore w1 w2 -> sameStore w2 w3 -> sameStore w1 w3.
Proof. unfold sameStore. intros (?&?&?&?&?&?&?) (?&?&?&?&?&?&?). split_and!; congruence. Qed.

Lemma ensureNotifyService_sameStore bundle sessionId w :
  sameStore w (ensureNotifyService bundle sessionId w).2.
Proof.
  unfold ensureNotifyService, cacheNotifyServiceSid, getNotifyServiceSid,
    setNotifyServiceSid, createService, loadData, saveData.
  repeat first
    [ progress (rewrite ?bind_run; cbn [fst snd mret M_ret])
    | case_match ];
    by repeat split.
Qed.

Lemma sendBirthdaySms_sameStore bundle sessionId contactId phoneE164 messageBody w :
  sameStore w (sendBirthdaySms bundle sessionId contactId phoneE164 messageBody w).2.
Proof.
  unfold sendBirthdaySms. rewrite bind_run.
  set (w1 := (logSend phoneE164 messageBody w).2).
  assert (H1 : sameStore w w1) by by repeat split.
  destruct bundle as [b|]; [|by rewrite bind_run].
  rewrite bind_run.
  pose proof (ensureNotifyService_sameStore b sessionId w1) as H2.
  pose proof (sameStore_trans _ _ _ H1 H2) as H3.
  destruct (ensureNotifyService b sessionId w1) as [[sid|] w2]; cbn [fst snd] in *; [|done].
  rewrite bind_run. unfold createNotification. cbn [fst snd].
  repeat case_match; cbn; destruct H3 as (?&?&?&?&?&?&?); by repeat split.
Qed.

(** Every invocation of the send is recorded once. *)
Lemma sendBirthdaySms_sendLog bundle sessionId contactId phoneE164 messageBody w :
  sendLog (sendBirthdaySms bundle sessionId contactId phoneE164 messageBody w).2
  = sendLog w ++ [(phoneE164, messageBody)].
Proof.
  unfold sendBirthdaySms. rewrite bind_run.
  destruct bundle as [b|]; [|by rewrite bind_run].
  rewrite bind_run.
  assert (Hens : forall w', sendLog (ensureNotifyService b sessionId w').2 = sendLog w').
  { intros w'.
    unfold ensureNotifyService, cacheNotifyServiceSid, getNotifyServiceSid,
      setNotifyServiceSid, createService, loadData, saveData.
    repeat first
      [ progress (rewrite ?bind_run; cbn [fst snd mret M_ret])
      | case_match ]; done. }
  specialize (Hens (logSend phoneE164 messageBody w).2).
  destruct (ensureNotifyService b sessionId _) as [[sid|] w2]; cbn [fst snd] in *; [|done].
  rewrite bind_run. unfold createNotification. cbn [fst snd].
  repeat case_match; cbn; done.
Qed.

(** Without a client bundle the send is simulated. *)
Lemma sendBirthdaySms_simulated sessionId contactId phoneE164 messageBody w :
  sendBirthdaySms None sessionId contactId phoneE164 messageBody w
  = (mkSmsResult true (Some ("SIM_" +:+ JSDate.decimal (clock w 0%nat))) None,
     set_clock (streamTail (clock w))
       (set_sendLog (sendLog w ++ [(phoneE164, messageBody)]) w)).
Proof. reflexivity. Qed.

End Gateway.

(** ** The dispatch loop *)

Section DispatchBody.

Implicit Types (w : World) (m msg : ScheduledMessage.t) (msgs : list ScheduledMessage.t).

Local Notation "'byId' x" := (fun m' : ScheduledMessage.t => ScheduledMessage.id m' = x)
  (at level 10, x at level 9, only parsing).

Lemma updateMessage_at x u w i m :
  list_find (byId x) (messages (data w)) = Some (i, m) ->
  updateMessage x u w
  = (tt, set_messages (<[i := Partial.spread m u]> (messages (data w))) w).
Proof. intros H. unfold updateMessage. rewrite bind_run. cbn. by rewrite H. Qed.

Lemma updateMessage_none x u w :
  list_find (byId x) (messages (data w)) = None -> updateMessage x u w = (tt, w).
Proof. intros H. unfold updateMessage. rewrite bind_run. cbn. by rewrite H. Qed.

(** Writing a record with the same id at the place found leaves it the
    first with that id. *)
Lemma list_find_insert_same x msgs i m m' :
  list_find (byId x) msgs = Some (i, m) -> ScheduledMessage.id m' = x ->
  list_find (byId x) (<[i := m']> msgs) = Some (i, m').
Proof.
  intros (Hi & Hid & Hfirst)%list_find_Some Hid'. apply list_find_Some.
  split_and!; [|done|].
  - apply list_lookup_insert_eq. by eapply lookup_lt_Some.
  - intros j y Hj Hlt. rewrite list_lookup_insert_ne in Hj by lia. by eapply Hfirst.
Qed.

Lemma list_find_app_same x msgs i m extra :
  list_find (byId x) msgs = Some (i, m) ->
  list_find (byId x) (msgs ++ extra) = Some (i, m).
Proof. apply list_find_app_l. Qed.

(** The loop body, by the case it takes. *)
Lemma processDueMessage_run bundle now_ msg w :
  processDueMessage bundle now_ msg w
  = (tt, if dueAt now_ msg then
           if success (sendOutcome bundle w msg).1
           then rearmed (sentWorld bundle w msg) (ScheduledMessage.contactId msg)
           else failedWorld bundle w msg
         else w).
Proof.
  unfold processDueMessage, dueAt.
  case_decide as Hs; [by rewrite bool_decide_eq_false_2|].
  rewrite bool_decide_eq_true_2 by done. cbn [andb].
  destruct (JSDate.parse _) as [t|]; [|done].
  destruct (t <=? now_); [|done].
  rewrite !bind_run.
  unfold sentWorld, failedWorld, rearmed, findContact.
  fold (claimed w msg). fold (sendOutcome bundle w msg).
  destruct (success (sendOutcome bundle w msg).1); [|apply unit_run].
  rewrite !bind_run, getContacts_run. cbn [fst snd].
  destruct (list_find _ _) as [[j c]|]; cbn [fmap option_fmap option_map snd];
    [by rewrite bind_run|done].
Qed.

Lemma messages_claimed w i msg :
  list_find (byId (ScheduledMessage.id msg)) (messages (data w)) = Some (i, msg) ->
  claimed w msg = set_messages (<[i := with_status sending msg]> (messages (data w))) w.
Proof. intros H. unfold claimed. by rewrite (updateMessage_at _ _ _ _ _ H). Qed.

Lemma sendOutcome_sameStore bundle w msg :
  sameStore (claimed w msg) (sendOutcome bundle w msg).2.
Proof. apply sendBirthdaySms_sameStore. Qed.

(** The world after a successful send is written back. *)
Lemma sentWorld_fields bundle w i msg :
  list_find (byId (ScheduledMessage.id msg)) (messages (data w)) = Some (i, msg) ->
  let out := sendOutcome bundle w msg in
  messages (data (sentWorld bundle w msg))
  = <[i := sentRecord msg out.1 (clock out.2 0%nat)]> (messages (data w))
  /\ contacts (data (sentWorld bundle w msg)) = contacts (data w)
  /\ timers (sentWorld bundle w msg) = timers w ++ [ScheduledMessage.id msg]
  /\ uuid (sentWorld bundle w msg) = uuid w
  /\ random (sentWorld bundle w msg) = random w
  /\ LocalTZA (sentWorld bundle w msg) = LocalTZA w
  /\ activeClients (sentWorld bundle w msg) = activeClients w
  /\ sendLog (sentWorld bundle w msg)
     = sendLog w ++ [(ScheduledMessage.phone msg, ScheduledMessage.messageBody msg)]
  /\ clock (sentWorld bundle w msg) = streamTail (clock out.2).
Proof.
  intros H out.
  pose proof (sendOutcome_sameStore bundle w msg) as (Hm & Hc & Ht & Hu & Hr & Hz & Ha).
  pose proof (sendBirthdaySms_sendLog bundle "scheduler" (ScheduledMessage.contactId msg)
                (ScheduledMessage.phone msg) (ScheduledMessage.messageBody msg)
                (claimed w msg)) as Hlog.
  fold (sendOutcome bundle w msg) in Hlog. fold out in Hm, Hc, Ht, Hu, Hr, Hz, Ha, Hlog.
  rewrite (messages_claimed _ _ _ H) in Hm, Hc, Ht, Hu, Hr, Hz, Ha, Hlog.
  cbn in Hm, Hc, Ht, Hu, Hr, Hz, Ha, Hlog.
  unfold sentWorld. fold out. unfold markSent, setTimeoutDelivered, now.
  rewrite !bind_run. cbn [fst snd].
  set (w2 := set_clock (streamTail (clock out.2)) out.2).
  assert (Hfind : list_find (byId (ScheduledMessage.id msg)) (messages (data w2))
                  = Some (i, with_status sending msg)).
  { unfold w2. cbn. rewrite Hm. by eapply list_find_insert_same. }
  rewrite (updateMessage_at _ _ _ _ _ Hfind). cbn.
  rewrite Hm, list_insert_insert_eq. split_and!; try done; congruence.
Qed.

(** The world after a failed send is written back. *)
Lemma failedWorld_fields bundle w i msg :
  list_find (byId (ScheduledMessage.id msg)) (messages (data w)) = Some (i, msg) ->
  let out := sendOutcome bundle w msg in
  messages (data (failedWorld bundle w msg))
  = <[i := failedRecord msg out.1]> (messages (data w))
  /\ contacts (data (failedWorld bundle w msg)) = contacts (data w)
  /\ timers (failedWorld bundle w msg) = timers w
  /\ uuid (failedWorld bundle w msg) = uuid w
  /\ random (failedWorld bundle w msg) = random w
  /\ LocalTZA (failedWorld bundle w msg) = LocalTZA w
  /\ activeClients (failedWorld bundle w msg) = activeClients w
  /\ sendLog (failedWorld bundle w msg)
     = sendLog w ++ [(ScheduledMessage.phone msg, ScheduledMessage.messageBody msg)].
Proof.
  intros H out.
  pose proof (sendOutcome_sameStore bundle w msg) as (Hm & Hc & Ht & Hu & Hr & Hz & Ha).
  pose proof (sendBirthdaySms_sendLog bundle "scheduler" (ScheduledMessage.contactId msg)
                (ScheduledMessage.phone msg) (ScheduledMessage.messageBody msg)
                (claimed w msg)) as Hlog.
  fold (sendOutcome bundle w msg) in Hlog. fold out in Hm, Hc, Ht, Hu, Hr, Hz, Ha, Hlog.
  rewrite (messages_claimed _ _ _ H) in Hm, Hc, Ht, Hu, Hr, Hz, Ha, Hlog.
  cbn in Hm, Hc, Ht, Hu, Hr, Hz, Ha, Hlog.
  unfold failedWorld. fold out. unfold markFailed.
  assert (Hfind : list_find (byId (ScheduledMessage.id msg)) (messages (data out.2))
                  = Some (i, with_status sending msg)).
  { rewrite Hm. by eapply list_find_insert_same. }
  rewrite (updateMessage_at _ _ _ _ _ Hfind). cbn.
  rewrite Hm, list_insert_insert_eq. split_and!; try done; congruence.
Qed.

End DispatchBody.

Section DispatchCycle.

Implicit Types (w : World) (m msg : ScheduledMessage.t) (msgs : list ScheduledMessage.t).

Local Notation "'byId' x" := (fun m' : ScheduledMessage.t => ScheduledMessage.id m' = x)
  (at level 10, x at level 9, only parsing).

Lemma forEach_app {A} (f : A -> M unit) (l1 l2 : list A) w :
  forEach f (l1 ++ l2) w = forEach f l2 (forEach f l1 w).2.
Proof.
  revert w. induction l1 as [|x l1 IH]; intros w; [done|].
  cbn [app forEach]. rewrite !bind_run. apply IH.
Qed.

Lemma forEach_skip {A} (f : A -> M unit) (l : list A) w :
  (forall x w', x ∈ l -> f x w' = (tt, w')) -> forEach f l w = (tt, w).
Proof.
  revert w. induction l as [|x l IH]; intros w Hskip; [done|].
  cbn [forEach]. rewrite bind_run, (Hskip x w) by apply list_elem_of_here.
  apply IH. intros y w' Hy. apply Hskip. by apply list_elem_of_further.
Qed.

(** An invariant indexed by the number of elements already visited. *)
Lemma forEach_invariant {A} (f : A -> M unit) (I : nat -> World -> Prop) (l : list A) w :
  I 0%nat w ->
  (forall k x w', l !! k = Some x -> I k w' -> I (S k) (f x w').2) ->
  I (length l) (forEach f l w).2.
Proof.
  revert I w. induction l as [|x l IH]; intros I w H0 Hstep; [done|].
  cbn [forEach length]. rewrite bind_run.
  apply (IH (fun k => I (S k))).
  - by apply (Hstep 0%nat x w).
  - intros k y w' Hk. by apply (Hstep (S k) y w').
Qed.

Lemma processDueMessages_run w :
  processDueMessages w
  = forEach (processDueMessage (snd <$> head (activeClients w)) (clock w 0%nat))
      (messages (data w)) (set_clock (streamTail (clock w)) w).
Proof. reflexivity. Qed.

(** A cycle over a store with a single due message is the loop body on
    that message. *)
Lemma processDueMessages_single w i msg :
  messages (data w) !! i = Some msg ->
  (forall j m, messages (data w) !! j = Some m -> j <> i -> dueAt (clock w 0%nat) m = false) ->
  (processDueMessages w).2
  = (processDueMessage (cycleBundle w) (clock w 0%nat) msg (cycleStart w)).2.
Proof.
  intros Hi Hothers. rewrite processDueMessages_run.
  rewrite <- (take_drop_middle _ _ _ Hi) at 1.
  assert (Hlen : (i < length (messages (data w)))%nat) by (by eapply lookup_lt_Some).
  rewrite forEach_app, (forEach_skip _ (take i (messages (data w)))); cycle 1.
  { intros x w' [j Hj]%list_elem_of_lookup. rewrite processDueMessage_run.
    rewrite lookup_take_Some in Hj. destruct Hj as [Hj Hlt].
    by rewrite (Hothers j x Hj) by lia. }
  cbn [forEach snd]. rewrite bind_run, forEach_skip; [done|].
  intros x w' [j Hj]%list_elem_of_lookup. rewrite processDueMessage_run.
  rewrite lookup_drop in Hj. by rewrite (Hothers _ x Hj) by lia.
Qed.

End DispatchCycle.

(** ** One due occurrence in a cycle *)

Section Scenarios.

Implicit Types (w : World) (m msg : ScheduledMessage.t).

Lemma cycleStart_find w i msg :
  NoDup (ids w) -> messages (data w) !! i = Some msg ->
  list_find (fun m' => ScheduledMessage.id m' = ScheduledMessage.id msg)
    (messages (data (cycleStart w))) = Some (i, msg).
Proof. intros Hnd Hi. by apply list_find_id_lookup. Qed.

(** The ways the re-arming of a subject ends. *)
Lemma rearmed_cases w contactId :
  (findContact contactId w = None /\ rearmed w contactId = w)
  \/ (exists contact m,
        findContact contactId w = Some contact
        /\ findScheduled contactId (JSDate.getFullYear (LocalTZA w) (nextBirthdayIn w contact))
             (messages (data w)) = Some m
        /\ rearmed w contactId = set_clock (streamTail (clock w)) w)
  \/ (exists contact,
        findContact contactId w = Some contact
        /\ findScheduled contactId (JSDate.getFullYear (LocalTZA w) (nextBirthdayIn w contact))
             (messages (data w)) = None
        /\ rearmed w contactId = afterScheduling w (nextOccurrence w contact)).
Proof.
  unfold rearmed. destruct (findContact contactId w) as [contact|] eqn:Hc; [|by left].
  right. destruct (findContact_id _ _ _ Hc) as [Hid _]. rewrite Hid.
  destruct (findScheduled contactId
              (JSDate.getFullYear (LocalTZA w) (nextBirthdayIn w contact))
              (messages (data w))) as [m|] eqn:He.
  - left. exists contact, m. by rewrite (scheduleMessagesForContact_existing _ _ _ _ Hc He).
  - right. exists contact. by rewrite (scheduleMessagesForContact_created _ _ _ Hc He).
Qed.

(** C7: in a cycle over a store whose only due "scheduled" occurrence is
    [msg], when the send fails with error text [e], the stored messages
    after the cycle are those before it with [msg] replaced by the same
    record with status "failed" and [e] as its error text: no record is
    added for any subject; the send was invoked once, and no delivered
    callback is left pending. *)
Theorem dispatch_failure_recorded w i msg e :
  NoDup (ids w) ->
  messages (data w) !! i = Some msg ->
  dueAt (clock w 0%nat) msg = true ->
  (forall j m, messages (data w) !! j = Some m -> j <> i -> dueAt (clock w 0%nat) m = false) ->
  success (sendOutcome (cycleBundle w) (cycleStart w) msg).1 = false ->
  error (sendOutcome (cycleBundle w) (cycleStart w) msg).1 = Some e ->
  exists m',
    messages (data (processDueMessages w).2) = <[i := m']> (messages (data w))
    /\ m' = failedRecord msg (sendOutcome (cycleBundle w) (cycleStart w) msg).1
    /\ ScheduledMessage.status m' = failed
    /\ ScheduledMessage.errorMessage m' = Some e
    /\ sendLog (processDueMessages w).2
       = sendLog w ++ [(ScheduledMessage.phone msg, ScheduledMessage.messageBody msg)]
    /\ timers (processDueMessages w).2 = timers w.
Proof.
  intros Hnd Hi Hdue Hothers Hfail Herr.
  rewrite (processDueMessages_single w i msg Hi Hothers), processDueMessage_run.
  rewrite Hdue, Hfail. cbn [snd].
  destruct (failedWorld_fields (cycleBundle w) (cycleStart w) i msg
              (cycleStart_find w i msg Hnd Hi)) as (Hm & _ & Ht & _ & _ & _ & _ & Hlog).
  eexists. split_and!; [exact Hm|reflexivity|done|exact Herr|exact Hlog|exact Ht].
Qed.

(** C6 (amended): in a cycle over a store whose only due "scheduled"
    occurrence is [msg], of a contact that still exists, when the send
    succeeds, [msg] ends the cycle with status "sent", with the
    notificationSid of the send result recorded (a non-empty "SIM_..." text
    when no channel is active) and a sentAt timestamp; a "scheduled"
    occurrence of the same contact is stored for the year of the contact's
    next birthday after the time of re-arming; and the delivered callback
    for [msg] is pending. *)
Theorem dispatch_success_recorded w i msg contact :
  NoDup (ids w) ->
  messages (data w) !! i = Some msg ->
  dueAt (clock w 0%nat) msg = true ->
  (forall j m, messages (data w) !! j = Some m -> j <> i -> dueAt (clock w 0%nat) m = false) ->
  findContact (ScheduledMessage.contactId msg) w = Some contact ->
  success (sendOutcome (cycleBundle w) (cycleStart w) msg).1 = true ->
  exists m' next,
    messages (data (processDueMessages w).2) !! i = Some m'
    /\ ScheduledMessage.id m' = ScheduledMessage.id msg
    /\ ScheduledMessage.status m' = sent
    /\ ScheduledMessage.notificationSid m'
       = sms_notificationSid (sendOutcome (cycleBundle w) (cycleStart w) msg).1
    /\ (cycleBundle w = None ->
        exists sid, ScheduledMessage.notificationSid m' = Some ("SIM_" +:+ sid))
    /\ ScheduledMessage.sentAt m'
       = Some (JSDate.toISOString
                 (clock (sendOutcome (cycleBundle w) (cycleStart w) msg).2 0%nat))
    /\ next ∈ messages (data (processDueMessages w).2)
    /\ ScheduledMessage.contactId next = ScheduledMessage.contactId msg
    /\ ScheduledMessage.status next = scheduled
    /\ ScheduledMessage.year next
       = JSDate.getFullYear (LocalTZA w)
           (nextBirthdayIn (sentWorld (cycleBundle w) (cycleStart w) msg) contact)
    /\ timers (processDueMessages w).2 = timers w ++ [ScheduledMessage.id msg].
Proof.
  intros Hnd Hi Hdue Hothers Hc Hok.
  rewrite (processDueMessages_single w i msg Hi Hothers), processDueMessage_run.
  rewrite Hdue, Hok. cbn [snd].
  destruct (sentWorld_fields (cycleBundle w) (cycleStart w) i msg
              (cycleStart_find w i msg Hnd Hi))
    as (Hm & Hcs & Ht & _ & _ & Hz & _ & _ & _).
  cbv zeta in Hm. cbn in Hcs, Ht, Hz.
  set (out := sendOutcome (cycleBundle w) (cycleStart w) msg) in *.
  set (w3 := sentWorld (cycleBundle w) (cycleStart w) msg) in *.
  assert (Hlen : (i < length (messages (data w)))%nat) by (by eapply lookup_lt_Some).
  assert (Hi3 : messages (data w3) !! i = Some (sentRecord msg out.1 (clock out.2 0%nat))).
  { rewrite Hm. by apply list_lookup_insert_eq. }
  assert (Hc3 : findContact (ScheduledMessage.contactId msg) w3 = Some contact).
  { unfold findContact in *. by rewrite Hcs. }
  assert (Hsim : cycleBundle w = None ->
            exists sid, sms_notificationSid out.1 = Some ("SIM_" +:+ sid)).
  { intros Hb. unfold out, sendOutcome. rewrite Hb, sendBirthdaySms_simulated. by eexists. }
  destruct (rearmed_cases w3 (ScheduledMessage.contactId msg))
    as [[Hn _] | [(c & m & Hc' & He & ->) | (c & Hc' & He & ->)]].
  - by rewrite Hn in Hc3.
  - assert (c = contact) as -> by congruence.
    apply findScheduled_Some in He as (Hin & ? & ? & ?).
    exists (sentRecord msg out.1 (clock out.2 0%nat)), m.
    rewrite Hz in *. split_and!; try done.
  - assert (c = contact) as -> by congruence.
    destruct (findContact_id _ _ _ Hc3) as [Hid _].
    exists (sentRecord msg out.1 (clock out.2 0%nat)), (nextOccurrence w3 contact).
    cbn [afterScheduling data messages timers].
    split_and!; try done.
    + by rewrite lookup_app_l by (by eapply lookup_lt_Some).
    + apply elem_of_app. right. by apply list_elem_of_singleton.
    + cbn. by rewrite Hz.
Qed.

End Scenarios.

(** ** The dedup invariant along the operations *)

Section DedupInvariant.

Implicit Types (w : World) (m msg : ScheduledMessage.t).

Lemma preserves_ret {A} (P : World -> Prop) (a : A) : preserves P (mret a : M A).
Proof. by intros w. Qed.

Lemma preserves_bind {A B} (P : World -> Prop) (m : M A) (f : A -> M B) :
  preserves P m -> (forall a, preserves P (f a)) -> preserves P (m ≫= f).
Proof. intros Hm Hf w Hw. rewrite bind_run. by apply Hf, Hm. Qed.

Lemma preserves_forEach {A} (P : World -> Prop) (f : A -> M unit) (l : list A) :
  (forall x, preserves P (f x)) -> preserves P (forEach f l).
Proof.
  intros Hf. induction l as [|x l IH]; [by apply preserves_ret|].
  cbn [forEach]. apply preserves_bind; [apply Hf|by intros _].
Qed.

Lemma uniqueScheduled_NoDup w :
  uniqueScheduled w <-> NoDup (scheduledKeys (messages (data w))).
Proof. apply atMostOneScheduled_NoDup. Qed.

(** Code that leaves the stored messages as they are keeps the invariant. *)
Lemma preserves_same_messages {A} (m : M A) :
  (forall w, messages (data (m w).2) = messages (data w)) -> preserves uniqueScheduled m.
Proof. intros H w. unfold uniqueScheduled. by rewrite H. Qed.

Lemma preserves_updateMessage x u :
  (exists s, Partial.status u = Some s /\ s <> scheduled) ->
  preserves uniqueScheduled (updateMessage x u).
Proof.
  intros (s & Hs & Hne) w. rewrite !uniqueScheduled_NoDup. intros Hw.
  destruct (list_find (fun m' => ScheduledMessage.id m' = x) (messages (data w)))
    as [[i m]|] eqn:Hf.
  - rewrite (updateMessage_at _ _ _ _ _ Hf). cbn -[scheduledKeys].
    eapply sublist_NoDup; [exact Hw|]. apply scheduledKeys_insert.
    unfold isScheduled. destruct m, u; cbn in *. by subst.
  - by rewrite (updateMessage_none _ _ _ Hf).
Qed.

Lemma preserves_addMessage m :
  ScheduledMessage.status m <> scheduled -> preserves uniqueScheduled (addMessage m).
Proof.
  intros Hm w. rewrite !uniqueScheduled_NoDup. intros Hw. rewrite addMessage_run. cbn -[scheduledKeys].
  rewrite scheduledKeys_app, decide_False by done. by rewrite app_nil_r.
Qed.

Lemma preserves_removeContact x : preserves uniqueScheduled (removeContact x).
Proof.
  intros w. rewrite !uniqueScheduled_NoDup. intros Hw. unfold removeContact.
  rewrite bind_run. cbn [loadData fst snd].
  destruct (list_find _ _) as [[idx c]|]; [|done].
  rewrite bind_run. cbn -[scheduledKeys].
  eapply sublist_NoDup; [exact Hw|]. apply scheduledKeys_fmap.
  intros m. case_decide; [right|by left]. unfold isScheduled. by destruct m.
Qed.

Lemma preserves_scheduleMessagesForContact contactId :
  preserves uniqueScheduled (scheduleMessagesForContact contactId).
Proof.
  intros w. rewrite !uniqueScheduled_NoDup. intros Hw.
  destruct (findContact contactId w) as [contact|] eqn:Hc.
  - destruct (findScheduled contactId
                (JSDate.getFullYear (LocalTZA w) (nextBirthdayIn w contact))
                (messages (data w))) as [m|] eqn:He.
    + by rewrite (scheduleMessagesForContact_existing _ _ _ _ Hc He).
    + rewrite (scheduleMessagesForContact_created _ _ _ Hc He). cbn -[scheduledKeys].
      rewrite scheduledKeys_app, decide_True by done.
      apply NoDup_app. split_and!; [done| |apply NoDup_singleton].
      intros k Hk ->%list_elem_of_singleton.
      apply findScheduled_None in He. apply He.
      destruct (findContact_id _ _ _ Hc) as [<- _]. exact Hk.
  - by rewrite (scheduleMessagesForContact_unknown _ _ Hc).
Qed.

Lemma preserves_sendBirthdaySms bundle sessionId contactId phoneE164 messageBody :
  preserves uniqueScheduled (sendBirthdaySms bundle sessionId contactId phoneE164 messageBody).
Proof.
  apply preserves_same_messages. intros w.
  by destruct (sendBirthdaySms_sameStore bundle sessionId contactId phoneE164 messageBody w).
Qed.

Lemma preserves_markSent x result : preserves uniqueScheduled (markSent x result).
Proof.
  unfold markSent. apply preserves_bind; [by apply preserves_same_messages|intros t].
  apply preserves_bind; [|intros _; by apply preserves_same_messages].
  apply preserves_updateMessage. by exists sent.
Qed.

Lemma preserves_markFailed x result : preserves uniqueScheduled (markFailed x result).
Proof. apply preserves_updateMessage. by exists failed. Qed.

Lemma preserves_processDueMessage bundle now_ msg :
  preserves uniqueScheduled (processDueMessage bundle now_ msg).
Proof.
  unfold processDueMessage. case_decide; [apply preserves_ret|].
  destruct (JSDate.parse _) as [t|]; [|apply preserves_ret].
  destruct (t <=? now_); [|apply preserves_ret].
  apply preserves_bind; [apply preserves_updateMessage; by exists sending|intros _].
  apply preserves_bind; [apply preserves_sendBirthdaySms|intros result].
  destruct (success result); [|apply preserves_markFailed].
  apply preserves_bind; [apply preserves_markSent|intros _].
  apply preserves_bind; [by apply preserves_same_messages|intros cs].
  destruct (snd <$> list_find _ cs); [|apply preserves_ret].
  apply preserves_bind; [apply preserves_scheduleMessagesForContact|intros _].
  apply preserves_ret.
Qed.

Lemma preserves_processDueMessages : preserves uniqueScheduled processDueMessages.
Proof.
  unfold processDueMessages.
  apply preserves_bind; [by apply preserves_same_messages|intros msgs].
  apply preserves_bind; [by apply preserves_same_messages|intros t].
  apply preserves_bind; [by apply preserves_same_messages|intros b].
  apply preserves_forEach. intros msg. apply preserves_processDueMessage.
Qed.

Lemma preserves_scheduleEach cs acc : preserves uniqueScheduled (scheduleEach cs acc).
Proof.
  revert acc. induction cs as [|c cs IH]; intros acc; [apply preserves_ret|].
  cbn [scheduleEach].
  apply preserves_bind; [apply preserves_scheduleMessagesForContact|intros r; apply IH].
Qed.

Lemma preserves_scheduleAllContacts : preserves uniqueScheduled scheduleAllContacts.
Proof.
  unfold scheduleAllContacts.
  apply preserves_bind; [by apply preserves_same_messages|intros cs].
  apply preserves_scheduleEach.
Qed.

Lemma preserves_postCancel x : preserves uniqueScheduled (postCancel x).
Proof.
  unfold postCancel.
  apply preserves_bind; [by apply preserves_same_messages|intros msgs].
  destruct (snd <$> list_find _ msgs); [|apply preserves_ret].
  case_decide; [apply preserves_ret|].
  apply preserves_bind; [|intros _; apply preserves_ret].
  apply preserves_updateMessage. by exists cancelled.
Qed.

Lemma preserves_fireTimer n : preserves uniqueScheduled (fireTimer n).
Proof.
  unfold fireTimer.
  apply preserves_bind; [by apply preserves_same_messages|intros pending].
  destruct (pending !! n); [|apply preserves_ret].
  apply preserves_bind; [by apply preserves_same_messages|intros _].
  unfold deliveredCallback.
  apply preserves_bind; [by apply preserves_same_messages|intros t].
  apply preserves_updateMessage. by exists delivered.
Qed.

Lemma preserves_postSendNow sessionID contactId messageBody :
  preserves uniqueScheduled (postSendNow sessionID contactId messageBody).
Proof.
  unfold postSendNow. destruct (negb (truthy contactId)); [apply preserves_ret|].
  apply preserves_bind; [by apply preserves_same_messages|intros cs].
  destruct (snd <$> list_find _ cs) as [contact|]; [|apply preserves_ret].
  apply preserves_bind.
  { destruct (truthy_opt messageBody); [apply preserves_ret|].
    unfold generateBirthdayMessage.
    apply preserves_bind; [by apply preserves_same_messages|intros; apply preserves_ret]. }
  intros body.
  apply preserves_bind; [by apply preserves_same_messages|intros x].
  apply preserves_bind; [by apply preserves_same_messages|intros t1].
  apply preserves_bind; [by apply preserves_same_messages|intros t2].
  apply preserves_bind; [by apply preserves_same_messages|intros t3].
  apply preserves_bind; [by apply preserves_same_messages|intros tza].
  apply preserves_bind; [by apply preserves_addMessage|intros _].
  apply preserves_bind; [by apply preserves_same_messages|intros b].
  apply preserves_bind; [apply preserves_sendBirthdaySms|intros result].
  destruct (success result).
  - apply preserves_bind; [apply preserves_markSent|intros; apply preserves_ret].
  - apply preserves_bind; [apply preserves_markFailed|intros; apply preserves_ret].
Qed.

Lemma preserves_runOp op : preserves uniqueScheduled (runOp op).
Proof.
  destruct op; cbn [runOp].
  - apply preserves_bind; [apply preserves_scheduleMessagesForContact|intros; apply preserves_ret].
  - apply preserves_bind; [|intros; apply preserves_ret].
    apply preserves_bind; [apply preserves_scheduleAllContacts|intros; apply preserves_ret].
  - apply preserves_processDueMessages.
  - apply preserves_bind; [apply preserves_postCancel|intros; apply preserves_ret].
  - apply preserves_bind; [|intros; apply preserves_ret].
    apply preserves_bind; [apply preserves_removeContact|].
    intros []; apply preserves_ret.
  - apply preserves_fireTimer.
  - apply preserves_bind; [apply preserves_postSendNow|intros; apply preserves_ret].
Qed.

Lemma elem_of_history ops w w' :
  w' ∈ history ops w ->
  exists k, (k < length ops)%nat /\ w' = runOps (take (S k) ops) w.
Proof.
  revert w. induction ops as [|op ops IH]; intros w; cbn [history].
  - by intros ?%elem_of_nil.
  - intros [Hin | ->%list_elem_of_singleton]%elem_of_app.
    + destruct (IH _ Hin) as (k & Hk & ->). exists (S k). split; [cbn; lia|done].
    + exists 0%nat. split; [cbn; lia|done].
Qed.

(** C1: along every sequence of [scheduleMessagesForContact],
    [scheduleAllContacts] and dispatch cycles (and of the other operations:
    cancellation, contact deletion, delivered callbacks, send-now), from a
    store with at most one "scheduled" occurrence per (contact id, year),
    the store has at most one after every operation. *)
Theorem at_most_one_scheduled_invariant (ops : list Op) (w : World) :
  atMostOneScheduled (messages (data w)) ->
  Forall (fun w' => atMostOneScheduled (messages (data w'))) (history ops w).
Proof.
  revert w. induction ops as [|op ops IH]; intros w Hw; cbn [history]; [done|].
  pose proof (preserves_runOp op w Hw) as Hw'.
  apply Forall_app. split; [by apply IH|by apply Forall_singleton].
Qed.

End DedupInvariant.

(** ** Well-formed worlds and the delivery state machine *)

Section StateMachine.

Implicit Types (w : World) (m msg : ScheduledMessage.t) (s : MessageStatus).

Lemma status_le_refl s : status_le s s.
Proof. destruct s; cbn; auto. Qed.

Lemma status_le_trans s1 s2 s3 : status_le s1 s2 -> status_le s2 s3 -> status_le s1 s3.
Proof. destruct s1, s2; cbn; intros H1 H2; destruct_or?; try done; subst; cbn in *; auto. Qed.

(** What the claim says of a terminal status follows from the order. *)
Lemma status_le_terminal s s' :
  terminal s -> status_le s s' -> s' = s \/ (s = sent /\ s' = delivered).
Proof.
  unfold terminal. intros Ht Hle.
  destruct s; cbn in Hle; destruct_or?; try done; subst; auto.
Qed.

Lemma advances_refl w : advances w w.
Proof. intros i m Hi. exists m. split_and!; [done..|apply status_le_refl]. Qed.

Lemma advances_trans w1 w2 w3 : advances w1 w2 -> advances w2 w3 -> advances w1 w3.
Proof.
  intros H12 H23 i m Hi. destruct (H12 i m Hi) as (m2 & Hi2 & Hid2 & Hle2).
  destruct (H23 i m2 Hi2) as (m3 & Hi3 & Hid3 & Hle3).
  exists m3. split_and!; [done|congruence|by eapply status_le_trans].
Qed.

Lemma advances_same w w' : messages (data w') = messages (data w) -> advances w w'.
Proof. intros H i m Hi. exists m. rewrite H. split_and!; [done..|apply status_le_refl]. Qed.

Lemma wellFormed_same w w' :
  messages (data w') = messages (data w) -> timers w' = timers w -> uuid w' = uuid w ->
  wellFormed w -> wellFormed w'.
Proof. unfold wellFormed, ids. by intros -> -> ->. Qed.

Lemma respects_same {A} (m : M A) :
  (forall w, messages (data (m w).2) = messages (data w)
             /\ timers (m w).2 = timers w /\ uuid (m w).2 = uuid w) ->
  respects m.
Proof.
  intros H w Hw. destruct (H w) as (Hm & Ht & Hu).
  split; [by eapply wellFormed_same|by apply advances_same].
Qed.

Lemma respects_ret {A} (a : A) : respects (mret a : M A).
Proof. by apply respects_same. Qed.

Lemma respects_bind {A B} (m : M A) (f : A -> M B) :
  respects m -> (forall a, respects (f a)) -> respects (m ≫= f).
Proof.
  intros Hm Hf w Hw. rewrite bind_run.
  destruct (Hm w Hw) as [Hw1 Ha1]. destruct (Hf (m w).1 _ Hw1) as [Hw2 Ha2].
  split; [done|by eapply advances_trans].
Qed.

(** In a well-formed world a stored message is the first with its id. *)
Lemma wellFormed_find w i m :
  wellFormed w -> messages (data w) !! i = Some m ->
  list_find (fun m' => ScheduledMessage.id m' = ScheduledMessage.id m) (messages (data w))
  = Some (i, m).
Proof. intros (Hnd & _) Hi. by apply list_find_id_lookup. Qed.

Lemma wellFormed_unique w i j m m' :
  wellFormed w -> messages (data w) !! i = Some m -> messages (data w) !! j = Some m' ->
  ScheduledMessage.id m = ScheduledMessage.id m' -> i = j /\ m = m'.
Proof.
  intros (Hnd & _) Hi Hj Hid.
  assert (i = j) as ->; [|split; congruence].
  eapply (NoDup_lookup _ i j (ScheduledMessage.id m)); [exact Hnd|..];
    unfold ids; rewrite list_lookup_fmap; [by rewrite Hi|by rewrite Hj, Hid].
Qed.

(** A message that is not "sent" has no delivered callback pending. *)
Lemma no_timer_unless_sent w i m :
  wellFormed w -> messages (data w) !! i = Some m ->
  ScheduledMessage.status m <> sent -> ScheduledMessage.id m ∉ timers w.
Proof.
  intros Hw Hi Hs Hin. pose proof Hw as (_ & _ & Ht & _).
  destruct (Ht _ Hin) as (m' & [j Hj]%list_elem_of_lookup & Hid & Hsent).
  destruct (wellFormed_unique w j i m' m Hw Hj Hi Hid) as [_ ->]. done.
Qed.

Lemma ids_insert (msgs : list ScheduledMessage.t) k x x' :
  msgs !! k = Some x -> ScheduledMessage.id x' = ScheduledMessage.id x ->
  ScheduledMessage.id <$> <[k := x']> msgs = ScheduledMessage.id <$> msgs.
Proof.
  intros Hk Hid. rewrite list_fmap_insert, Hid.
  apply list_insert_id. by rewrite list_lookup_fmap, Hk.
Qed.

(** Replacing a stored message by a record with its id, in a status its
    status can reach.  A "sent" message stays "sent" unless its callback
    is no longer pending. *)
Lemma wellFormed_update w w' k x x' :
  wellFormed w -> messages (data w) !! k = Some x ->
  ScheduledMessage.id x' = ScheduledMessage.id x ->
  status_le (ScheduledMessage.status x) (ScheduledMessage.status x') ->
  (ScheduledMessage.status x = sent ->
     ScheduledMessage.status x' = sent \/ ScheduledMessage.id x ∉ timers w) ->
  messages (data w') = <[k := x']> (messages (data w)) ->
  timers w' = timers w -> uuid w' = uuid w ->
  wellFormed w' /\ advances w w'.
Proof.
  intros Hw Hk Hid Hle Hsent Hm Ht Hu. pose proof Hw as (Hnd & Hndt & Htm & Hfr & Hinj).
  assert (Hids : ids w' = ids w) by (unfold ids; rewrite Hm; by eapply ids_insert).
  assert (Hlt : (k < length (messages (data w)))%nat) by (by eapply lookup_lt_Some).
  split.
  - unfold wellFormed. rewrite Hids, Ht, Hu. split_and!; try done.
    intros t Hin. destruct (Htm t Hin) as (m & [j Hj]%list_elem_of_lookup & Hidm & Hs).
    rewrite Hm. destruct (decide (j = k)) as [-> | Hne].
    + assert (m = x) as -> by congruence.
      destruct (Hsent Hs) as [Hs' | Hnot]; [|by subst t].
      exists x'. split_and!; [|congruence|done].
      apply list_elem_of_lookup. exists k. by apply list_lookup_insert_eq.
    + exists m. split_and!; [|done..].
      apply list_elem_of_lookup. exists j. by rewrite list_lookup_insert_ne.
  - intros j m Hj. rewrite Hm. destruct (decide (j = k)) as [-> | Hne].
    + assert (m = x) as -> by congruence. exists x'.
      split_and!; [by apply list_lookup_insert_eq|done..].
    + exists m. rewrite list_lookup_insert_ne by done.
      split_and!; [done..|apply status_le_refl].
Qed.

(** Registering the delivered callback of a "sent" message. *)
Lemma wellFormed_add_timer w w' k x :
  wellFormed w -> messages (data w) !! k = Some x -> ScheduledMessage.status x = sent ->
  ScheduledMessage.id x ∉ timers w ->
  messages (data w') = messages (data w) ->
  timers w' = timers w ++ [ScheduledMessage.id x] -> uuid w' = uuid w ->
  wellFormed w'.
Proof.
  intros (Hnd & Hndt & Htm & Hfr & Hinj) Hk Hs Hnot Hm Ht Hu.
  unfold wellFormed, ids. rewrite Hm, Ht, Hu. split_and!; try done.
  - apply NoDup_app. split_and!; [done| |apply NoDup_singleton].
    by intros t Hin ->%list_elem_of_singleton.
  - intros t [Hin | ->%list_elem_of_singleton]%elem_of_app; [by apply Htm|].
    exists x. split_and!; [by eapply list_elem_of_lookup_2|done..].
Qed.

(** Dropping a pending callback. *)
Lemma wellFormed_drop_timer w w' n :
  wellFormed w -> messages (data w') = messages (data w) ->
  timers w' = delete n (timers w) -> uuid w' = uuid w ->
  wellFormed w'.
Proof.
  intros (Hnd & Hndt & Htm & Hfr & Hinj) Hm Ht Hu.
  unfold wellFormed, ids. rewrite Hm, Ht, Hu.
  assert (Hsub : delete n (timers w) `sublist_of` timers w) by apply sublist_delete.
  split_and!; try done.
  - by eapply sublist_NoDup.
  - intros t Hin. apply Htm. by eapply elem_of_sublist.
Qed.

(** Storing a record under the next UUID. *)
Lemma wellFormed_append w w' m :
  wellFormed w -> ScheduledMessage.id m = uuid w 0%nat ->
  messages (data w') = messages (data w) ++ [m] ->
  timers w' = timers w -> uuid w' = streamTail (uuid w) ->
  wellFormed w' /\ advances w w'.
Proof.
  intros (Hnd & Hndt & Htm & Hfr & Hinj) Hid Hm Ht Hu. split.
  - unfold wellFormed, ids in *. rewrite Hm, Ht, Hu, fmap_app. cbn [fmap list_fmap].
    rewrite Hid. split_and!; try done.
    + apply NoDup_app. split_and!; [done| |apply NoDup_singleton].
      intros x Hin ->%list_elem_of_singleton. by apply (Hfr 0%nat).
    + intros t Hin. destruct (Htm t Hin) as (m' & Hin' & ? & ?).
      exists m'. split_and!; [|done..]. apply elem_of_app. by left.
    + intros n [Hin | Heq%list_elem_of_singleton]%elem_of_app.
      * by apply (Hfr (S n)).
      * unfold streamTail in Heq. by apply Hinj in Heq.
    + intros i j Heq. unfold streamTail in Heq. apply Hinj in Heq. lia.
  - intros i x Hi. exists x. rewrite Hm.
    split_and!; [by apply lookup_app_l_Some|done|apply status_le_refl].
Qed.

End StateMachine.

(** ** The operations respect the state machine *)

Section Monotonicity.

Implicit Types (w : World) (m msg x : ScheduledMessage.t) (s : MessageStatus).

Lemma stepAt_trans k w1 w2 w3 : stepAt k w1 w2 -> stepAt k w2 w3 -> stepAt k w1 w3.
Proof.
  intros (_ & Ha1 & Hf1) (Hw3 & Ha2 & Hf2).
  split_and!; [done|by eapply advances_trans|]. intros j m Hj Hm. by apply Hf2, Hf1.
Qed.

Lemma stepAt_same k w w' :
  wellFormed w -> messages (data w') = messages (data w) -> timers w' = timers w ->
  uuid w' = uuid w -> stepAt k w w'.
Proof.
  intros Hw Hm Ht Hu.
  split_and!; [by eapply wellFormed_same|by apply advances_same|]. by rewrite Hm.
Qed.

Lemma stepAt_update k w w' x x' :
  wellFormed w -> messages (data w) !! k = Some x ->
  ScheduledMessage.id x' = ScheduledMessage.id x ->
  status_le (ScheduledMessage.status x) (ScheduledMessage.status x') ->
  (ScheduledMessage.status x = sent ->
     ScheduledMessage.status x' = sent \/ ScheduledMessage.id x ∉ timers w) ->
  messages (data w') = <[k := x']> (messages (data w)) ->
  timers w' = timers w -> uuid w' = uuid w ->
  stepAt k w w'.
Proof.
  intros Hw Hk Hid Hle Hs Hm Ht Hu.
  destruct (wellFormed_update w w' k x x' Hw Hk Hid Hle Hs Hm Ht Hu) as [Hw' Ha].
  split_and!; [done..|]. intros j m Hj Hjm. by rewrite Hm, list_lookup_insert_ne.
Qed.

(** [updateMessage] on the id of a stored message, with a status that its
    status can reach. *)
Lemma updateMessage_stepAt k w x u s :
  wellFormed w -> messages (data w) !! k = Some x ->
  Partial.id u = None -> Partial.status u = Some s ->
  status_le (ScheduledMessage.status x) s ->
  (ScheduledMessage.status x = sent -> s = sent \/ ScheduledMessage.id x ∉ timers w) ->
  stepAt k w (updateMessage (ScheduledMessage.id x) u w).2
  /\ messages (data (updateMessage (ScheduledMessage.id x) u w).2) !! k
     = Some (Partial.spread x u).
Proof.
  intros Hw Hk Hu Hs Hle Hsent.
  rewrite (updateMessage_at _ _ _ _ _ (wellFormed_find w k x Hw Hk)). cbn [snd].
  assert (Hid : ScheduledMessage.id (Partial.spread x u) = ScheduledMessage.id x).
  { destruct x, u; cbn in *. by subst. }
  assert (Hst : ScheduledMessage.status (Partial.spread x u) = s).
  { destruct x, u; cbn in *. by subst. }
  split.
  - eapply (stepAt_update k w _ x (Partial.spread x u)); try done; by rewrite Hst.
  - cbn. apply list_lookup_insert_eq. by eapply lookup_lt_Some.
Qed.

Lemma sendBirthdaySms_stepAt k bundle sessionId contactId phoneE164 messageBody w :
  wellFormed w ->
  stepAt k w (sendBirthdaySms bundle sessionId contactId phoneE164 messageBody w).2.
Proof.
  intros Hw.
  destruct (sendBirthdaySms_sameStore bundle sessionId contactId phoneE164 messageBody w)
    as (Hm & _ & Ht & Hu & _).
  by apply stepAt_same.
Qed.

Lemma markSent_stepAt k w x result :
  wellFormed w -> messages (data w) !! k = Some x -> ScheduledMessage.status x = sending ->
  stepAt k w (markSent (ScheduledMessage.id x) result w).2.
Proof.
  intros Hw Hk Hs. unfold markSent, setTimeoutDelivered. rewrite !bind_run.
  set (w1 := (now w).2).
  assert (Hw1 : stepAt k w w1) by by apply stepAt_same.
  set (u := Partial.mk _ _ _ _ _ _ _ _ _ _ _ _ _).
  destruct (updateMessage_stepAt k w1 x u sent (proj1 Hw1) Hk eq_refl eq_refl)
    as [Hstep Hk2]; [rewrite Hs; cbn; auto|by rewrite Hs|].
  set (w2 := (updateMessage (ScheduledMessage.id x) u w1).2) in *.
  eapply stepAt_trans; [exact Hw1|]. eapply stepAt_trans; [exact Hstep|].
  cbn [fst snd].
  assert (Hnot : ScheduledMessage.id x ∉ timers w2).
  { destruct Hstep as (_ & _ & _).
    assert (timers w2 = timers w) as ->.
    { unfold w2. rewrite (updateMessage_at _ _ _ _ _ (wellFormed_find w1 k x (proj1 Hw1) Hk)).
      done. }
    eapply no_timer_unless_sent; [exact Hw|exact Hk|by rewrite Hs]. }
  split_and!; [|by apply advances_same|done].
  eapply (wellFormed_add_timer w2 _ k (Partial.spread x u));
    first [done | by destruct Hstep | by destruct x].
Qed.

Lemma markFailed_stepAt k w x result :
  wellFormed w -> messages (data w) !! k = Some x -> ScheduledMessage.status x = sending ->
  stepAt k w (markFailed (ScheduledMessage.id x) result w).2.
Proof.
  intros Hw Hk Hs. unfold markFailed.
  set (u := Partial.mk _ _ _ _ _ _ _ _ _ _ _ _ _).
  destruct (updateMessage_stepAt k w x u failed Hw Hk eq_refl eq_refl) as [H _];
    [rewrite Hs; cbn; auto|by rewrite Hs|exact H].
Qed.

Lemma scheduleMessagesForContact_stepAt k contactId w :
  wellFormed w -> stepAt k w (scheduleMessagesForContact contactId w).2.
Proof.
  intros Hw.
  destruct (findContact contactId w) as [contact|] eqn:Hc.
  - destruct (findScheduled contactId
                (JSDate.getFullYear (LocalTZA w) (nextBirthdayIn w contact))
                (messages (data w))) as [m|] eqn:He.
    + rewrite (scheduleMessagesForContact_existing _ _ _ _ Hc He). by apply stepAt_same.
    + rewrite (scheduleMessagesForContact_created _ _ _ Hc He). cbn [snd].
      destruct (wellFormed_append w (afterScheduling w (nextOccurrence w contact))
                  (nextOccurrence w contact) Hw) as [Hw' Ha]; try done.
      split_and!; [done..|]. intros j m _ Hj. cbn. by apply lookup_app_l_Some.
  - rewrite (scheduleMessagesForContact_unknown _ _ Hc). by apply stepAt_same.
Qed.

Lemma rearmed_stepAt k w contactId : wellFormed w -> stepAt k w (rearmed w contactId).
Proof.
  intros Hw. unfold rearmed. destruct (findContact contactId w).
  - by apply scheduleMessagesForContact_stepAt.
  - by apply stepAt_same.
Qed.

Lemma respects_stepAt {A} (m : M A) :
  (forall w, wellFormed w -> exists k, stepAt k w (m w).2) -> respects m.
Proof. intros H w Hw. destruct (H w Hw) as (k & ? & ? & _). done. Qed.

Lemma dueAt_scheduled now_ msg : dueAt now_ msg = true -> ScheduledMessage.status msg = scheduled.
Proof. unfold dueAt. intros [H _]%andb_true_iff. by apply bool_decide_eq_true in H. Qed.

(** The loop body on a message that is stored as the loop read it. *)
Lemma processDueMessage_stepAt k bundle now_ x w :
  wellFormed w -> messages (data w) !! k = Some x ->
  stepAt k w (processDueMessage bundle now_ x w).2.
Proof.
  intros Hw Hk. rewrite processDueMessage_run. cbn [snd].
  destruct (dueAt now_ x) eqn:Hdue; [|by apply stepAt_same].
  apply dueAt_scheduled in Hdue.
  destruct (updateMessage_stepAt k w x (Partial.only_status sending) sending Hw Hk
              eq_refl eq_refl) as [H1 Hk1]; [by rewrite Hdue|by rewrite Hdue|].
  fold (claimed w x) in H1, Hk1.
  pose proof (sendBirthdaySms_stepAt k bundle "scheduler" (ScheduledMessage.contactId x)
                (ScheduledMessage.phone x) (ScheduledMessage.messageBody x)
                (claimed w x) (proj1 H1)) as H2.
  fold (sendOutcome bundle w x) in H2.
  assert (Hk2 : messages (data (sendOutcome bundle w x).2) !! k
                = Some (with_status sending x)).
  { destruct (sendOutcome_sameStore bundle w x) as (-> & _). exact Hk1. }
  destruct (success (sendOutcome bundle w x).1).
  - pose proof (markSent_stepAt k _ _ (sendOutcome bundle w x).1 (proj1 H2) Hk2 eq_refl)
      as H3.
    fold (sentWorld bundle w x) in H3.
    pose proof (rearmed_stepAt k _ (ScheduledMessage.contactId x) (proj1 H3)) as H4.
    eauto using stepAt_trans.
  - pose proof (markFailed_stepAt k _ _ (sendOutcome bundle w x).1 (proj1 H2) Hk2 eq_refl)
      as H3.
    fold (failedWorld bundle w x) in H3.
    eauto using stepAt_trans.
Qed.

Lemma respects_processDueMessages : respects processDueMessages.
Proof.
  intros w Hw. rewrite processDueMessages_run.
  set (w0 := set_clock (streamTail (clock w)) w).
  assert (Hw0 : wellFormed w0) by by eapply wellFormed_same.
  pose proof (forEach_invariant
    (processDueMessage (snd <$> head (activeClients w)) (clock w 0%nat))
    (fun k w' => wellFormed w' /\ advances w w'
       /\ forall j m, (k <= j)%nat -> messages (data w) !! j = Some m ->
                      messages (data w') !! j = Some m)
    (messages (data w)) w0) as H.
  destruct H as (Hwf & Hadv & _); [| |done].
  - split_and!; [done|by apply advances_same|done].
  - intros k x w' Hk (Hw' & Ha & Hrest).
    destruct (processDueMessage_stepAt k (snd <$> head (activeClients w)) (clock w 0%nat)
                x w' Hw' (Hrest k x ltac:(lia) Hk)) as (Hw'' & Ha' & Hf).
    split_and!; [done|by eapply advances_trans|].
    intros j m Hj Hjm. apply Hf; [lia|]. apply Hrest; [lia|done].
Qed.

Lemma respects_scheduleMessagesForContact contactId :
  respects (scheduleMessagesForContact contactId).
Proof.
  apply respects_stepAt. intros w Hw. exists 0%nat.
  by apply scheduleMessagesForContact_stepAt.
Qed.

Lemma respects_scheduleEach cs acc : respects (scheduleEach cs acc).
Proof.
  revert acc. induction cs as [|c cs IH]; intros acc; [apply respects_ret|].
  cbn [scheduleEach].
  apply respects_bind; [apply respects_scheduleMessagesForContact|intros r; apply IH].
Qed.

Lemma respects_scheduleAllContacts : respects scheduleAllContacts.
Proof.
  unfold scheduleAllContacts.
  apply respects_bind; [by apply respects_same|intros cs; apply respects_scheduleEach].
Qed.

Lemma respects_postCancel id : respects (postCancel id).
Proof.
  intros w Hw. unfold postCancel. rewrite bind_run, getMessages_run. cbn [fst snd].
  destruct (list_find _ _) as [[k msg]|] eqn:Hf; cbn [fmap option_fmap option_map snd];
    [|by apply respects_ret].
  case_decide as Hs; [by apply respects_ret|].
  apply list_find_Some in Hf as (Hk & Hid & _).
  rewrite bind_run. cbn [snd mret M_ret].
  destruct (updateMessage_stepAt k w msg (Partial.only_status cancelled) cancelled Hw Hk
              eq_refl eq_refl) as [(? & ? & _) _]; [by rewrite Hs|by rewrite Hs|done].
Qed.

Lemma respects_removeContact id : respects (removeContact id).
Proof.
  intros w Hw. unfold removeContact. rewrite bind_run. cbn [loadData fst snd].
  destruct (list_find _ _) as [[idx c]|]; [|by apply respects_ret].
  rewrite bind_run. cbn [snd saveData mret M_ret fst].
  set (f := fun m => if decide (ScheduledMessage.contactId m = id
                                /\ ScheduledMessage.status m = scheduled)
                     then Partial.spread m (Partial.only_status cancelled) else m).
  assert (Hf : forall m, ScheduledMessage.id (f m) = ScheduledMessage.id m
               /\ status_le (ScheduledMessage.status m) (ScheduledMessage.status (f m))
               /\ (ScheduledMessage.status m = sent -> f m = m)).
  { intros m. unfold f. case_decide as Hd.
    - destruct Hd as [_ Hs]. rewrite Hs. split_and!; [by destruct m|done|done].
    - split_and!; [done|apply status_le_refl|done]. }
  destruct Hw as (Hnd & Hndt & Htm & Hfr & Hinj).
  assert (Hids : ScheduledMessage.id <$> (f <$> messages (data w)) = ids w).
  { unfold ids. rewrite <- list_fmap_compose. apply list_fmap_ext.
    intros i m _. apply Hf. }
  split.
  - unfold wellFormed, ids. cbn. rewrite Hids. split_and!; try done.
    intros t Hin. destruct (Htm t Hin) as (m & Hm & Hidm & Hs).
    exists m. split_and!; [|done..].
    apply list_elem_of_fmap. exists m. split; [|done]. symmetry. by apply Hf.
  - intros i m Hi. exists (f m). cbn. rewrite list_lookup_fmap, Hi.
    split_and!; [done|apply Hf..].
Qed.

Lemma not_elem_of_delete (l : list string) n (t : string) :
  NoDup l -> l !! n = Some t -> t ∉ delete n l.
Proof.
  intros Hnd Hn. rewrite <- (take_drop_middle l n t Hn) in Hnd.
  apply NoDup_app in Hnd as (_ & Hdisj & Hnd2). apply NoDup_cons in Hnd2 as [Hnot _].
  rewrite delete_take_drop. intros [Hin | Hin]%elem_of_app; [|done].
  apply (Hdisj t Hin). apply list_elem_of_here.
Qed.

Lemma respects_fireTimer n : respects (fireTimer n).
Proof.
  intros w Hw. unfold fireTimer. rewrite bind_run. cbn [fst snd].
  destruct (timers w !! n) as [id|] eqn:Hn; [|by apply respects_ret].
  rewrite bind_run. cbn [fst snd]. unfold deliveredCallback. rewrite bind_run.
  set (w1 := (now (set_timers (delete n (timers w)) w)).2).
  assert (Hw1 : wellFormed w1) by by eapply (wellFormed_drop_timer w w1 n).
  pose proof Hw as (Hnd & Hndt & Htm & _).
  destruct (Htm id (list_elem_of_lookup_2 _ _ _ Hn))
    as (m & [k Hk]%list_elem_of_lookup & Hid & Hs).
  subst id. cbn [fst].
  set (u := Partial.mk _ _ _ _ _ _ _ _ _ _ _ _ _).
  destruct (updateMessage_stepAt k w1 m u delivered Hw1 Hk eq_refl eq_refl)
    as [(Hw2 & Ha & _) _].
  - rewrite Hs. cbn. auto.
  - intros _. right. by apply not_elem_of_delete.
  - split; [done|]. eapply advances_trans; [|exact Ha]. by apply advances_same.
Qed.

End Monotonicity.

Section MonotonicityOfOperations.

Implicit Types (w : World) (m msg x : ScheduledMessage.t) (s : MessageStatus).

Lemma respects_postSendNow sessionID contactId messageBody :
  respects (postSendNow sessionID contactId messageBody).
Proof.
  intros w Hw. unfold postSendNow.
  destruct (negb (truthy contactId)); [by apply respects_ret|].
  rewrite bind_run, getContacts_run. cbn [fst snd].
  destruct (snd <$> list_find _ _) as [contact|]; [|by apply respects_ret].
  rewrite bind_run.
  set (bodyM := if truthy_opt messageBody then _ else _).
  assert (Hb : messages (data (bodyM w).2) = messages (data w)
               /\ timers (bodyM w).2 = timers w /\ uuid (bodyM w).2 = uuid w).
  { unfold bodyM. by destruct (truthy_opt messageBody). }
  destruct (bodyM w) as [body wb]. cbn [fst snd] in Hb |- *. destruct Hb as (Hbm & Hbt & Hbu).
  unfold uuidv4, now, hostTZA. rewrite !bind_run. cbn [fst snd]. rewrite addMessage_run.
  cbn [fst snd].
  match goal with
  | |- context [set_messages (_ ++ [?r]) ?wa] => set (record := r); set (w1 := set_messages (messages (data wa) ++ [record]) wa)
  end.
  assert (H1 : wellFormed w1 /\ advances w w1).
  { apply (wellFormed_append w w1 record Hw); cbn; congruence. }
  destruct H1 as [Hw1 Ha1].
  set (k := length (messages (data w))).
  assert (Hk : messages (data w1) !! k = Some record).
  { cbn. rewrite Hbm. unfold k. by rewrite lookup_app_r, Nat.sub_diag by lia. }
  assert (Hgs : getSessionClient sessionID w1 = (map_get sessionID (activeClients w1), w1))
    by reflexivity.
  rewrite Hgs. clear Hgs. cbn [fst snd].
  pose proof (sendBirthdaySms_stepAt k (map_get sessionID (activeClients w1)) sessionID
                (Contact.id contact) (Contact.phone contact) body w1 Hw1) as H2.
  set (out := sendBirthdaySms _ _ _ _ _ w1) in *.
  assert (Hk2 : messages (data out.2) !! k = Some record).
  { destruct (sendBirthdaySms_sameStore (map_get sessionID (activeClients w1)) sessionID
                (Contact.id contact) (Contact.phone contact) body w1) as (Hm & _).
    fold out in Hm. by rewrite Hm. }
  destruct (success out.1); rewrite bind_run; cbn [snd mret M_ret].
  - destruct (markSent_stepAt k out.2 record out.1 (proj1 H2) Hk2 eq_refl)
      as (Hw3 & Ha3 & _).
    split; [exact Hw3|]. destruct H2 as (_ & Ha2 & _). eauto using advances_trans.
  - destruct (markFailed_stepAt k out.2 record out.1 (proj1 H2) Hk2 eq_refl)
      as (Hw3 & Ha3 & _).
    split; [exact Hw3|]. destruct H2 as (_ & Ha2 & _). eauto using advances_trans.
Qed.

Lemma respects_runOp op : respects (runOp op).
Proof.
  destruct op; cbn [runOp].
  - apply respects_bind; [apply respects_scheduleMessagesForContact|intros; apply respects_ret].
  - apply respects_bind; [|intros; apply respects_ret].
    apply respects_bind; [apply respects_scheduleAllContacts|intros; apply respects_ret].
  - apply respects_processDueMessages.
  - apply respects_bind; [apply respects_postCancel|intros; apply respects_ret].
  - apply respects_bind; [|intros; apply respects_ret].
    apply respects_bind; [apply respects_removeContact|].
    intros []; apply respects_ret.
  - apply respects_fireTimer.
  - apply respects_bind; [apply respects_postSendNow|intros; apply respects_ret].
Qed.

Lemma runOps_app ops1 ops2 w : runOps (ops1 ++ ops2) w = runOps ops2 (runOps ops1 w).
Proof. apply foldl_app. Qed.

Lemma respects_runOps ops w :
  wellFormed w -> wellFormed (runOps ops w) /\ advances w (runOps ops w).
Proof.
  revert w. induction ops as [|op ops IH]; intros w Hw.
  - split; [done|apply advances_refl].
  - cbn [runOps foldl]. destruct (respects_runOp op w Hw) as [Hw1 Ha1].
    destruct (IH _ Hw1) as [Hw2 Ha2]. split; [done|by eapply advances_trans].
Qed.

(** Run one at a time, the operations keep a terminal status: from a
    well-formed world, along every sequence of the system's operations
    (scheduling, dispatch cycles, cancellation, contact deletion,
    delivered callbacks, send-now), each run to completion, a message that
    has reached "sent", "delivered", "failed" or "cancelled" after some
    operations is, after any further operations, still stored at its
    place under its id, in the same status or, if it was "sent", in
    "delivered". *)
Lemma terminal_status_is_kept (ops1 ops2 : list Op) (w : World) i m :
  wellFormed w ->
  messages (data (runOps ops1 w)) !! i = Some m ->
  terminal (ScheduledMessage.status m) ->
  exists m',
    messages (data (runOps (ops1 ++ ops2) w)) !! i = Some m'
    /\ ScheduledMessage.id m' = ScheduledMessage.id m
    /\ (ScheduledMessage.status m' = ScheduledMessage.status m
        \/ (ScheduledMessage.status m = sent /\ ScheduledMessage.status m' = delivered)).
Proof.
  intros Hw Hi Ht. rewrite runOps_app.
  destruct (respects_runOps ops1 w Hw) as [Hw1 _].
  destruct (respects_runOps ops2 _ Hw1) as [_ Ha].
  destruct (Ha i m Hi) as (m' & Hi' & Hid & Hle).
  exists m'. split_and!; [done..|]. by apply status_le_terminal.
Qed.

End MonotonicityOfOperations.

(** ** The recurrence year of a record *)

Section RecurrenceYear.

Import JSDate.

Implicit Types (w : World) (m msg : ScheduledMessage.t).

Lemma sendNowBody_same w messageBody contact :
  sameStore w (set_random (random w) (sendNowBody messageBody contact w).2)
  /\ clock (sendNowBody messageBody contact w).2 = clock w
  /\ uuid (sendNowBody messageBody contact w).2 = uuid w
  /\ LocalTZA (sendNowBody messageBody contact w).2 = LocalTZA w.
Proof. unfold sendNowBody. destruct (truthy_opt messageBody); by repeat split. Qed.

(** The send-now route once its request is accepted. *)
Lemma postSendNow_run sessionID contactId messageBody w contact :
  truthy contactId = true -> findContact contactId w = Some contact ->
  postSendNow sessionID contactId messageBody w
  = let out := sendNowOutcome sessionID w messageBody contact in
    if success out.1 then (200, (markSent (uuid w 0%nat) out.1 out.2).2)
    else (500, (markFailed (uuid w 0%nat) out.1 out.2).2).
Proof.
  intros Ht Hc. cbv zeta.
  set (out := sendNowOutcome sessionID w messageBody contact).
  assert (Hrun : postSendNow sessionID contactId messageBody w
                 = (if success out.1
                    then markSent (uuid w 0%nat) out.1 ≫= (fun _ => mret 200)
                    else markFailed (uuid w 0%nat) out.1 ≫= (fun _ => mret 500)) out.2).
  { unfold out, sendNowOutcome, sendNowStored, sendNowBody.
    unfold postSendNow, findContact in *. rewrite Ht. cbn [negb].
    rewrite bind_run, getContacts_run. cbn [fst snd]. rewrite Hc.
    destruct (truthy_opt messageBody); rewrite !bind_run; reflexivity. }
  rewrite Hrun. by destruct (success out.1); rewrite bind_run.
Qed.

(** An update that does not name the fire instant or the year keeps both
    in every stored record. *)
Lemma updateMessage_keeps_year x u w k m :
  Partial.scheduledFor u = None -> Partial.year u = None ->
  messages (data w) !! k = Some m ->
  exists m', messages (data (updateMessage x u w).2) !! k = Some m'
    /\ ScheduledMessage.scheduledFor m' = ScheduledMessage.scheduledFor m
    /\ ScheduledMessage.year m' = ScheduledMessage.year m.
Proof.
  intros Hs Hy Hk.
  destruct (list_find (fun m' => ScheduledMessage.id m' = x) (messages (data w)))
    as [[j y]|] eqn:Hf.
  - rewrite (updateMessage_at _ _ _ _ _ Hf). cbn.
    apply list_find_Some in Hf as (Hj & _).
    destruct (decide (k = j)) as [-> | Hne].
    + exists (Partial.spread y u).
      rewrite list_lookup_insert_eq by (by eapply lookup_lt_Some).
      assert (m = y) as -> by congruence. destruct y, u; cbn in *; by subst.
    + exists m. by rewrite list_lookup_insert_ne.
  - rewrite (updateMessage_none _ _ _ Hf). by exists m.
Qed.

(** C5 (amended): a record created by [scheduleMessagesForContact] holds
    in [scheduledFor] the UTC text of its fire instant and in [year] the
    local-time calendar year of that instant; a record created by send-now
    holds the UTC text of one clock reading and the local-time year of a
    later one.  The year component of the stored text is the UTC year of
    its instant (for years 0..9999): it is [year] when the host's zone
    offset is zero and, for send-now, both readings are in one year. *)
Theorem recurrence_year_is_local_year :
  (forall contactId w contact,
     findContact contactId w = Some contact ->
     findScheduled contactId (getFullYear (LocalTZA w) (nextBirthdayIn w contact))
       (messages (data w)) = None ->
     exists m,
       (scheduleMessagesForContact contactId w).1 = Some m
       /\ messages (data (scheduleMessagesForContact contactId w).2)
          = messages (data w) ++ [m]
       /\ ScheduledMessage.scheduledFor m = toISOString (nextBirthdayIn w contact)
       /\ ScheduledMessage.year m = getFullYear (LocalTZA w) (nextBirthdayIn w contact)
       /\ (0 <= YearFromTime (nextBirthdayIn w contact) <= 9999 ->
           yearComponent (ScheduledMessage.scheduledFor m)
           = Some (YearFromTime (nextBirthdayIn w contact)))
       /\ (LocalTZA w = 0 -> 0 <= ScheduledMessage.year m <= 9999 ->
           yearComponent (ScheduledMessage.scheduledFor m)
           = Some (ScheduledMessage.year m)))
  /\ (forall sessionID contactId messageBody w contact,
        truthy contactId = true -> findContact contactId w = Some contact ->
        exists m,
          messages (data (postSendNow sessionID contactId messageBody w).2)
            !! length (messages (data w)) = Some m
          /\ ScheduledMessage.scheduledFor m = toISOString (clock w 0%nat)
          /\ ScheduledMessage.year m = getFullYear (LocalTZA w) (clock w 2%nat)
          /\ (0 <= YearFromTime (clock w 0%nat) <= 9999 ->
              yearComponent (ScheduledMessage.scheduledFor m)
              = Some (YearFromTime (clock w 0%nat)))
          /\ (LocalTZA w = 0 -> YearFromTime (clock w 0%nat) = YearFromTime (clock w 2%nat) ->
              0 <= ScheduledMessage.year m <= 9999 ->
              yearComponent (ScheduledMessage.scheduledFor m)
              = Some (ScheduledMessage.year m))).
Proof.
  split.
  - intros contactId w contact Hc He.
    rewrite (scheduleMessagesForContact_created _ _ _ Hc He).
    exists (nextOccurrence w contact). cbn [fst snd nextOccurrence afterScheduling data
      messages ScheduledMessage.scheduledFor ScheduledMessage.year].
    split_and!; try done.
    + apply yearComponent_toISOString.
    + intros Hz Hy. unfold getFullYear, LocalTime in *. rewrite Hz, Z.add_0_r in *.
      by apply yearComponent_toISOString.
  - intros sessionID contactId messageBody w contact Ht Hc.
    rewrite (postSendNow_run _ _ _ _ _ Ht Hc). cbv zeta.
    set (out := sendNowOutcome sessionID w messageBody contact).
    set (k := length (messages (data w))).
    set (record := sendNowRecord w contact (sendNowBody messageBody contact w).1).
    assert (Hk : messages (data out.2) !! k = Some record).
    { destruct (sendBirthdaySms_sameStore (map_get sessionID (activeClients w)) sessionID
                  (Contact.id contact) (Contact.phone contact)
                  (sendNowBody messageBody contact w).1
                  (sendNowStored w messageBody contact)) as (Hm & _).
      fold (sendNowOutcome sessionID w messageBody contact) in Hm. fold out in Hm.
      rewrite Hm. cbn. unfold k. by rewrite lookup_app_r, Nat.sub_diag by lia. }
    assert (Hfin : exists m,
              messages (data (if success out.1
                              then (200, (markSent (uuid w 0%nat) out.1 out.2).2)
                              else (500, (markFailed (uuid w 0%nat) out.1 out.2).2)).2)
                !! k = Some m
              /\ ScheduledMessage.scheduledFor m = ScheduledMessage.scheduledFor record
              /\ ScheduledMessage.year m = ScheduledMessage.year record).
    { destruct (success out.1); cbn [snd].
      - unfold markSent, setTimeoutDelivered. rewrite !bind_run. cbn [fst snd].
        set (u := Partial.mk _ _ _ _ _ _ _ _ _ _ _ _ _).
        destruct (updateMessage_keeps_year (uuid w 0%nat) u (now out.2).2 k record
                    eq_refl eq_refl Hk) as (m & Hm & ? & ?).
        by exists m.
      - unfold markFailed.
        set (u := Partial.mk _ _ _ _ _ _ _ _ _ _ _ _ _).
        destruct (updateMessage_keeps_year (uuid w 0%nat) u out.2 k record
                    eq_refl eq_refl Hk) as (m & Hm & ? & ?).
        by exists m. }
    destruct Hfin as (m & Hm & Hs & Hy). exists m. rewrite Hs, Hy. cbn.
    split_and!; try done.
    + apply yearComponent_toISOString.
    + intros Hz Hsame Hrange. unfold getFullYear, LocalTime in *.
      rewrite Hz, Z.add_0_r, <- Hsame in *. by apply yearComponent_toISOString.
Qed.

End RecurrenceYear.

(** ** The degraded mode *)

Section Degraded.

Implicit Types (w : World) (m msg : ScheduledMessage.t).

(** Re-arming keeps every stored record at its place. *)
Lemma rearmed_lookup w contactId i m :
  messages (data w) !! i = Some m -> messages (data (rearmed w contactId)) !! i = Some m.
Proof.
  intros Hi.
  destruct (rearmed_cases w contactId)
    as [[_ ->] | [(c & x & _ & _ & ->) | (c & _ & _ & ->)]]; [done..|].
  cbn. by apply lookup_app_l_Some.
Qed.

(** The loop body without a bundle, on a due message that is the first
    stored under its id. *)
Lemma processDueMessage_simulated now_ w i msg :
  list_find (fun m' => ScheduledMessage.id m' = ScheduledMessage.id msg)
    (messages (data w)) = Some (i, msg) ->
  dueAt now_ msg = true ->
  exists m',
    messages (data (processDueMessage None now_ msg w).2) !! i = Some m'
    /\ ScheduledMessage.id m' = ScheduledMessage.id msg
    /\ ScheduledMessage.status m' = sent
    /\ ScheduledMessage.notificationSid m'
       = Some ("SIM_" +:+ JSDate.decimal (clock w 0%nat)).
Proof.
  intros Hf Hdue.
  rewrite processDueMessage_run, Hdue. cbn [snd].
  assert (Hout : sendOutcome None w msg
                 = (mkSmsResult true (Some ("SIM_" +:+ JSDate.decimal (clock w 0%nat))) None,
                    set_clock (streamTail (clock (claimed w msg)))
                      (set_sendLog (sendLog (claimed w msg)
                                    ++ [(ScheduledMessage.phone msg,
                                         ScheduledMessage.messageBody msg)])
                         (claimed w msg)))).
  { unfold sendOutcome. rewrite sendBirthdaySms_simulated.
    by rewrite (messages_claimed _ _ _ Hf). }
  destruct (sentWorld_fields None w i msg Hf) as (Hm & _).
  cbv zeta in Hm. rewrite Hout in *. cbn [fst snd success] in *.
  eexists. split_and!; [apply rearmed_lookup; rewrite Hm; apply list_lookup_insert_eq|..].
  - apply list_find_Some in Hf as (Hi & _). by eapply lookup_lt_Some.
  - done.
  - done.
  - done.
Qed.

(** C9: without a client bundle [sendBirthdaySms] answers success with
    the identifier "SIM_" followed by the clock reading, which is not
    empty, and no error; and the loop body, run without a bundle on a due
    message that is the first stored under its id, leaves that message
    with status "sent" and that identifier. *)
Theorem simulated_send_succeeds sessionId contactId phoneE164 messageBody w :
  success (sendBirthdaySms None sessionId contactId phoneE164 messageBody w).1 = true
  /\ error (sendBirthdaySms None sessionId contactId phoneE164 messageBody w).1 = None
  /\ sms_notificationSid (sendBirthdaySms None sessionId contactId phoneE164 messageBody w).1
     = Some ("SIM_" +:+ JSDate.decimal (clock w 0%nat))
  /\ "SIM_" +:+ JSDate.decimal (clock w 0%nat) <> EmptyString
  /\ forall now_ i msg,
       list_find (fun m' => ScheduledMessage.id m' = ScheduledMessage.id msg)
         (messages (data w)) = Some (i, msg) ->
       dueAt now_ msg = true ->
       exists m',
         messages (data (processDueMessage None now_ msg w).2) !! i = Some m'
         /\ ScheduledMessage.id m' = ScheduledMessage.id msg
         /\ ScheduledMessage.status m' = sent
         /\ ScheduledMessage.notificationSid m'
            = Some ("SIM_" +:+ JSDate.decimal (clock w 0%nat)).
Proof.
  rewrite sendBirthdaySms_simulated. cbn [fst success error sms_notificationSid].
  split_and!; try done. intros now_ i msg. apply processDueMessage_simulated.
Qed.

(** In a whole cycle without an active session every message due at the
    start ends as "sent". *)
Lemma degraded_cycle_sends_all w i msg :
  wellFormed w -> activeClients w = [] ->
  messages (data w) !! i = Some msg -> dueAt (clock w 0%nat) msg = true ->
  exists m',
    messages (data (processDueMessages w).2) !! i = Some m'
    /\ ScheduledMessage.id m' = ScheduledMessage.id msg
    /\ ScheduledMessage.status m' = sent
    /\ exists sid, ScheduledMessage.notificationSid m' = Some ("SIM_" +:+ sid).
Proof.
  intros Hw Hac Hi Hdue. rewrite processDueMessages_run, Hac. cbn [head fmap option_fmap option_map].
  set (w0 := set_clock (streamTail (clock w)) w).
  assert (Hw0 : wellFormed w0) by by eapply wellFormed_same.
  pose proof (forEach_invariant (processDueMessage None (clock w 0%nat))
    (fun k w' => wellFormed w'
       /\ (forall j m, (k <= j)%nat -> messages (data w) !! j = Some m ->
                       messages (data w') !! j = Some m)
       /\ ((i < k)%nat -> exists m',
             messages (data w') !! i = Some m'
             /\ ScheduledMessage.id m' = ScheduledMessage.id msg
             /\ ScheduledMessage.status m' = sent
             /\ exists sid, ScheduledMessage.notificationSid m' = Some ("SIM_" +:+ sid)))
    (messages (data w)) w0) as H.
  destruct H as (_ & _ & Hdone).
  - split_and!; [done|done|lia].
  - intros k x w' Hk (Hw' & Hrest & Hsent).
    pose proof (Hrest k x ltac:(lia) Hk) as Hk'.
    destruct (processDueMessage_stepAt k None (clock w 0%nat) x w' Hw' Hk')
      as (Hw'' & _ & Hf).
    split_and!; [done| |].
    + intros j m Hj Hjm. apply Hf; [lia|]. apply Hrest; [lia|done].
    + intros Hlt. destruct (decide (i = k)) as [-> | Hne].
      * assert (x = msg) as -> by congruence.
        destruct (processDueMessage_simulated (clock w 0%nat) w' k msg
                    (wellFormed_find w' k msg Hw' Hk') Hdue) as (m' & ? & ? & ? & ?).
        exists m'. split_and!; [done..|]. by eexists.
      * destruct (Hsent ltac:(lia)) as (m' & Hm' & ? & ? & ?).
        exists m'. split_and!; [|done..]. by apply Hf.
  - apply Hdone. by eapply lookup_lt_Some.
Qed.

End Degraded.

(** ** The properties on sample data *)

Section Samples.

Import JSDate.

(** The two scenarios of the specification for a 15 March birthday. *)
Example next_fire_after_cutoff :
  toISOString (getNextBirthdayDate 0 (3, 15) t_2024_03_15_10h) = "2025-03-15T09:00:00.000Z".
Proof. vm_compute. reflexivity. Qed.

Example next_fire_before_cutoff :
  toISOString (getNextBirthdayDate 0 (3, 15) t_2024_03_15_08h) = "2024-03-15T09:00:00.000Z".
Proof. vm_compute. reflexivity. Qed.

(** In New York a birthday on 4 November, seen from 09:00 of that day in
    2023, is next due 366 days and one hour later: the clocks have gone
    back in between. *)
Example next_fire_across_daylight_saving :
  getNextBirthdayDateIn newYork (11, 4) t_2023_11_04_13h
  = Some (t_2023_11_04_13h + 366 * msPerDay + msPerHour)
  /\ toISOString (t_2023_11_04_13h + 366 * msPerDay + msPerHour) = "2024-11-04T14:00:00.000Z".
Proof. vm_compute. split; reflexivity. Qed.

Lemma getNextBirthdayDateIn_spec_witness :
  exists r y,
    getNextBirthdayDateIn newYork (11, 4) t_2023_11_04_13h = Some r
    /\ t_2023_11_04_13h < r
    /\ r - t_2023_11_04_13h <= 366 * msPerDay + msPerHour
    /\ r = UTCIn newYork (localNine y 10 4)
    /\ HourFromTime (localNine y 10 4) = 9.
Proof.
  destruct (getNextBirthdayDateIn_spec newYork (- 5 * msPerHour) (- 4 * msPerHour) 11 4
              t_2023_11_04_13h) as (r & y & H1 & H2 & H3 & _ & _ & _ & H4 & _ & H5 & _).
  - lia.
  - lia.
  - intros t isUTC. unfold newYork. destruct (_ <? _); unfold msPerHour; lia.
  - unfold msPerDay, msPerHour. lia.
  - unfold msPerDay, msPerHour. lia.
  - unfold msPerHour. lia.
  - vm_compute. split; discriminate.
  - exists r, y. split; [exact H1|]. split; [exact H2|]. split; [|split; [exact H4|exact H5]].
    unfold msPerDay, msPerHour in H3 |- *. lia.
Defined.

(** C2, as stated, fails: a 29 February birthday seen from 1 January 2023
    is placed on 1 March 2023, which is not the given month and day. *)
Lemma getNextBirthdayDate_not_on_given_day :
  1 <= 2 <= 12 /\ 1 <= 29 <= 31
  /\ toISOString (getNextBirthdayDate 0 (2, 29) t_2023_01_01) = "2023-03-01T09:00:00.000Z"
  /\ ~ (getMonth 0 (getNextBirthdayDate 0 (2, 29) t_2023_01_01) + 1 = 2
        /\ getDate 0 (getNextBirthdayDate 0 (2, 29) t_2023_01_01) = 29)
  /\ getNextBirthdayDateIn (fun _ _ => 0) (2, 29) t_2023_01_01
     = Some (getNextBirthdayDate 0 (2, 29) t_2023_01_01).
Proof.
  split_and!; [lia..|by vm_compute| |by vm_compute]. vm_compute. intros [? _]. discriminate.
Qed.


Lemma at_most_one_scheduled_invariant_witness :
  Forall (fun w' => atMostOneScheduled (messages (data w')))
    (history [DispatchCycle; EnsureScheduled "c-1"; ScheduleAll; DispatchCycle] worldDue).
Proof.
  apply at_most_one_scheduled_invariant.
  apply atMostOneScheduled_NoDup. vm_compute. apply NoDup_singleton.
Defined.

Lemma scheduleMessagesForContact_idempotent_witness :
  exists m,
    (scheduleMessagesForContact "c-1" worldNew).1 = Some m
    /\ (scheduleMessagesForContact "c-1" (scheduleMessagesForContact "c-1" worldNew).2).1
       = Some m
    /\ data (scheduleMessagesForContact "c-1" (scheduleMessagesForContact "c-1" worldNew).2).2
       = data (scheduleMessagesForContact "c-1" worldNew).2
    /\ m ∈ messages (data (scheduleMessagesForContact "c-1" worldNew).2)
    /\ ScheduledMessage.status m = scheduled.
Proof.
  apply (scheduleMessagesForContact_idempotent "c-1" worldNew alice).
  - reflexivity.
  - unfold validBirthday. simpl. lia.
  - vm_compute. split; [discriminate|reflexivity].
Defined.

Lemma removeContact_cascade_witness :
  (removeContact "c-1" worldDue).1 = true
  /\ messages (data (removeContact "c-1" worldDue).2) = [with_status cancelled dueMessage].
Proof.
  destruct (removeContact_cascade "c-1" worldDue) as (Hr & _ & _).
  - exists alice. split; [apply list_elem_of_here|reflexivity].
  - split; [exact Hr|reflexivity].
Defined.

Lemma dueMessage_only_one j m :
  [dueMessage] !! j = Some m -> j <> 0%nat -> dueAt t_2025_03_15_09h30s m = false.
Proof. destruct j; [done|]. by destruct j. Qed.

Lemma dispatch_failure_recorded_witness :
  exists m',
    messages (data (processDueMessages worldDueRefused).2) = [m']
    /\ ScheduledMessage.status m' = failed
    /\ ScheduledMessage.errorMessage m' = Some "invalid destination"
    /\ length (sendLog (processDueMessages worldDueRefused).2) = 1%nat.
Proof.
  destruct (dispatch_failure_recorded worldDueRefused 0 dueMessage "invalid destination")
    as (m' & Hm & _ & Hs & He & Hlog & _).
  - vm_compute. apply NoDup_singleton.
  - reflexivity.
  - by vm_compute.
  - apply dueMessage_only_one.
  - by vm_compute.
  - by vm_compute.
  - exists m'. split_and!; [exact Hm|exact Hs|exact He|by rewrite Hlog].
Defined.

(** C6, as stated, fails: the notification call answers with a result
    that carries no sid; the send counts as a success and the occurrence
    ends the cycle as "sent" without a notificationSid. *)
Lemma dispatch_success_without_sid :
  NoDup (ids worldDueNoSid)
  /\ messages (data worldDueNoSid) = [dueMessage]
  /\ dueAt (clock worldDueNoSid 0%nat) dueMessage = true
  /\ findContact (ScheduledMessage.contactId dueMessage) worldDueNoSid = Some alice
  /\ success (sendOutcome (cycleBundle worldDueNoSid) (cycleStart worldDueNoSid)
                dueMessage).1 = true
  /\ exists m',
       messages (data (processDueMessages worldDueNoSid).2) !! 0%nat = Some m'
       /\ ScheduledMessage.status m' = sent
       /\ ScheduledMessage.notificationSid m' = None.
Proof.
  split_and!; [vm_compute; apply NoDup_singleton|reflexivity|by vm_compute..|].
  eexists. split_and!; by vm_compute.
Qed.

Lemma dispatch_success_recorded_witness :
  exists m' next,
    messages (data (processDueMessages worldDue).2) !! 0%nat = Some m'
    /\ ScheduledMessage.status m' = sent
    /\ ScheduledMessage.notificationSid m' = Some "SIM_1742029230001"
    /\ next ∈ messages (data (processDueMessages worldDue).2)
    /\ ScheduledMessage.status next = scheduled
    /\ ScheduledMessage.year next = 2026.
Proof.
  destruct (dispatch_success_recorded worldDue 0 dueMessage alice)
    as (m' & next & Hm & _ & Hs & Hsid & _ & _ & Hin & _ & Hns & Hy & _).
  - vm_compute. apply NoDup_singleton.
  - reflexivity.
  - by vm_compute.
  - apply dueMessage_only_one.
  - reflexivity.
  - by vm_compute.
  - exists m', next. split_and!; [exact Hm|exact Hs| |exact Hin|exact Hns|].
    + rewrite Hsid. by vm_compute.
    + rewrite Hy. by vm_compute.
Defined.

Lemma simulated_send_succeeds_witness :
  sms_notificationSid (sendBirthdaySms None "scheduler" "c-1" "+15550100" "Hello" worldDue).1
  = Some "SIM_1742029230000"
  /\ exists m',
       messages (data (processDueMessage None t_2025_03_15_09h30s dueMessage worldDue).2)
         !! 0%nat = Some m'
       /\ ScheduledMessage.status m' = sent.
Proof.
  destruct (simulated_send_succeeds "scheduler" "c-1" "+15550100" "Hello" worldDue)
    as (_ & _ & Hsid & _ & Hbody).
  split; [rewrite Hsid; by vm_compute|].
  destruct (Hbody t_2025_03_15_09h30s 0%nat dueMessage) as (m' & Hm & _ & Hs & _).
  - by vm_compute.
  - by vm_compute.
  - exists m'. split; [exact Hm|exact Hs].
Defined.

(** C5, as stated, fails: on a host ten hours ahead of UTC the occurrence
    of a 1 January birthday is stored with year 2025 and a fire instant
    whose text is in 2024. *)
Lemma recurrence_year_differs_from_text :
  exists m,
    (scheduleMessagesForContact "c-2" worldAhead).1 = Some m
    /\ messages (data (scheduleMessagesForContact "c-2" worldAhead).2) = [m]
    /\ ScheduledMessage.scheduledFor m = "2024-12-31T23:00:00.000Z"
    /\ yearComponent (ScheduledMessage.scheduledFor m) = Some 2024
    /\ ScheduledMessage.year m = 2025.
Proof. eexists. split_and!; by vm_compute. Qed.

Lemma recurrence_year_is_local_year_witness :
  exists m,
    (scheduleMessagesForContact "c-1" worldNew).1 = Some m
    /\ ScheduledMessage.scheduledFor m = "2025-03-15T09:00:00.000Z"
    /\ ScheduledMessage.year m = 2025
    /\ yearComponent (ScheduledMessage.scheduledFor m) = Some (ScheduledMessage.year m).
Proof.
  destruct recurrence_year_is_local_year as [Hsched _].
  destruct (Hsched "c-1" worldNew alice) as (m & Hm & _ & Hs & Hy & _ & Hc).
  - reflexivity.
  - by vm_compute.
  - exists m. split_and!; [exact Hm|rewrite Hs; by vm_compute|rewrite Hy; by vm_compute|].
    apply Hc; [reflexivity|rewrite Hy; clear; vm_compute; split; discriminate].
Defined.

Lemma hashes_inj i j : hashes i = hashes j -> i = j.
Proof.
  revert j. induction i as [|i IH]; intros [|j] H; try done.
  f_equal. apply IH. by injection H.
Qed.

Lemma wellFormed_worldDue : wellFormed worldDue.
Proof.
  split_and!.
  - vm_compute. apply NoDup_singleton.
  - apply NoDup_nil_2.
  - intros x Hx. by apply elem_of_nil in Hx.
  - intros n Hn. apply list_elem_of_singleton in Hn. discriminate Hn.
  - intros i j H. apply hashes_inj. by injection H.
Qed.

Lemma terminal_status_is_kept_witness :
  exists m',
    messages (data (runOps ([DispatchCycle]
                            ++ [DeliveredTimer 0; DeleteContact "c-1"; ScheduleAll;
                                DispatchCycle]) worldDue)) !! 0%nat = Some m'
    /\ ScheduledMessage.id m' = "m-0"
    /\ (ScheduledMessage.status m' = sent \/ ScheduledMessage.status m' = delivered).
Proof.
  edestruct (terminal_status_is_kept [DispatchCycle]
               [DeliveredTimer 0; DeleteContact "c-1"; ScheduleAll; DispatchCycle]
               worldDue 0) as (m' & Hm & Hid & Hs).
  - exact wellFormed_worldDue.
  - vm_compute. reflexivity.
  - left. reflexivity.
  - exists m'. split_and!; [exact Hm|exact Hid|].
    destruct Hs as [Hs|[_ Hs]]; [left|right]; exact Hs.
Defined.

End Samples.

(** * Phone numbers *)

Section Phone.

Implicit Types (d l : list ascii) (c : ascii) (h : string).

Lemma trimStart_id c l : isTrimChar c = false -> trimStart (c :: l) = c :: l.
Proof. intros H. cbn. by rewrite H. Qed.

(** [trim] keeps a text that neither starts nor ends with white space. *)
Lemma trim_id c l c' :
  isTrimChar c = false -> last (c :: l) = Some c' -> isTrimChar c' = false ->
  trim (c :: l) = c :: l.
Proof.
  intros Hc Hlast Hc'. unfold trim. rewrite (trimStart_id _ _ Hc).
  destruct (reverse (c :: l)) as [|x r] eqn:Hr.
  - apply (f_equal length) in Hr. by rewrite length_reverse in Hr.
  - assert (x = c') as ->.
    { rewrite <- head_reverse, Hr in Hlast. cbn in Hlast. congruence. }
    by rewrite (trimStart_id _ _ Hc'), <- Hr, reverse_involutive.
Qed.

Lemma isDigit_not_trim c : isDigit c = true -> isTrimChar c = false.
Proof.
  unfold isDigit, isTrimChar. intros H.
  apply andb_true_iff in H as [H1%Nat.leb_le H2%Nat.leb_le].
  apply bool_decide_eq_false. lia.
Qed.

Lemma filter_digits_id d :
  Forall (fun c => isDigit c = true) d -> filter (fun c => Is_true (isDigit c)) d = d.
Proof.
  induction 1 as [|c d Hc _ IH]; [done|].
  rewrite filter_cons_True by by rewrite Hc. by rewrite IH.
Qed.

Lemma filter_digits_Forall l :
  Forall (fun c => isDigit c = true) (filter (fun c => Is_true (isDigit c)) l).
Proof.
  apply Forall_forall. intros c [Hc _]%list_elem_of_filter. by apply Is_true_true.
Qed.

(** What [validateAndFormatPhone] answers for "+" followed by digits. *)
Lemma validateAndFormatPhone_plus d :
  Forall (fun c => isDigit c = true) d -> d <> [] ->
  validateAndFormatPhone (string_of_list_ascii ("+"%char :: d))
  = if ((length d <? 7) || (15 <? length d))%nat then
      mkPhoneResult false None
        (Some ("Phone number with country code should be 7-15 digits, got "
               +:+ JSDate.decimal (Z.of_nat (length d)))) None
    else mkPhoneResult true (Some (string_of_list_ascii ("+"%char :: d))) None
           (detectCountry d).
Proof.
  intros Hd Hne. unfold validateAndFormatPhone.
  rewrite list_ascii_of_string_of_list_ascii.
  assert (exists c', last ("+"%char :: d) = Some c' /\ isTrimChar c' = false) as (c' & Hl & Hc').
  { destruct (last d) as [c'|] eqn:Hlast.
    - exists c'. split.
      + destruct d; [done|]. done.
      + apply isDigit_not_trim. apply last_Some in Hlast as [l' ->].
        apply Forall_app in Hd as [_ Hd]. by inversion Hd.
    - by apply last_None in Hlast. }
  rewrite (trim_id _ _ c') by done.
  rewrite filter_cons_False by (by vm_compute).
  rewrite filter_digits_id by done.
  rewrite bool_decide_eq_true_2 by done.
  case_decide as Hz; [by destruct d|]. done.
Qed.

(** The outcomes of [validateAndFormatPhone]: a refusal with its reason,
    or "+" followed by 7 to 15 digits. *)
Lemma validateAndFormatPhone_cases input :
  (exists e, validateAndFormatPhone input = mkPhoneResult false None (Some e) None)
  \/ (exists d hint,
        validateAndFormatPhone input
        = mkPhoneResult true (Some (string_of_list_ascii ("+"%char :: d))) None hint
        /\ Forall (fun c => isDigit c = true) d /\ (7 <= length d <= 15)%nat).
Proof.
  unfold validateAndFormatPhone.
  set (t := trim (list_ascii_of_string input)).
  pose proof (filter_digits_Forall t) as Hd.
  set (cleaned := filter (fun c => Is_true (isDigit c)) t) in *. clearbody cleaned.
  case_decide as H0; [left; by eexists|].
  destruct (bool_decide (head t = Some "+"%char)).
  { destruct ((length cleaned <? 7) || (15 <? length cleaned))%nat eqn:Hlen;
      [left; by eexists|right].
    apply orb_false_iff in Hlen as [?%Nat.ltb_ge ?%Nat.ltb_ge].
    exists cleaned, (detectCountry cleaned). done. }
  case_bool_decide as H00.
  { destruct ((length (drop 2 cleaned) <? 7) || (15 <? length (drop 2 cleaned)))%nat eqn:Hlen;
      [left; by eexists|right].
    apply orb_false_iff in Hlen as [?%Nat.ltb_ge ?%Nat.ltb_ge].
    exists (drop 2 cleaned), (detectCountry (drop 2 cleaned)).
    split_and!; [done|by apply Forall_drop|done..]. }
  case_decide as H10.
  { right. exists ("1"%char :: cleaned), (Some "US/CA (assumed)"%string).
    split_and!; [done|by constructor|cbn; lia..]. }
  destruct (bool_decide (length cleaned = 11%nat) && bool_decide (head cleaned = Some "1"%char))
    eqn:H11.
  { right. apply andb_true_iff in H11 as [H11%bool_decide_eq_true _].
    exists cleaned, (Some "US/CA"%string). split_and!; [done..|lia|lia]. }
  destruct ((7 <=? length cleaned) && (length cleaned <=? 15))%nat eqn:Hlen;
    [|left; by eexists].
  apply andb_true_iff in Hlen as [?%Nat.leb_le ?%Nat.leb_le].
  destruct (truthy_opt (detectCountry cleaned)); [right|left; by eexists].
  by exists cleaned, (detectCountry cleaned).
Qed.

Lemma map_get_Some {V} k (m : list (string * V)) v : map_get k m = Some v -> (k, v) ∈ m.
Proof.
  unfold map_get. destruct (list_find _ m) as [[i [k' v']]|] eqn:Hf; [|done].
  cbn. intros [= ->]. apply list_find_Some in Hf as (Hi & Hk & _). cbn in Hk. subst k'.
  by eapply list_elem_of_lookup_2.
Qed.

Lemma map_get_elem_of {V} k (m : list (string * V)) v :
  NoDup (m.*1) -> (k, v) ∈ m -> map_get k m = Some v.
Proof.
  intros Hnd Hin. unfold map_get.
  destruct (list_find (fun p => p.1 = k) m) as [[i [k' v']]|] eqn:Hf.
  - apply list_find_Some in Hf as (Hi & Hk & _). cbn in Hk. subst k'. cbn. f_equal.
    apply list_elem_of_lookup_1 in Hin as [j Hj].
    assert (i = j) as ->; [|congruence].
    eapply NoDup_lookup; [exact Hnd|..]; rewrite list_lookup_fmap; [by rewrite Hi|by rewrite Hj].
  - apply list_find_None in Hf. rewrite Forall_forall in Hf. by destruct (Hf _ Hin).
Qed.

Lemma COUNTRY_CODES_keys :
  NoDup (COUNTRY_CODES.*1)
  /\ Forall (fun p => truthy p.2 = true
                     /\ (1 <= length (list_ascii_of_string p.1) <= 3)%nat
                     /\ exists c k, list_ascii_of_string p.1 = c :: k
                                   /\ isDigit c = true /\ c <> "0"%char) COUNTRY_CODES.
Proof.
  split; [by apply (bool_decide_unpack _); vm_compute|].
  repeat constructor; cbn; try lia; by eexists _, _.
Qed.

(** No calling code of the table starts another one. *)
Lemma COUNTRY_CODES_prefix_free p q :
  p ∈ COUNTRY_CODES -> q ∈ COUNTRY_CODES ->
  list_ascii_of_string p.1 `prefix_of` list_ascii_of_string q.1 -> p = q.
Proof.
  intros Hp Hq.
  assert (Forall (fun p => Forall (fun q =>
            list_ascii_of_string p.1 `prefix_of` list_ascii_of_string q.1 -> p = q)
            COUNTRY_CODES) COUNTRY_CODES) as H.
  { apply (bool_decide_unpack _). by vm_compute. }
  rewrite Forall_forall in H. specialize (H p Hp). rewrite Forall_forall in H. by apply H.
Qed.

Lemma detectCountryIn_Some lens d h :
  detectCountryIn lens d = Some h ->
  exists len, len ∈ lens /\ (string_of_list_ascii (take len d), h) ∈ COUNTRY_CODES.
Proof.
  induction lens as [|len lens IH]; [done|]. cbn [detectCountryIn].
  destruct (truthy_opt _) eqn:Ht.
  - intros H%map_get_Some. exists len. split; [left|done].
  - intros (len' & ? & ?)%IH. exists len'. split; [by right|done].
Qed.

Lemma detectCountry_head d h :
  detectCountry d = Some h -> exists c0, head d = Some c0 /\ c0 <> "0"%char.
Proof.
  intros (len & _ & Hin)%detectCountryIn_Some.
  destruct COUNTRY_CODES_keys as [_ Hk]. rewrite Forall_forall in Hk.
  destruct (Hk _ Hin) as (_ & _ & c0 & k & Heq & _ & Hc0). cbn in Heq.
  rewrite list_ascii_of_string_of_list_ascii in Heq.
  exists c0. split; [|done]. destruct d; [by rewrite take_nil in Heq|].
  destruct len; cbn in Heq; [done|]. by injection Heq as -> _.
Qed.

Lemma isE164_plus d :
  Forall (fun c => isDigit c = true) d -> (7 <= length d <= 15)%nat ->
  isE164 (string_of_list_ascii ("+"%char :: d))
  = negb (bool_decide (head d = Some "0"%char)).
Proof.
  intros Hd Hlen. unfold isE164. rewrite list_ascii_of_string_of_list_ascii.
  destruct d as [|c d]; [cbn in Hlen; lia|]. inversion Hd as [|? ? Hc Hd']; subst.
  rewrite bool_decide_eq_true_2 by done. rewrite Hc. cbn [andb head].
  assert (forallb isDigit d = true) as ->.
  { clear -Hd'. induction Hd' as [|x l Hx _ IH]; [done|]. cbn. by rewrite Hx, IH. }
  cbn in Hlen.
  assert ((6 <=? length d)%nat = true) as -> by (apply Nat.leb_le; lia).
  assert ((length d <=? 14)%nat = true) as -> by (apply Nat.leb_le; lia).
  rewrite !andb_true_r. f_equal. apply bool_decide_ext. split; congruence.
Qed.

(** X1: every answer of [validateAndFormatPhone] is either an acceptance,
    with no error and a number made of "+" and 7 to 15 digits, or a
    refusal, with an error text and neither a number nor a country hint. *)
Theorem validateAndFormatPhone_result input :
  let r := validateAndFormatPhone input in
  if valid r then
    phone_error r = None
    /\ exists d, formatted r = Some (string_of_list_ascii ("+"%char :: d))
                /\ Forall (fun c => isDigit c = true) d /\ (7 <= length d <= 15)%nat
  else formatted r = None /\ countryHint r = None /\ exists e, phone_error r = Some e.
Proof.
  cbv zeta.
  destruct (validateAndFormatPhone_cases input) as [[e ->]|(d & hint & -> & Hd & Hlen)]; cbn.
  - split_and!; [done..|by exists e].
  - split; [done|by exists d].
Qed.

(** X2: a number that [validateAndFormatPhone] has produced is accepted
    again and comes back unchanged. *)
Theorem validateAndFormatPhone_idempotent input f :
  formatted (validateAndFormatPhone input) = Some f ->
  valid (validateAndFormatPhone f) = true
  /\ formatted (validateAndFormatPhone f) = Some f.
Proof.
  destruct (validateAndFormatPhone_cases input) as [[e ->]|(d & hint & -> & Hd & Hlen)];
    cbn [formatted]; [done|]. intros Hf.
  assert (f = string_of_list_ascii ("+"%char :: d)) as -> by congruence.
  rewrite validateAndFormatPhone_plus; [|done|by intros ->; cbn in Hlen; lia].
  assert (((length d <? 7) || (15 <? length d))%nat = false) as ->; [|done].
  apply orb_false_iff. split; apply Nat.ltb_ge; lia.
Qed.

(** X3: a number accepted from an input that, once trimmed, does not start
    with "+" and whose digits do not start with "00" is in E.164 form. *)
Theorem validateAndFormatPhone_isE164 input f :
  formatted (validateAndFormatPhone input) = Some f ->
  head (trim (list_ascii_of_string input)) <> Some "+"%char ->
  take 2 (filter (fun c => Is_true (isDigit c)) (trim (list_ascii_of_string input)))
    <> ["0"; "0"]%char ->
  isE164 f = true.
Proof.
  unfold validateAndFormatPhone.
  set (t := trim (list_ascii_of_string input)).
  pose proof (filter_digits_Forall t) as Hd.
  set (cleaned := filter (fun c => Is_true (isDigit c)) t) in *. clearbody cleaned.
  intros Hf Hplus H00. rewrite (bool_decide_eq_false_2 _ Hplus) in Hf.
  rewrite (bool_decide_eq_false_2 _ H00) in Hf.
  case_decide as H0; [done|]. case_decide as H10.
  { apply (inj Some) in Hf. subst f. rewrite isE164_plus; [done|by constructor|cbn; lia]. }
  destruct (bool_decide (length cleaned = 11%nat) && bool_decide (head cleaned = Some "1"%char))
    eqn:H11.
  { apply (inj Some) in Hf. subst f.
    apply andb_true_iff in H11 as [H11%bool_decide_eq_true H1%bool_decide_eq_true].
    rewrite isE164_plus; [|done|lia]. rewrite H1. done. }
  destruct ((7 <=? length cleaned) && (length cleaned <=? 15))%nat eqn:Hlen; [|done].
  apply andb_true_iff in Hlen as [?%Nat.leb_le ?%Nat.leb_le].
  destruct (detectCountry cleaned) as [h|] eqn:Hc; [|done].
  destruct (truthy_opt (Some h)); [|done]. apply (inj Some) in Hf. subst f.
  rewrite isE164_plus; [|done|lia].
  destruct (detectCountry_head _ _ Hc) as (c0 & -> & Hc0).
  apply negb_true_iff, bool_decide_eq_false. congruence.
Qed.

(** X4: after a "+" a leading zero is accepted: the number that comes
    back is then not in E.164 form. *)
Theorem validateAndFormatPhone_accepts_leading_zero d :
  Forall (fun c => isDigit c = true) d -> (6 <= length d <= 14)%nat ->
  valid (validateAndFormatPhone (string_of_list_ascii ("+"%char :: "0"%char :: d))) = true
  /\ formatted (validateAndFormatPhone (string_of_list_ascii ("+"%char :: "0"%char :: d)))
     = Some (string_of_list_ascii ("+"%char :: "0"%char :: d))
  /\ isE164 (string_of_list_ascii ("+"%char :: "0"%char :: d)) = false.
Proof.
  intros Hd Hlen.
  rewrite validateAndFormatPhone_plus; [|by constructor|done].
  assert (((length ("0"%char :: d) <? 7) || (15 <? length ("0"%char :: d)))%nat = false) as ->.
  { apply orb_false_iff. cbn [length]. split; apply Nat.ltb_ge; lia. }
  split_and!; [done..|]. rewrite isE164_plus; [done|by constructor|cbn; lia].
Qed.

(** X5: [detectCountry] answers a hint exactly when a calling code of the
    table that carries this hint starts the digits: the codes that start
    given digits agree on the hint, so the order in which the prefix
    lengths are tried does not matter. *)
Theorem detectCountry_prefix d h :
  detectCountry d = Some h
  <-> exists code, (code, h) ∈ COUNTRY_CODES /\ list_ascii_of_string code `prefix_of` d.
Proof.
  destruct COUNTRY_CODES_keys as [Hnd Hk]. rewrite Forall_forall in Hk. split.
  - intros (len & _ & Hin)%detectCountryIn_Some. eexists. split; [exact Hin|].
    rewrite list_ascii_of_string_of_list_ascii. apply prefix_take.
  - intros (code & Hin & Hpre).
    assert (forall len h', map_get (string_of_list_ascii (take len d)) COUNTRY_CODES = Some h' ->
              h' = h /\ truthy h' = true) as Hsame.
    { intros len h' Hg%map_get_Some.
      assert (list_ascii_of_string (string_of_list_ascii (take len d)) `prefix_of` d) as Hp'.
      { rewrite list_ascii_of_string_of_list_ascii. apply prefix_take. }
      destruct (Hk _ Hg) as (Ht & _). split; [|done].
      destruct (prefix_weak_total _ _ _ Hpre Hp') as [H|H].
      - by injection (COUNTRY_CODES_prefix_free _ _ Hin Hg H).
      - by injection (COUNTRY_CODES_prefix_free _ _ Hg Hin H). }
    assert (exists len, len ∈ [3; 2; 1]%nat
              /\ map_get (string_of_list_ascii (take len d)) COUNTRY_CODES = Some h)
      as (len & Hlen & Hg).
    { destruct (Hk _ Hin) as (_ & Hl & _). cbn in Hl.
      exists (length (list_ascii_of_string code)). split.
      - destruct (length (list_ascii_of_string code)) as [|[|[|[|n]]]]; try lia;
          rewrite !elem_of_cons; auto.
      - destruct Hpre as [k ->]. rewrite take_app_length.
        rewrite string_of_list_ascii_of_string. by apply map_get_elem_of. }
    unfold detectCountry.
    assert (forall lens, len ∈ lens -> detectCountryIn lens d = Some h) as Hall; [|by apply Hall].
    induction lens as [|l0 lens IH]; [by intros ?%elem_of_nil|].
    intros Hl. cbn [detectCountryIn].
    destruct (map_get (string_of_list_ascii (take l0 d)) COUNTRY_CODES) as [h'|] eqn:Hg0.
    + destruct (Hsame _ _ Hg0) as [-> Ht]. cbn. by rewrite Ht.
    + cbn. apply IH. apply elem_of_cons in Hl as [->|Hl]; [congruence|done].
Qed.

Lemma validateAndFormatPhone_idempotent_witness :
  formatted (validateAndFormatPhone "(415) 555-2671") = Some "+14155552671"%string
  /\ valid (validateAndFormatPhone "+14155552671") = true
  /\ formatted (validateAndFormatPhone "+14155552671") = Some "+14155552671"%string.
Proof.
  split; [by vm_compute|].
  apply (validateAndFormatPhone_idempotent "(415) 555-2671"). by vm_compute.
Defined.

Lemma validateAndFormatPhone_isE164_witness :
  formatted (validateAndFormatPhone "44 20 7946 0958") = Some "+442079460958"%string
  /\ isE164 "+442079460958" = true.
Proof.
  split; [by vm_compute|].
  apply (validateAndFormatPhone_isE164 "44 20 7946 0958"); by vm_compute.
Defined.

Lemma validateAndFormatPhone_accepts_leading_zero_witness :
  valid (validateAndFormatPhone "+0123456") = true
  /\ formatted (validateAndFormatPhone "+0123456") = Some "+0123456"%string
  /\ isE164 "+0123456" = false.
Proof.
  apply (validateAndFormatPhone_accepts_leading_zero (list_ascii_of_string "123456")).
  - repeat constructor.
  - cbn. lia.
Defined.

End Phone.

(** * Sessions, the Notify service and the account routes *)

Section Sessions.

Implicit Types (w : World) (bundle : TwilioClientBundle).

Lemma map_get_cons {V} k (p : string * V) m :
  map_get k (p :: m) = if decide (p.1 = k) then Some p.2 else map_get k m.
Proof.
  unfold map_get. cbn. case_decide; [done|].
  by destruct (list_find _ m) as [[i [k' v']]|].
Qed.

Lemma map_get_set_eq {V} k (v : V) m : map_get k (map_set k v m) = Some v.
Proof.
  induction m as [|p m IH]; cbn [map_set].
  - rewrite map_get_cons. by rewrite decide_True.
  - case_decide; rewrite map_get_cons; [by rewrite decide_True|by rewrite decide_False].
Qed.

Lemma map_get_set_ne {V} k k' (v : V) m :
  k' <> k -> map_get k' (map_set k v m) = map_get k' m.
Proof.
  intros Hne. induction m as [|p m IH]; cbn [map_set].
  - rewrite map_get_cons. by rewrite decide_False.
  - case_decide as Hp; rewrite !map_get_cons; cbn [fst snd].
    + rewrite !decide_False by congruence. done.
    + by rewrite IH.
Qed.

Lemma map_get_delete_eq {V} k (m : list (string * V)) : map_get k (map_delete k m) = None.
Proof.
  unfold map_delete. induction m as [|p m IH]; [done|].
  destruct (decide (p.1 = k)) as [Hp|Hp].
  - by rewrite filter_cons_False by (by intros []).
  - rewrite filter_cons_True by done. rewrite map_get_cons. by rewrite decide_False.
Qed.

Lemma map_get_delete_ne {V} k k' (m : list (string * V)) :
  k' <> k -> map_get k' (map_delete k m) = map_get k' m.
Proof.
  intros Hne. unfold map_delete. induction m as [|p m IH]; [done|].
  destruct (decide (p.1 = k)) as [Hp|Hp].
  - rewrite filter_cons_False by (by intros []). rewrite map_get_cons.
    rewrite decide_False by congruence. done.
  - rewrite filter_cons_True by done. rewrite !map_get_cons. by rewrite IH.
Qed.

(** The registry of session clients answers a lookup with the bundle
    last registered under the session and with nothing once the session
    is removed; registering or removing one session leaves the lookup of
    every other session as it was. *)
Lemma session_client_lookup sessionId other bundle w :
  (getSessionClient sessionId (setSessionClient sessionId bundle w).2).1 = Some bundle
  /\ (getSessionClient sessionId (removeSessionClient sessionId w).2).1 = None
  /\ (other <> sessionId ->
      (getSessionClient other (setSessionClient sessionId bundle w).2).1
      = (getSessionClient other w).1
      /\ (getSessionClient other (removeSessionClient sessionId w).2).1
         = (getSessionClient other w).1).
Proof.
  unfold getSessionClient, setSessionClient, removeSessionClient. cbn.
  split_and!.
  - apply map_get_set_eq.
  - apply map_get_delete_eq.
  - intros Hne. split; [by apply map_get_set_ne|by apply map_get_delete_ne].
Qed.

Ltac run_gateway :=
  unfold ensureNotifyService, cacheNotifyServiceSid, getNotifyServiceSid,
    setNotifyServiceSid, createService, loadData, saveData;
  repeat first
    [ progress (rewrite ?bind_run; cbn [fst snd mret M_ret])
    | case_match ].

(** A cached identifier is answered at once. *)
Lemma ensureNotifyService_hit bundle sessionId sid w :
  map_get sessionId (sessionNotifyServiceSids w) = Some sid -> truthy sid = true ->
  ensureNotifyService bundle sessionId w = (Some sid, w).
Proof.
  intros Hc Ht. unfold ensureNotifyService. rewrite bind_run. cbn [fst snd].
  rewrite Hc. cbn [truthy_opt]. by rewrite Ht.
Qed.

Lemma ensureNotifyService_Some bundle sessionId sid w :
  (ensureNotifyService bundle sessionId w).1 = Some sid ->
  truthy sid = true
  /\ map_get sessionId (sessionNotifyServiceSids (ensureNotifyService bundle sessionId w).2)
     = Some sid.
Proof.
  run_gateway; cbn [fst snd sessionNotifyServiceSids set_sessionNotifyServiceSids set_data
    set_serviceApi] in *; intros Hr; try discriminate;
    rewrite ?Hr in *; cbn [default truthy_opt] in *; rewrite ?map_get_set_eq;
    try (split; congruence).
  all: simplify_eq; done.
Qed.

Lemma ensureNotifyService_None bundle sessionId w :
  (ensureNotifyService bundle sessionId w).1 = None ->
  data (ensureNotifyService bundle sessionId w).2 = data w
  /\ sessionNotifyServiceSids (ensureNotifyService bundle sessionId w).2
     = sessionNotifyServiceSids w
  /\ (truthy (messagingServiceSid (credentials bundle)) = false ->
      (ensureNotifyService bundle sessionId w).2 = w).
Proof.
  run_gateway; cbn [fst snd] in *; intros Hr; try discriminate.
  all: try (rewrite Hr in *; discriminate).
  all: by (split_and!; [done..|]; intros Hm; rewrite Hm in *; destruct w).
Qed.

(** X6: what [ensureNotifyService] answers.  An identifier: it is not
    empty and is cached for the session, so that asking again, with any
    bundle, answers the same identifier and changes nothing.  Null: it has
    written nothing, the store and the cache of the sessions are as
    before, and without a messaging service SID in the credentials no
    request was made. *)
Theorem ensureNotifyService_outcome bundle bundle' sessionId w :
  match (ensureNotifyService bundle sessionId w).1 with
  | Some sid =>
      truthy sid = true
      /\ ensureNotifyService bundle' sessionId (ensureNotifyService bundle sessionId w).2
         = (Some sid, (ensureNotifyService bundle sessionId w).2)
  | None =>
      data (ensureNotifyService bundle sessionId w).2 = data w
      /\ sessionNotifyServiceSids (ensureNotifyService bundle sessionId w).2
         = sessionNotifyServiceSids w
      /\ (truthy (messagingServiceSid (credentials bundle)) = false ->
          (ensureNotifyService bundle sessionId w).2 = w)
  end.
Proof.
  destruct (ensureNotifyService bundle sessionId w).1 as [sid|] eqn:Hr.
  - apply ensureNotifyService_Some in Hr as [Ht Hc]. split; [done|].
    by apply ensureNotifyService_hit.
  - by apply ensureNotifyService_None.
Qed.

Lemma ensureNotifyService_stored bundle sessionId sid w :
  truthy_opt (map_get sessionId (sessionNotifyServiceSids w)) = false ->
  truthy_opt (cred_notifyServiceSid (credentials bundle)) = false ->
  notifyServiceSid (data w) = Some sid -> truthy sid = true ->
  ensureNotifyService bundle sessionId w
  = (Some sid, set_sessionNotifyServiceSids
                 (map_set sessionId sid (sessionNotifyServiceSids w)) w).
Proof.
  intros Hc Hp Hs Ht. unfold ensureNotifyService. rewrite bind_run. cbn [fst snd].
  rewrite Hc, Hp. unfold getNotifyServiceSid, loadData. rewrite !bind_run. cbn [fst snd mret M_ret].
  rewrite Hs. cbn [truthy_opt default]. rewrite Ht. unfold cacheNotifyServiceSid.
  by rewrite bind_run.
Qed.

(** X7: one Notify service for all accounts: once a session has obtained
    its identifier from the store or by creating the service, a session
    with other credentials is answered that identifier from the store,
    and no request is made with its own credentials. *)
Theorem notify_service_is_shared bundle1 session1 bundle2 session2 sid w :
  truthy_opt (map_get session1 (sessionNotifyServiceSids w)) = false ->
  truthy_opt (cred_notifyServiceSid (credentials bundle1)) = false ->
  (ensureNotifyService bundle1 session1 w).1 = Some sid ->
  session2 <> session1 ->
  truthy_opt (map_get session2 (sessionNotifyServiceSids w)) = false ->
  truthy_opt (cred_notifyServiceSid (credentials bundle2)) = false ->
  (ensureNotifyService bundle2 session2 (ensureNotifyService bundle1 session1 w).2).1
  = Some sid
  /\ serviceApi (ensureNotifyService bundle2 session2 (ensureNotifyService bundle1 session1 w).2).2
     = serviceApi (ensureNotifyService bundle1 session1 w).2.
Proof.
  intros Hc1 Hp1 Hr Hne Hc2 Hp2.
  assert (notifyServiceSid (data (ensureNotifyService bundle1 session1 w).2) = Some sid
          /\ truthy sid = true
          /\ map_get session2 (sessionNotifyServiceSids (ensureNotifyService bundle1 session1 w).2)
             = map_get session2 (sessionNotifyServiceSids w)) as (Hs & Ht & Hm).
  { revert Hr. unfold ensureNotifyService. rewrite bind_run. cbn [fst snd].
    rewrite Hc1, Hp1.
    unfold getNotifyServiceSid, setNotifyServiceSid, cacheNotifyServiceSid, createService,
      loadData, saveData.
    repeat first
      [ progress (rewrite ?bind_run; cbn [fst snd mret M_ret])
      | case_match ]; intros Hr; try discriminate;
      cbn [data set_data set_sessionNotifyServiceSids set_serviceApi sessionNotifyServiceSids
             notifyServiceSid] in *;
      rewrite ?map_get_set_ne by done; simplify_eq;
      repeat match goal with
             | H : truthy_opt ?x = true, Hr : ?x = Some _ |- _ => rewrite Hr in H
             end;
      cbn [default truthy_opt] in *; by split_and!. }
  rewrite (ensureNotifyService_stored _ _ sid); [done|congruence|done..].
Qed.

(** A send that fails tells why. *)
Lemma sendBirthdaySms_failure_text (bundle : option TwilioClientBundle) sessionId contactId
    phoneE164 messageBody w :
  success (sendBirthdaySms bundle sessionId contactId phoneE164 messageBody w).1 = false ->
  is_Some (error (sendBirthdaySms bundle sessionId contactId phoneE164 messageBody w).1).
Proof.
  unfold sendBirthdaySms. rewrite bind_run.
  destruct bundle as [b|]; [|by rewrite bind_run].
  rewrite bind_run.
  destruct (ensureNotifyService b sessionId _) as [[sid|] w2]; cbn [fst snd]; [|by eexists].
  rewrite bind_run. unfold createNotification. cbn [fst snd].
  repeat case_match; cbn; first [done|by eexists].
Qed.

(** X8: a send result is either a success without an error text, or a
    failure that carries an error text and no notification SID. *)
Theorem sendBirthdaySms_result (bundle : option TwilioClientBundle) sessionId contactId
    phoneE164 messageBody w :
  let r := (sendBirthdaySms bundle sessionId contactId phoneE164 messageBody w).1 in
  if success r then error r = None
  else sms_notificationSid r = None /\ exists e, error r = Some e.
Proof.
  cbv zeta. unfold sendBirthdaySms. rewrite bind_run.
  destruct bundle as [b|]; [|by rewrite bind_run].
  rewrite bind_run.
  destruct (ensureNotifyService b sessionId _) as [[sid|] w2]; cbn [fst snd];
    [|split; [done|by eexists]].
  rewrite bind_run. unfold createNotification. cbn [fst snd].
  repeat case_match; cbn; first [done|split; [done|by eexists]].
Qed.

(** The log of sends is no input of [ensureNotifyService]. *)
Lemma ensureNotifyService_set_sendLog bundle sessionId l w :
  ensureNotifyService bundle sessionId (set_sendLog l w)
  = ((ensureNotifyService bundle sessionId w).1,
     set_sendLog l (ensureNotifyService bundle sessionId w).2).
Proof.
  destruct w as [d ac sn ti sl tz ck uu rd sa na].
  unfold ensureNotifyService, cacheNotifyServiceSid, getNotifyServiceSid,
    setNotifyServiceSid, createService, loadData, saveData, set_sendLog.
  cbn [data sessionNotifyServiceSids serviceApi].
  repeat first
    [ progress (rewrite ?bind_run;
                cbn [fst snd mret M_ret data activeClients sessionNotifyServiceSids timers
                     sendLog LocalTZA clock uuid random serviceApi notificationApi])
    | case_match ]; done.
Qed.

(** X9: when the Notify service cannot be had, the send fails with the
    text "Notify service not available" and the notification API is not
    called. *)
Theorem sendBirthdaySms_without_service bundle sessionId contactId phoneE164 messageBody w :
  (ensureNotifyService bundle sessionId w).1 = None ->
  (sendBirthdaySms (Some bundle) sessionId contactId phoneE164 messageBody w).1
  = mkSmsResult false None (Some "Notify service not available")
  /\ notificationApi (sendBirthdaySms (Some bundle) sessionId contactId phoneE164 messageBody w).2
     = notificationApi w.
Proof.
  intros Hr. unfold sendBirthdaySms. rewrite !bind_run. unfold logSend. cbn [fst snd].
  rewrite ensureNotifyService_set_sendLog. cbn [fst snd]. rewrite Hr. cbn [fst snd mret M_ret].
  split; [done|]. cbn.
  revert Hr. run_gateway; done.
Qed.

Lemma list_ascii_of_string_app (s1 s2 : string) :
  list_ascii_of_string (s1 +:+ s2) = list_ascii_of_string s1 ++ list_ascii_of_string s2.
Proof.
  induction s1 as [|c s1 IH]; [done|]. rewrite app_String. cbn. by rewrite IH.
Qed.

Lemma string_of_list_ascii_app (l1 l2 : list ascii) :
  string_of_list_ascii (l1 ++ l2) = string_of_list_ascii l1 +:+ string_of_list_ascii l2.
Proof. induction l1 as [|c l1 IH]; [done|]. cbn. by rewrite IH. Qed.

Lemma length_list_ascii_of_string (s : string) :
  length (list_ascii_of_string s) = String.length s.
Proof. induction s as [|c s IH]; [done|]. cbn. by rewrite IH. Qed.

(** X10: of an identifier of ten characters or more, [maskSid] shows the
    first six and the last four, with "..." between them, and nothing of
    what the identifier has between them. *)
Theorem maskSid_shows_ends (p m s : string) :
  String.length p = 6%nat -> String.length s = 4%nat ->
  maskSid (p +:+ m +:+ s) = p +:+ "..." +:+ s.
Proof.
  intros Hp Hs. unfold maskSid.
  rewrite !list_ascii_of_string_app, !length_app, !length_list_ascii_of_string, Hp, Hs.
  assert ((6 + (String.length m + 4) <=? 8)%nat = false) as -> by (apply Nat.leb_gt; lia).
  rewrite take_app_length' by by rewrite length_list_ascii_of_string.
  rewrite string_of_list_ascii_of_string.
  replace (6 + (String.length m + 4) - 4)%nat
    with (length (list_ascii_of_string p ++ list_ascii_of_string m))
    by (rewrite length_app, !length_list_ascii_of_string; lia).
  rewrite app_assoc, drop_app_length. by rewrite string_of_list_ascii_of_string.
Qed.

End Sessions.

(** * The account routes *)

Section Accounts.

Implicit Types (w : World) (creds : SessionCredentials).

(** X11: a login ends in one of two ways.  Status 200: the session holds
    the trimmed credentials with a Notify service SID that is not empty,
    the SID is cached for the session, the bundle registered for the
    session holds those same credentials, and the account SID is answered
    masked.  Status 400 or 401: no credentials are put in the session, and
    the registered clients, the store and the cache are as before. *)
Theorem postLogin_outcome sessionID a t m w :
  let r := (postLogin sessionID a t m w).1 in
  let w' := (postLogin sessionID a t m w).2 in
  (login_status r = 200
   /\ exists sid,
        truthy sid = true
        /\ login_session r
           = Some (mkCredentials (trimString (default EmptyString a))
                     (trimString (default EmptyString t))
                     (trimString (default EmptyString m)) (Some sid))
        /\ (getSessionClient sessionID w').1 = mkBundle <$> login_session r
        /\ map_get sessionID (sessionNotifyServiceSids w') = Some sid
        /\ login_accountSid r = Some (maskSid (trimString (default EmptyString a))))
  \/ ((login_status r = 400 \/ login_status r = 401)
      /\ login_session r = None /\ login_accountSid r = None
      /\ activeClients w' = activeClients w /\ data w' = data w
      /\ sessionNotifyServiceSids w' = sessionNotifyServiceSids w).
Proof.
  cbv zeta. unfold postLogin.
  destruct (negb (truthy_opt a) || negb (truthy_opt t) || negb (truthy_opt m));
    [right; by split_and!; [left|..]|].
  destruct (negb (String.prefix "AC" (default EmptyString a)) || _);
    [right; by split_and!; [left|..]|].
  rewrite bind_run.
  set (b := createTwilioClientBundle _).
  pose proof (fun sid => ensureNotifyService_Some b sessionID sid w) as HS.
  pose proof (ensureNotifyService_None b sessionID w) as HN.
  pose proof (ensureNotifyService_sameStore b sessionID w) as (_ & _ & _ & _ & _ & _ & Hac).
  destruct (ensureNotifyService b sessionID w) as [[sid|] w1]; cbn [fst snd] in *.
  - destruct (HS sid eq_refl) as [Ht Hc]. clear HS HN. cbn [truthy_opt negb]. rewrite Ht.
    cbn [negb]. left. rewrite bind_run.
    cbn [fst snd mret M_ret setSessionClient login_status login_session login_accountSid].
    split; [done|]. exists sid. split_and!; try done.
    unfold getSessionClient. cbn. apply map_get_set_eq.
  - destruct (HN eq_refl) as (Hd & Hs & _). right. cbn. split_and!; auto.
Qed.

(** X12: a login is not checked against the provider once the store holds
    a Notify service SID: with an account SID of the expected form, any
    auth token and any messaging service SID are accepted, the session
    gets the stored SID, and no request is made. *)
Theorem postLogin_without_request sessionID (a t m sid : string) w :
  notifyServiceSid (data w) = Some sid -> truthy sid = true ->
  truthy_opt (map_get sessionID (sessionNotifyServiceSids w)) = false ->
  String.prefix "AC" a = true -> String.length a = 34%nat ->
  truthy t = true -> truthy m = true ->
  login_status (postLogin sessionID (Some a) (Some t) (Some m) w).1 = 200
  /\ login_session (postLogin sessionID (Some a) (Some t) (Some m) w).1
     = Some (mkCredentials (trimString a) (trimString t) (trimString m) (Some sid))
  /\ serviceApi (postLogin sessionID (Some a) (Some t) (Some m) w).2 = serviceApi w.
Proof.
  intros Hs Hsid Hc Hp Hl Ht Hm. unfold postLogin.
  cbn [truthy_opt default from_option id].
  assert (truthy a = true) as ->.
  { apply negb_true_iff, bool_decide_eq_false. by intros ->. }
  rewrite Ht, Hm, Hp, Hl. cbn [negb orb Nat.eqb]. rewrite bind_run.
  rewrite (ensureNotifyService_stored _ _ sid) by done.
  cbn [fst snd truthy_opt]. rewrite Hsid. cbn [negb]. by rewrite bind_run.
Qed.

(** X13: the middleware lets a request through exactly when its path is an
    auth path or its session holds credentials, and changes nothing when
    it refuses; a request let through to another route has a bundle
    registered for its session; a bundle that was registered, for any
    session, stays. *)
Theorem authGuard_outcome path (sessionCredentials : option SessionCredentials) sessionID w :
  let r := authGuard path sessionCredentials sessionID w in
  (r.1 = true <-> String.prefix "/auth/" path = true \/ is_Some sessionCredentials)
  /\ (r.1 = false -> r.2 = w)
  /\ (r.1 = true -> String.prefix "/auth/" path = false ->
      is_Some (getSessionClient sessionID r.2).1)
  /\ (forall s b, (getSessionClient s w).1 = Some b -> (getSessionClient s r.2).1 = Some b).
Proof.
  cbv zeta. unfold authGuard.
  destruct (String.prefix "/auth/" path).
  { cbn. split_and!; try done. split; auto. }
  destruct sessionCredentials as [creds|].
  2:{ cbn. split_and!; try done. split; [done|]. by intros [|[? ?]]. }
  rewrite !bind_run. unfold getSessionClient. cbn [fst snd].
  destruct (map_get sessionID (activeClients w)) as [b0|] eqn:Hg.
  - cbn [fst snd mret M_ret]. rewrite Hg.
    split_and!; try done. split; [right; by eexists|done].
  - rewrite !bind_run. cbn [fst snd mret M_ret setSessionClient set_activeClients activeClients].
    split_and!; try done.
    + split; [right; by eexists|done].
    + intros _ _. rewrite map_get_set_eq. by eexists.
    + intros s b Hb. destruct (decide (s = sessionID)) as [->|Hne]; [congruence|].
      by rewrite map_get_set_ne.
Qed.

Lemma postLogin_without_request_witness :
  login_status
    (postLogin "session-2" (Some "AC0123456789abcdef0123456789abcdef"%string)
       (Some "wrong token"%string) (Some "MG0"%string)
       (set_data (mkAppData [] [] (Some "IS1"%string)) worldNew)).1 = 200
  /\ serviceApi
       (postLogin "session-2" (Some "AC0123456789abcdef0123456789abcdef"%string)
          (Some "wrong token"%string) (Some "MG0"%string)
          (set_data (mkAppData [] [] (Some "IS1"%string)) worldNew)).2
     = serviceApi worldNew.
Proof.
  destruct (postLogin_without_request "session-2" "AC0123456789abcdef0123456789abcdef"
              "wrong token" "MG0" "IS1"
              (set_data (mkAppData [] [] (Some "IS1"%string)) worldNew))
    as (H1 & _ & H2); try reflexivity.
  split; [exact H1|exact H2].
Defined.

End Accounts.

(** * The contact route *)

Section Contacts.

Import JSDate.

Implicit Types (w : World) (c contact : Contact.t).

Lemma createSmsBinding_sameStore binding bundle sessionId contactId phoneE164 w :
  sameStore w (createSmsBinding binding bundle sessionId contactId phoneE164 w).2.
Proof.
  unfold createSmsBinding. rewrite bind_run.
  pose proof (ensureNotifyService_sameStore bundle sessionId w) as H.
  destruct (ensureNotifyService bundle sessionId w) as [r w1]. cbn [fst snd] in *.
  by repeat case_match.
Qed.

(** The two ways [POST /api/contacts] ends: a refusal that has changed
    nothing, or a contact built from the checked fields, stored, bound
    when the session has a bundle, and scheduled. *)
Lemma postContacts_cases binding sessionID name phone birthday w :
  (exists st msg,
     postContacts binding sessionID name phone birthday w = (ContactRejected st msg, w)
     /\ (st = 400 \/ st = 409))
  \/ (exists y month day pf,
        let safeName := trimString (default EmptyString name) in
        let contact :=
          Contact.mk (uuid w 0%nat) safeName pf (month, day) (default EmptyString birthday)
            (toISOString (clock w 0%nat)) in
        let w3 := (addContact contact (now (uuidv4 w).2).2).2 in
        let w4 :=
          match map_get sessionID (activeClients w) with
          | Some bundle =>
              (createSmsBinding binding bundle sessionID (uuid w 0%nat) pf w3).2
          | None => w3
          end in
        (1 <= String.length safeName <= 100)%nat
        /\ formatted (validateAndFormatPhone (default EmptyString phone)) = Some pf
        /\ matchBirthday (default EmptyString birthday) = Some (y, month, day)
        /\ validBirthday (month, day)
        /\ list_find (fun c => Contact.phone c = pf) (contacts (data w)) = None
        /\ postContacts binding sessionID name phone birthday w
           = (ContactCreated contact (scheduleMessagesForContact (uuid w 0%nat) w4).1 pf
                (countryHint (validateAndFormatPhone (default EmptyString phone))),
              (scheduleMessagesForContact (uuid w 0%nat) w4).2)).
Proof.
  unfold postContacts.
  destruct (negb (truthy_opt name) || negb (truthy_opt phone) || negb (truthy_opt birthday));
    [left; eexists _, _; split; [reflexivity|by left]|].
  destruct ((String.length (trimString (default EmptyString name)) =? 0)%nat
            || (100 <? String.length (trimString (default EmptyString name)))%nat) eqn:Hname;
    [left; eexists _, _; split; [reflexivity|by left]|].
  apply orb_false_iff in Hname as [Hn1%Nat.eqb_neq Hn2%Nat.ltb_ge].
  destruct (validateAndFormatPhone_cases (default EmptyString phone))
    as [[e He]|(d & hint & Hv & _ & _)]; rewrite ?He, ?Hv; cbn [valid formatted negb orb];
    [left; eexists _, _; split; [reflexivity|by left]|].
  set (pf := string_of_list_ascii ("+"%char :: d)).
  assert (truthy_opt (Some pf) = true) as -> by done. cbn [negb default from_option id].
  destruct (matchBirthday (default EmptyString birthday)) as [[[y month] day]|] eqn:Hb;
    [|left; eexists _, _; split; [reflexivity|by left]].
  destruct ((month <? 1) || (12 <? month) || (day <? 1) || (31 <? day)) eqn:Hrange;
    [left; eexists _, _; split; [reflexivity|by left]|].
  rewrite bind_run, getContacts_run. cbn [fst snd].
  destruct (list_find (fun c => Contact.phone c = pf) (contacts (data w))) as [[i c0]|] eqn:Hf.
  { left. eexists _, _. split; [reflexivity|by right]. }
  right. exists y, month, day, pf. cbv zeta.
  repeat apply orb_false_iff in Hrange as [Hrange ?].
  split_and!; [lia|lia|done|done|unfold validBirthday; cbn; lia|done|].
  cbn [fmap option_fmap option_map].
  rewrite !bind_run. unfold getSessionClient. cbn [fst snd uuidv4 now].
  assert (forall c w0, activeClients (addContact c w0).2 = activeClients w0) as Hac by done.
  rewrite !Hac. cbn [activeClients set_clock set_uuid].
  destruct (map_get sessionID (activeClients w)); rewrite ?bind_run; reflexivity.
Qed.

(** Whatever [scheduleMessagesForContact] finds for a known contact, it
    answers a stored "scheduled" occurrence of that contact, and it only
    ever appends to the messages. *)
Lemma scheduleMessagesForContact_known contactId w contact :
  findContact contactId w = Some contact ->
  exists m,
    (scheduleMessagesForContact contactId w).1 = Some m
    /\ m ∈ messages (data (scheduleMessagesForContact contactId w).2)
    /\ ScheduledMessage.status m = scheduled
    /\ ScheduledMessage.contactId m = contactId
    /\ contacts (data (scheduleMessagesForContact contactId w).2) = contacts (data w)
    /\ (messages (data (scheduleMessagesForContact contactId w).2) = messages (data w)
        \/ messages (data (scheduleMessagesForContact contactId w).2)
           = messages (data w) ++ [m]).
Proof.
  intros Hc.
  destruct (findScheduled contactId (getFullYear (LocalTZA w) (nextBirthdayIn w contact))
              (messages (data w))) as [m|] eqn:He.
  - rewrite (scheduleMessagesForContact_existing _ _ _ _ Hc He). exists m.
    apply findScheduled_Some in He as (? & ? & _ & ?). split_and!; try done. by left.
  - rewrite (scheduleMessagesForContact_created _ _ _ Hc He).
    exists (nextOccurrence w contact). cbn. split_and!; try done.
    + apply elem_of_app. right. apply list_elem_of_here.
    + by apply findContact_id in Hc as [-> _].
    + by right.
Qed.

(** X14: a refusal of [POST /api/contacts] has status 400 or 409 and has
    changed nothing: no contact or message is stored, and no identifier,
    clock reading or request is used. *)
Theorem postContacts_rejected binding sessionID name phone birthday w st msg :
  (postContacts binding sessionID name phone birthday w).1 = ContactRejected st msg ->
  (postContacts binding sessionID name phone birthday w).2 = w /\ (st = 400 \/ st = 409).
Proof.
  destruct (postContacts_cases binding sessionID name phone birthday w)
    as [(st' & msg' & -> & Hst)|(y & month & day & pf & H)].
  - cbn. by intros [= <- _].
  - cbv zeta in H. destruct H as (_ & _ & _ & _ & _ & ->). done.
Qed.

(** X15: a contact created by [POST /api/contacts] is stored last, under a
    fresh identifier, with the trimmed name of 1 to 100 characters, the
    formatted phone number, which no contact stored before has, and a
    month from 1 to 12 and a day from 1 to 31 read from the YYYY-MM-DD
    text; and the answer carries a stored "scheduled" occurrence for it. *)
Theorem postContacts_created binding sessionID name phone birthday w c sch pf hint :
  (postContacts binding sessionID name phone birthday w).1 = ContactCreated c sch pf hint ->
  contacts (data (postContacts binding sessionID name phone birthday w).2)
  = contacts (data w) ++ [c]
  /\ Contact.id c = uuid w 0%nat
  /\ Contact.name c = trimString (default EmptyString name)
  /\ (1 <= String.length (Contact.name c) <= 100)%nat
  /\ Contact.phone c = pf
  /\ formatted (validateAndFormatPhone (default EmptyString phone)) = Some pf
  /\ (forall c0, c0 ∈ contacts (data w) -> Contact.phone c0 <> pf)
  /\ validBirthday (Contact.birthday c)
  /\ (exists y, matchBirthday (default EmptyString birthday)
                = Some (y, (Contact.birthday c).1, (Contact.birthday c).2))
  /\ exists m,
       sch = Some m
       /\ m ∈ messages (data (postContacts binding sessionID name phone birthday w).2)
       /\ ScheduledMessage.status m = scheduled
       /\ ScheduledMessage.contactId m = Contact.id c.
Proof.
  destruct (postContacts_cases binding sessionID name phone birthday w)
    as [(st' & msg' & -> & Hst)|(y & month & day & pf' & H)]; [done|].
  cbv zeta in H. destruct H as (Hname & Hpf & Hb & Hvalid & Hfind & ->).
  cbn [fst snd]. intros [= <- <- <- <-].
  set (contact := Contact.mk _ _ _ _ _ _).
  set (w4 := match map_get sessionID (activeClients w) with Some _ => _ | None => _ end).
  assert (contacts (data w4) = contacts (data w) ++ [contact]) as Hc4.
  { subst w4. destruct (map_get sessionID (activeClients w)) as [b|]; [|done].
    by destruct (createSmsBinding_sameStore binding b sessionID (uuid w 0%nat) pf'
                   (addContact contact (now (uuidv4 w).2).2).2) as (_ & -> & _). }
  assert (exists c0, findContact (uuid w 0%nat) w4 = Some c0) as [c0 Hc0].
  { unfold findContact. rewrite Hc4.
    destruct (list_find_elem_of (fun c => Contact.id c = uuid w 0%nat)
                (contacts (data w) ++ [contact]) contact) as [[i c0] ->]; [|done|by exists c0].
    apply elem_of_app. right. apply list_elem_of_here. }
  destruct (scheduleMessagesForContact_known _ _ _ Hc0) as (m & -> & Hin & Hs & Hid & Hcs & _).
  rewrite Hcs, Hc4. destruct Hname. split_and!; try done.
  - apply list_find_None in Hfind. rewrite Forall_forall in Hfind. exact Hfind.
  - by exists y.
  - by exists m.
Qed.

End Contacts.

(** * What code leaves as it is *)

Section Keeping.

Implicit Types (w : World).

Lemma keeps_ret {A B} (f : World -> B) (a : A) : keeps f (mret a : M A).
Proof. by intros w. Qed.

Lemma keeps_bind {A B C} (f : World -> C) (m : M A) (k : A -> M B) :
  keeps f m -> (forall a, keeps f (k a)) -> keeps f (m ≫= k).
Proof. intros Hm Hk w. rewrite bind_run. by rewrite Hk, Hm. Qed.

Lemma keeps_forEach {A B} (f : World -> B) (g : A -> M unit) (l : list A) :
  (forall x, keeps f (g x)) -> keeps f (forEach g l).
Proof.
  intros Hg. induction l as [|x l IH]; [apply keeps_ret|].
  cbn [forEach]. apply keeps_bind; [apply Hg|by intros _].
Qed.

(** [updateMessage] writes the messages and nothing else. *)
Lemma keeps_updateMessage {B} (f : World -> B) x u :
  (forall msgs w, f (set_messages msgs w) = f w) -> keeps f (updateMessage x u).
Proof.
  intros Hf w. unfold updateMessage. rewrite bind_run. cbn [loadData fst snd].
  destruct (list_find _ _) as [[i m]|]; [|done]. apply Hf.
Qed.

Lemma keepsContacts_sendBirthdaySms bundle sessionId contactId phoneE164 messageBody :
  keeps storedContacts (sendBirthdaySms bundle sessionId contactId phoneE164 messageBody).
Proof.
  intros w.
  by destruct (sendBirthdaySms_sameStore bundle sessionId contactId phoneE164 messageBody w)
    as (_ & ? & _).
Qed.

Lemma keepsContacts_ensureNotifyService bundle sessionId :
  keeps storedContacts (ensureNotifyService bundle sessionId).
Proof. intros w. by destruct (ensureNotifyService_sameStore bundle sessionId w) as (_ & ? & _). Qed.

End Keeping.

(** Walks through code built from binds, loops over lists and case
    distinctions down to the calls that keep the component. *)
Ltac keeps :=
  repeat first
    [ apply keeps_ret
    | apply keeps_updateMessage; solve [intros ? ?; reflexivity]
    | apply keepsContacts_sendBirthdaySms
    | apply keepsContacts_ensureNotifyService
    | solve [intros ?; reflexivity]
    | apply keeps_forEach; intros ?
    | apply keeps_bind; [|intros ?]
    | progress case_match ].

(** * Invariants of the store along requests *)

Section RequestInvariants.

Implicit Types (w : World) (c : Contact.t).

Lemma keepsContacts_scheduleMessagesForContact contactId :
  keeps storedContacts (scheduleMessagesForContact contactId).
Proof. unfold scheduleMessagesForContact, generateBirthdayMessage. keeps. Qed.

Lemma keepsContacts_scheduleEach cs acc : keeps storedContacts (scheduleEach cs acc).
Proof.
  revert acc. induction cs as [|c cs IH]; intros acc; [apply keeps_ret|].
  cbn [scheduleEach].
  apply keeps_bind; [apply keepsContacts_scheduleMessagesForContact|intros r; apply IH].
Qed.

Ltac keeps_all :=
  repeat first
    [ apply keepsContacts_scheduleMessagesForContact
    | apply keeps_ret
    | apply keeps_updateMessage; solve [intros ? ?; reflexivity]
    | apply keepsContacts_sendBirthdaySms
    | apply keepsContacts_ensureNotifyService
    | solve [intros ?; reflexivity]
    | apply keeps_forEach; intros ?
    | apply keeps_bind; [|intros ?]
    | progress case_match ].

Lemma keepsContacts_processDueMessages : keeps storedContacts processDueMessages.
Proof. unfold processDueMessages, processDueMessage, markSent, markFailed. keeps_all. Qed.

Lemma keepsContacts_postSendNow sessionID contactId messageBody :
  keeps storedContacts (postSendNow sessionID contactId messageBody).
Proof. unfold postSendNow, generateBirthdayMessage, markSent, markFailed. keeps_all. Qed.

Lemma keepsContacts_fireTimer n : keeps storedContacts (fireTimer n).
Proof. unfold fireTimer, deliveredCallback. keeps_all. Qed.

Lemma keepsContacts_postCancel x : keeps storedContacts (postCancel x).
Proof. unfold postCancel. keeps_all. Qed.

Lemma keepsContacts_postLogin sessionID a t m : keeps storedContacts (postLogin sessionID a t m).
Proof. unfold postLogin. keeps_all. Qed.

Lemma keepsContacts_authGuard path creds sessionID :
  keeps storedContacts (authGuard path creds sessionID).
Proof. unfold authGuard. keeps_all. Qed.

(** The only operations that change the contacts are the deletion and the
    creation of a contact. *)
Lemma contacts_of_runOp op w :
  contacts (data (runOp op w).2) = contacts (data w)
  \/ exists x, op = DeleteContact x
               /\ contacts (data (runOp op w).2) = contacts (data (removeContact x w).2).
Proof.
  destruct op; cbn [runOp].
  - left. rewrite bind_run. apply keepsContacts_scheduleMessagesForContact.
  - left. unfold postScheduleAll, scheduleAllContacts. rewrite !bind_run.
    cbn [mret M_ret snd]. apply keepsContacts_scheduleEach.
  - left. apply keepsContacts_processDueMessages.
  - left. rewrite bind_run. apply keepsContacts_postCancel.
  - right. exists id. split; [done|]. unfold deleteContact. rewrite !bind_run.
    by destruct (removeContact id w).1.
  - left. apply keepsContacts_fireTimer.
  - left. rewrite bind_run. apply keepsContacts_postSendNow.
Qed.

Lemma contactsValid_removeContact x w :
  contactsValid w -> contactsValid (removeContact x w).2.
Proof.
  intros [Hnd Hall]. unfold removeContact. rewrite bind_run. cbn [loadData fst snd].
  destruct (list_find _ _) as [[idx c]|]; [|done].
  rewrite bind_run. split; cbn.
  - eapply sublist_NoDup; [exact Hnd|]. apply fmap_sublist, sublist_delete.
  - rewrite Forall_forall in Hall. apply Forall_forall. intros c' Hc'. apply Hall.
    eapply elem_of_sublist; [exact Hc'|apply sublist_delete].
Qed.

Lemma contactsValid_same w w' :
  contacts (data w') = contacts (data w) -> contactsValid w -> contactsValid w'.
Proof. unfold contactsValid. by intros ->. Qed.

Lemma contactsValid_postContacts binding sessionID name phone birthday w :
  contactsValid w -> contactsValid (postContacts binding sessionID name phone birthday w).2.
Proof.
  intros [Hnd Hall].
  destruct (postContacts_cases binding sessionID name phone birthday w)
    as [(st & msg & -> & _)|(y & month & day & pf & H)]; [done|].
  cbv zeta in H. destruct H as (Hname & Hpf & Hb & Hvalid & Hfind & Hrun).
  rewrite Hrun. cbn [snd]. unfold contactsValid.
  set (contact := Contact.mk _ _ _ _ _ _).
  set (w4 := match map_get sessionID (activeClients w) with Some _ => _ | None => _ end).
  assert (contacts (data w4) = contacts (data w) ++ [contact]) as Hc4.
  { subst w4. destruct (map_get sessionID (activeClients w)) as [b|]; [|done].
    by destruct (createSmsBinding_sameStore binding b sessionID (uuid w 0%nat) pf
                   (addContact contact (now (uuidv4 w).2).2).2) as (_ & -> & _). }
  assert (contacts (data (scheduleMessagesForContact (uuid w 0%nat) w4).2)
          = contacts (data w4)) as -> by apply keepsContacts_scheduleMessagesForContact.
  rewrite Hc4.
  assert (forall c0, c0 ∈ contacts (data w) -> Contact.phone c0 <> pf) as Hnew.
  { apply list_find_None in Hfind. rewrite Forall_forall in Hfind. exact Hfind. }
  subst contact. split.
  - rewrite fmap_app. apply NoDup_app. split_and!; [done| |apply NoDup_singleton].
    intros p (c0 & -> & Hc0)%list_elem_of_fmap Heq%list_elem_of_singleton. by apply (Hnew c0).
  - apply Forall_app. split; [done|]. apply Forall_singleton. destruct Hname.
    split_and!; [done..|].
    destruct (validateAndFormatPhone_cases (default EmptyString phone))
      as [[e He]|(d & hint & Hv & Hd & Hlen)]; [by rewrite He in Hpf|].
    rewrite Hv in Hpf. cbn [formatted] in Hpf. exists d.
    split; [cbn [Contact.phone]; congruence|by split].
Qed.

(** X16: along every sequence of requests, the stored contacts keep what
    the contact route checks: no two contacts have the same phone number,
    every phone number is "+" and 7 to 15 digits, every birthday has a
    month from 1 to 12 and a day from 1 to 31, every name has 1 to 100
    characters.  It holds of the empty store. *)
Theorem contacts_stay_valid (rs : list Request) (w : World) :
  contactsValid w -> contactsValid (runRequests rs w).
Proof.
  revert w. induction rs as [|r rs IH]; intros w Hw; [done|].
  cbn [runRequests foldl]. apply IH. clear IH.
  destruct r as [op| | | |]; cbn [runRequest].
  - destruct (contacts_of_runOp op w) as [H|(x & -> & H)].
    + by eapply contactsValid_same.
    + eapply contactsValid_same; [exact H|]. by apply contactsValid_removeContact.
  - rewrite bind_run. by apply contactsValid_postContacts.
  - rewrite bind_run. eapply contactsValid_same; [|done]. apply keepsContacts_postLogin.
  - by rewrite !bind_run.
  - rewrite bind_run. eapply contactsValid_same; [|done]. apply keepsContacts_authGuard.
Qed.

End RequestInvariants.

(** * Reading back the stored date-time text *)

Section IsoRoundTrip.

Import JSDate.

(** The calendar fields of a time value make up its day number. *)
Lemma date_fields_recompose t :
  0 <= MonthFromTime t <= 11
  /\ 1 <= DateFromTime t <= DaysInMonth (YearFromTime t) (MonthFromTime t)
  /\ MakeDay (YearFromTime t) (MonthFromTime t) (DateFromTime t) = Day t.
Proof.
  pose proof (YearFromDay_spec (Day t)) as Hy. fold (YearFromTime t) in Hy.
  rewrite DayFromYear_succ in Hy.
  unfold DateFromTime, MonthFromTime, InLeapYear, DayWithinYear.
  set (y := YearFromTime t) in *.
  set (k := Day t - DayFromYear y).
  assert (0 <= k < DaysInYear y) as Hk by (unfold k; lia).
  assert (Day t = DayFromYear y + k) as -> by (unfold k; lia).
  clearbody k. clear Hy. unfold DaysInYear in Hk.
  set (leap := if isLeapYear y then 1 else 0).
  assert (0 <= monthOfYearDay k leap <= 11) as Hm.
  { unfold monthOfYearDay. repeat case_match; lia. }
  split; [done|]. rewrite MakeDay_date, MakeDay_in_range by done. fold leap.
  split; [|lia].
  unfold DaysInMonth, leap, monthOfYearDay, daysBeforeMonth.
  destruct (isLeapYear y); repeat case_match; cbn in *; lia.
Qed.

Lemma time_fields_recompose t :
  MakeDate (Day t)
    (MakeTime (HourFromTime t) (MinFromTime t) (SecFromTime t) (msFromTime t)) = t
  /\ 0 <= HourFromTime t <= 23 /\ 0 <= MinFromTime t <= 59
  /\ 0 <= SecFromTime t <= 59 /\ 0 <= msFromTime t <= 999.
Proof.
  unfold MakeDate, MakeTime, Day, HourFromTime, MinFromTime, SecFromTime, msFromTime,
    msPerDay, msPerHour, msPerMinute, msPerSecond.
  split_and!; Z.div_mod_to_equations; lia.
Qed.

Lemma digitChar_not_sign n c : digitVal c = None -> digitChar n <> c.
Proof. intros Hc <-. by rewrite digitVal_digitChar in Hc. Qed.

Lemma two_digits n :
  0 <= n <= 99 -> 10 * (10 * 0 + (n / 10) mod 10) + n mod 10 = n.
Proof. intros. Z.div_mod_to_equations. lia. Qed.

Lemma three_digits n :
  0 <= n <= 999 ->
  10 * (10 * (10 * 0 + (n / 10 / 10) mod 10) + (n / 10) mod 10) + n mod 10 = n.
Proof. intros. Z.div_mod_to_equations. lia. Qed.

Lemma four_digits n :
  0 <= n <= 9999 ->
  10 * (10 * (10 * (10 * 0 + (n / 10 / 10 / 10) mod 10) + (n / 10 / 10) mod 10)
        + (n / 10) mod 10) + n mod 10 = n.
Proof. intros. Z.div_mod_to_equations. lia. Qed.

(** The date-time text of valid fields, a year of four digits among
    them, is read back as the time value of those fields. *)
Lemma parse_iso_text y mo d h mi s ms :
  0 <= y <= 9999 -> 1 <= mo <= 12 -> 1 <= d <= DaysInMonth y (mo - 1) ->
  0 <= h <= 23 -> 0 <= mi <= 59 -> 0 <= s <= 59 -> 0 <= ms <= 999 ->
  parse (digits 4 y +:+ "-" +:+ digits 2 mo +:+ "-" +:+ digits 2 d +:+ "T"
         +:+ digits 2 h +:+ ":" +:+ digits 2 mi +:+ ":" +:+ digits 2 s +:+ "."
         +:+ digits 3 ms +:+ "Z")
  = Some (MakeDate (MakeDay y (mo - 1) d) (MakeTime h mi s ms)).
Proof.
  intros Hy Hmo Hd Hh Hmi Hs Hms.
  assert (DaysInMonth y (mo - 1) <= 31) as Hdim
    by (unfold DaysInMonth; repeat case_match; lia).
  cbv [digits String.append].
  unfold parse, charIs. cbn [String.get].
  rewrite !(bool_decide_eq_false_2 (Some (digitChar _) = Some _))
    by (intros [= H]; by apply digitChar_not_sign in H).
  cbv beta iota zeta. cbn [String.length Nat.add]. rewrite decide_True by done.
  unfold field. cbn [substring String.length Nat.add]. rewrite !decide_True by done.
  cbn [parseDigits mbind option_bind]. rewrite !digitVal_digitChar.
  cbn [parseDigits mbind option_bind].
  rewrite (four_digits y), (three_digits ms), !two_digits by lia.
  rewrite Z.mul_1_l, !bool_decide_eq_true_2 by done.
  replace (1 <=? mo) with true by (symmetry; apply Z.leb_le; lia).
  replace (mo <=? 12) with true by (symmetry; apply Z.leb_le; lia).
  replace (1 <=? d) with true by (symmetry; apply Z.leb_le; lia).
  replace (d <=? DaysInMonth y (mo - 1)) with true by (symmetry; apply Z.leb_le; lia).
  replace (h <=? 23) with true by (symmetry; apply Z.leb_le; lia).
  replace (mi <=? 59) with true by (symmetry; apply Z.leb_le; lia).
  replace (s <=? 59) with true by (symmetry; apply Z.leb_le; lia).
  done.
Qed.

(** The text that [toISOString] writes for an instant whose UTC year
    has four digits is read back by [new Date(text)] as that instant. *)
Lemma parse_toISOString t :
  0 <= YearFromTime t <= 9999 -> parse (toISOString t) = Some t.
Proof.
  intros Hy. unfold toISOString, isoYear.
  replace ((0 <=? YearFromTime t) && (YearFromTime t <=? 9999)) with true
    by (symmetry; apply andb_true_iff; lia).
  destruct (date_fields_recompose t) as (Hm & Hd & Hday).
  destruct (time_fields_recompose t) as (Ht & Hh & Hmi & Hs & Hms).
  rewrite parse_iso_text; try done; try lia.
  - replace (MonthFromTime t + 1 - 1) with (MonthFromTime t) by lia.
    by rewrite Hday, Ht.
  - by replace (MonthFromTime t + 1 - 1) with (MonthFromTime t) by lia.
Qed.

End IsoRoundTrip.

(** * Scheduling and dispatch together *)

Section Dispatch.

Import JSDate.

Implicit Types (w : World) (m msg : ScheduledMessage.t) (contact : Contact.t).

(** X17: an occurrence that [scheduleMessagesForContact] creates, with a
    fire instant whose UTC year has four digits, is taken as due by the
    dispatch loop exactly from that instant on; at the clock reading of
    its creation it is not due. *)
Theorem scheduled_occurrence_due contactId w contact :
  findContact contactId w = Some contact ->
  validBirthday (Contact.birthday contact) ->
  findScheduled contactId (getFullYear (LocalTZA w) (nextBirthdayIn w contact))
    (messages (data w)) = None ->
  0 <= YearFromTime (nextBirthdayIn w contact) <= 9999 ->
  exists m,
    (scheduleMessagesForContact contactId w).1 = Some m
    /\ (forall now_, dueAt now_ m = (nextBirthdayIn w contact <=? now_))
    /\ dueAt (clock w 0%nat) m = false.
Proof.
  intros Hc Hv He Hy. rewrite (scheduleMessagesForContact_created _ _ _ Hc He).
  exists (nextOccurrence w contact). split; [done|].
  assert (forall now_, dueAt now_ (nextOccurrence w contact)
                       = (nextBirthdayIn w contact <=? now_)) as Hdue.
  { intros now_. unfold dueAt, nextOccurrence.
    cbn [ScheduledMessage.status ScheduledMessage.scheduledFor].
    rewrite bool_decide_eq_true_2 by done. by rewrite parse_toISOString. }
  split; [done|]. rewrite Hdue. apply Z.leb_gt.
  unfold nextBirthdayIn. destruct (Contact.birthday contact) as [month day].
  destruct Hv as [Hm Hd]. cbn in Hm, Hd.
  rewrite getNextBirthdayDate_eq.
  destruct (candidate_bounds (LocalTZA w) (getFullYear (LocalTZA w) (clock w 0%nat))
              (month - 1) day (clock w 0%nat) ltac:(lia) Hd eq_refl) as (Hafter & _).
  generalize dependent (newDate (LocalTZA w) (getFullYear (LocalTZA w) (clock w 0%nat) + 1)
                          (month - 1) day 9 0 0).
  generalize (newDate (LocalTZA w) (getFullYear (LocalTZA w) (clock w 0%nat))
                (month - 1) day 9 0 0).
  intros cand next Hafter. destruct (Z.leb_spec cand (clock w 0%nat)); lia.
Qed.

Lemma keepsSendLog_scheduleMessagesForContact contactId :
  keeps sendLog (scheduleMessagesForContact contactId).
Proof. unfold scheduleMessagesForContact, generateBirthdayMessage. keeps. Qed.

(** The loop body calls the send once for a due message and not at all
    for another. *)
Lemma sendLog_processDueMessage bundle now_ msg w :
  sendLog (processDueMessage bundle now_ msg w).2
  = sendLog w ++ (if dueAt now_ msg
                  then [(ScheduledMessage.phone msg, ScheduledMessage.messageBody msg)]
                  else []).
Proof.
  rewrite processDueMessage_run. cbn [snd].
  destruct (dueAt now_ msg); [|by rewrite app_nil_r].
  assert (sendLog (sendOutcome bundle w msg).2
          = sendLog w ++ [(ScheduledMessage.phone msg, ScheduledMessage.messageBody msg)])
    as Hout.
  { unfold sendOutcome. rewrite sendBirthdaySms_sendLog. f_equal.
    unfold claimed. by apply keeps_updateMessage. }
  destruct (success (sendOutcome bundle w msg).1).
  - transitivity (sendLog (sentWorld bundle w msg)).
    + unfold rearmed. destruct (findContact _ _); [|done].
      apply keepsSendLog_scheduleMessagesForContact.
    + rewrite <- Hout. unfold sentWorld.
      assert (forall x r, keeps sendLog (markSent x r)) as Hk
        by (intros; unfold markSent, setTimeoutDelivered; keeps).
      apply Hk.
  - rewrite <- Hout. unfold failedWorld, markFailed. by apply keeps_updateMessage.
Qed.

(** X18: a dispatch cycle calls the send exactly once for each message that
    is due in the list read at its start, in the order of the list, with
    the phone number and the body of that message, and for no other
    message. *)
Theorem cycle_sends_due_messages w :
  sendLog (processDueMessages w).2
  = sendLog w
    ++ ((fun m => (ScheduledMessage.phone m, ScheduledMessage.messageBody m))
          <$> filter (fun m => dueAt (clock w 0%nat) m = true) (messages (data w))).
Proof.
  rewrite processDueMessages_run.
  change (sendLog w) with (sendLog (set_clock (streamTail (clock w)) w)).
  generalize (set_clock (streamTail (clock w)) w) as w0.
  generalize (snd <$> head (activeClients w)) as bundle.
  generalize (clock w 0%nat) as now_.
  induction (messages (data w)) as [|msg l IH]; intros now_ bundle w0.
  - by rewrite app_nil_r.
  - cbn [forEach]. rewrite bind_run, IH, sendLog_processDueMessage, <- app_assoc. f_equal.
    destruct (dueAt now_ msg) eqn:Hd.
    + by rewrite filter_cons_True by done.
    + by rewrite filter_cons_False by (by rewrite Hd).
Qed.

(** X19: a dispatch cycle that finds no message due reads the clock once
    and changes nothing else: no message is rewritten, nothing is sent,
    no callback is armed. *)
Theorem cycle_without_due_messages w :
  (forall m, m ∈ messages (data w) -> dueAt (clock w 0%nat) m = false) ->
  processDueMessages w = (tt, cycleStart w).
Proof.
  intros Hnone. rewrite processDueMessages_run. apply forEach_skip.
  intros m w' Hm. rewrite processDueMessage_run. by rewrite (Hnone m Hm).
Qed.

(** The loop of [scheduleAllContacts]: one occurrence is answered for
    each contact, the contacts stay, the messages only grow. *)
Lemma scheduleEach_covers cs acc w :
  (forall c, c ∈ cs -> c ∈ contacts (data w)) ->
  contacts (data (scheduleEach cs acc w).2) = contacts (data w)
  /\ messages (data w) `prefix_of` messages (data (scheduleEach cs acc w).2)
  /\ exists ms,
       (scheduleEach cs acc w).1 = acc ++ ms
       /\ Forall2 (fun c m => ScheduledMessage.contactId m = Contact.id c
                              /\ ScheduledMessage.status m = scheduled
                              /\ m ∈ messages (data (scheduleEach cs acc w).2)) cs ms.
Proof.
  revert acc w. induction cs as [|c cs IH]; intros acc w Hin.
  - cbn. split_and!; [done..|]. exists []. by rewrite app_nil_r.
  - cbn [scheduleEach]. rewrite bind_run.
    assert (exists c', findContact (Contact.id c) w = Some c') as [c' Hc'].
    { unfold findContact.
      destruct (list_find_elem_of (fun x => Contact.id x = Contact.id c) (contacts (data w)) c)
        as [[i c'] ->]; [apply Hin, list_elem_of_here|done|by exists c']. }
    destruct (scheduleMessagesForContact_known _ _ _ Hc') as (m & Hr & Hm & Hs & Hid & Hcs & Hms).
    rewrite Hr. set (w1 := (scheduleMessagesForContact (Contact.id c) w).2) in *.
    destruct (IH (acc ++ [m]) w1) as (Hcs' & Hpre & ms & Hres & Hall).
    { intros x Hx. rewrite Hcs. apply Hin. by apply list_elem_of_further. }
    assert (messages (data w) `prefix_of` messages (data w1)) as Hpre1.
    { destruct Hms as [->| ->]; [done|by apply prefix_app_r]. }
    split_and!; [congruence|by etrans|].
    exists (m :: ms). split; [by rewrite Hres, <- app_assoc|].
    constructor; [|done]. split_and!; [done..|].
    destruct Hpre as [k ->]. apply elem_of_app. by left.
Qed.

(** X20: [scheduleAllContacts] answers one "scheduled" occurrence for each
    stored contact, in the order of the contacts, each stored when it
    returns; it leaves the contacts as they are and only appends to the
    messages. *)
Theorem scheduleAllContacts_covers w :
  contacts (data (scheduleAllContacts w).2) = contacts (data w)
  /\ messages (data w) `prefix_of` messages (data (scheduleAllContacts w).2)
  /\ Forall2 (fun c m => ScheduledMessage.contactId m = Contact.id c
                         /\ ScheduledMessage.status m = scheduled
                         /\ m ∈ messages (data (scheduleAllContacts w).2))
       (contacts (data w)) (scheduleAllContacts w).1.
Proof.
  unfold scheduleAllContacts. rewrite bind_run, getContacts_run. cbn [fst snd].
  destruct (scheduleEach_covers (contacts (data w)) [] w) as (Hc & Hp & ms & Hr & Hall);
    [done|].
  rewrite Hr. by split_and!.
Qed.

Lemma postCancel_run id w :
  match list_find (fun m => ScheduledMessage.id m = id) (messages (data w)) with
  | None => postCancel id w = (404, w)
  | Some (i, m) =>
      if decide (ScheduledMessage.status m = scheduled) then
        postCancel id w
        = (200, set_messages (<[i := with_status cancelled m]> (messages (data w))) w)
      else postCancel id w = (400, w)
  end.
Proof.
  unfold postCancel. rewrite bind_run, getMessages_run. cbn [fst snd].
  destruct (list_find _ _) as [[i m]|] eqn:Hf; cbn [fmap option_fmap option_map snd];
    [|done].
  case_decide as Hs; case_decide as Hs'; try done.
  rewrite bind_run.
  pose proof Hf as (_ & Hid & _)%list_find_Some. rewrite Hid.
  rewrite (updateMessage_at _ _ _ _ _ Hf). by rewrite spread_only_status.
Qed.

(** X21: [POST /api/messages/:id/cancel] never changes a message that is
    not "scheduled" or that has another id; it answers 200 exactly when
    the first message with the id is "scheduled", and that message is then
    "cancelled" with its other fields kept; it answers 404 exactly when no
    message has the id; when it does not answer 200 it has changed
    nothing. *)
Theorem postCancel_cancels_only_scheduled id w :
  (forall j m, messages (data w) !! j = Some m ->
     ScheduledMessage.status m <> scheduled \/ ScheduledMessage.id m <> id ->
     messages (data (postCancel id w).2) !! j = Some m)
  /\ ((postCancel id w).1 = 200 <->
      exists i m, list_find (fun m => ScheduledMessage.id m = id) (messages (data w))
                  = Some (i, m)
                  /\ ScheduledMessage.status m = scheduled
                  /\ messages (data (postCancel id w).2) !! i
                     = Some (with_status cancelled m))
  /\ ((postCancel id w).1 = 404 <->
      forall m, m ∈ messages (data w) -> ScheduledMessage.id m <> id)
  /\ ((postCancel id w).1 <> 200 -> (postCancel id w).2 = w).
Proof.
  pose proof (postCancel_run id w) as Hrun.
  destruct (list_find _ _) as [[i m]|] eqn:Hf.
  - pose proof Hf as (Hi & Hid & _)%list_find_Some.
    assert (~ forall m0, m0 ∈ messages (data w) -> ScheduledMessage.id m0 <> id) as Hex.
    { intros H. by apply (H m); [eapply list_elem_of_lookup_2|]. }
    case_decide as Hs; rewrite Hrun; cbn [fst snd].
    + split_and!; [|split; [intros _|done]|split; [done|by intros ?]|done].
      * intros j m' Hj Hne. cbn. destruct (decide (j = i)) as [->|Hji].
        -- assert (m' = m) as -> by congruence. by destruct Hne.
        -- by rewrite list_lookup_insert_ne.
      * exists i, m. split_and!; [done..|]. cbn.
        apply list_lookup_insert_eq. by eapply lookup_lt_Some.
    + split_and!; [done| |split; [done|by intros ?]|done].
      split; [done|]. intros (i' & m' & [= -> ->] & Hs' & _). done.
  - rewrite Hrun. cbn [fst snd]. split_and!; [done| | |done].
    + split; [done|]. by intros (? & ? & ? & _).
    + split; [intros _|done]. apply list_find_None in Hf. rewrite Forall_forall in Hf. exact Hf.
Qed.

(** X22: [removeContact] answers false exactly when no contact has the id,
    and then leaves the store as it is; otherwise it takes out the first
    contact that has the id and keeps every other contact, in order. *)
Theorem removeContact_contacts id w :
  ((removeContact id w).1 = false <->
   forall c, c ∈ contacts (data w) -> Contact.id c <> id)
  /\ ((removeContact id w).1 = false -> (removeContact id w).2 = w)
  /\ ((removeContact id w).1 = true ->
      exists idx c,
        contacts (data w) !! idx = Some c /\ Contact.id c = id
        /\ (forall j c', contacts (data w) !! j = Some c' -> (j < idx)%nat ->
               Contact.id c' <> id)
        /\ contacts (data (removeContact id w).2) = delete idx (contacts (data w))).
Proof.
  unfold removeContact. rewrite bind_run. cbn [loadData fst snd].
  destruct (list_find _ _) as [[idx c]|] eqn:Hf.
  - rewrite bind_run. cbn [fst snd mret M_ret].
    pose proof Hf as (Hi & Hid & Hfirst)%list_find_Some.
    split_and!; [split; [done|]|done|intros _; by exists idx, c].
    intros H. by destruct (H c); [eapply list_elem_of_lookup_2|].
  - cbn [fst snd mret M_ret]. split_and!; [split; [intros _|done]|done..].
    apply list_find_None in Hf. rewrite Forall_forall in Hf. exact Hf.
Qed.

(** X23: in a well-formed world a delivered callback that fires finds its
    message in status "sent": the message becomes "delivered" with the
    clock reading as delivery time, every other message is kept, and the
    callback is no longer pending.  Firing where no callback is pending
    changes nothing. *)
Theorem fireTimer_delivers n w :
  wellFormed w ->
  match timers w !! n with
  | None => fireTimer n w = (tt, w)
  | Some id =>
      exists i m,
        messages (data w) !! i = Some m /\ ScheduledMessage.id m = id
        /\ ScheduledMessage.status m = sent
        /\ messages (data (fireTimer n w).2)
           = <[i := deliveredRecord m (clock w 0%nat)]> (messages (data w))
        /\ timers (fireTimer n w).2 = delete n (timers w)
  end.
Proof.
  intros Hw. unfold fireTimer. rewrite bind_run. cbn [fst snd].
  destruct (timers w !! n) as [id|] eqn:Hn; [|done].
  destruct Hw as (Hnd & _ & Htm & _).
  destruct (Htm id) as (m & Hm & Hid & Hs); [by eapply list_elem_of_lookup_2|].
  apply list_elem_of_lookup_1 in Hm as [i Hi].
  assert (list_find (fun m' => ScheduledMessage.id m' = id) (messages (data w)) = Some (i, m))
    as Hf.
  { apply list_find_Some. split_and!; [done..|]. intros j y Hj Hlt Hy.
    assert (i = j); [|lia].
    eapply (NoDup_lookup _ i j id); [exact Hnd|..];
      unfold ids; rewrite list_lookup_fmap; [by rewrite Hi, <- Hid|by rewrite Hj, <- Hy]. }
  exists i, m. split_and!; [done..| |].
  - rewrite !bind_run. unfold deliveredCallback. rewrite bind_run. cbn [fst snd now].
    rewrite (updateMessage_at _ _ _ i m) by done. destruct m; cbn in *. by subst.
  - rewrite !bind_run. unfold deliveredCallback. rewrite bind_run. cbn [fst snd now].
    by rewrite (updateMessage_at _ _ _ i m) by done.
Qed.

End Dispatch.

(** * The message invariants along requests *)

Section RequestSequences.

Implicit Types (w : World) (m msg : ScheduledMessage.t).

Lemma preserves_ensureNotifyService bundle sessionId :
  preserves uniqueScheduled (ensureNotifyService bundle sessionId).
Proof.
  apply preserves_same_messages. intros w.
  by destruct (ensureNotifyService_sameStore bundle sessionId w).
Qed.

Lemma preserves_postContacts binding sessionID name phone birthday :
  preserves uniqueScheduled (postContacts binding sessionID name phone birthday).
Proof.
  intros w Hw.
  destruct (postContacts_cases binding sessionID name phone birthday w)
    as [(st & msg & -> & _)|(y & month & day & pf & H)]; [done|].
  cbv zeta in H. destruct H as (_ & _ & _ & _ & _ & ->). cbn [snd].
  apply preserves_scheduleMessagesForContact. unfold uniqueScheduled in *.
  destruct (map_get sessionID (activeClients w)) as [b|]; [|done].
  by destruct (createSmsBinding_sameStore binding b sessionID (uuid w 0%nat) pf
                 (addContact (Contact.mk (uuid w 0%nat) (trimString (default EmptyString name))
                    pf (month, day) (default EmptyString birthday)
                    (JSDate.toISOString (clock w 0%nat))) (now (uuidv4 w).2).2).2) as (-> & _).
Qed.

Lemma preserves_runRequest r : preserves uniqueScheduled (runRequest r).
Proof.
  destruct r as [op| | | |]; cbn [runRequest].
  - apply preserves_runOp.
  - apply preserves_bind; [apply preserves_postContacts|intros; apply preserves_ret].
  - apply preserves_bind; [|intros; apply preserves_ret].
    unfold postLogin. repeat case_match; try apply preserves_ret.
    apply preserves_bind; [apply preserves_ensureNotifyService|intros r].
    case_match; [apply preserves_ret|].
    apply preserves_bind; [by apply preserves_same_messages|intros; apply preserves_ret].
  - by apply preserves_same_messages.
  - apply preserves_bind; [|intros; apply preserves_ret].
    unfold authGuard. repeat case_match; try apply preserves_ret.
    apply preserves_bind; [by apply preserves_same_messages|intros e].
    case_match; [apply preserves_ret|].
    apply preserves_bind; [by apply preserves_same_messages|intros; apply preserves_ret].
Qed.

(** X24: the store keeps at most one "scheduled" occurrence per contact id
    and year along every sequence of requests, those of the contact and
    account routes included: creating a contact schedules through the
    same check as every other path. *)
Theorem unique_scheduled_along_requests (rs : list Request) (w : World) :
  atMostOneScheduled (messages (data w)) ->
  atMostOneScheduled (messages (data (runRequests rs w))).
Proof.
  revert w. induction rs as [|r rs IH]; intros w Hw; [done|].
  cbn [runRequests foldl]. apply IH. by apply (preserves_runRequest r w).
Qed.

(** Taking an identifier that is then not stored as a message id. *)
Lemma wellFormed_next_uuid w w' :
  wellFormed w -> messages (data w') = messages (data w) -> timers w' = timers w ->
  uuid w' = streamTail (uuid w) -> wellFormed w'.
Proof.
  intros (Hnd & Hndt & Htm & Hfr & Hinj) Hm Ht Hu.
  unfold wellFormed, ids in *. rewrite Hm, Ht, Hu. split_and!; try done.
  - intros n. apply Hfr.
  - intros i j H. apply Hinj in H. lia.
Qed.

Lemma respects_ensureNotifyService bundle sessionId :
  respects (ensureNotifyService bundle sessionId).
Proof.
  apply respects_same. intros w.
  by destruct (ensureNotifyService_sameStore bundle sessionId w) as (? & _ & ? & ? & _).
Qed.

Lemma respects_postContacts binding sessionID name phone birthday :
  respects (postContacts binding sessionID name phone birthday).
Proof.
  intros w Hw.
  destruct (postContacts_cases binding sessionID name phone birthday w)
    as [(st & msg & -> & _)|(y & month & day & pf & H)]; [by apply respects_ret|].
  cbv zeta in H. destruct H as (_ & _ & _ & _ & _ & ->). cbn [snd].
  set (c := Contact.mk _ _ _ _ _ _).
  set (w3 := (addContact c (now (uuidv4 w).2).2).2).
  set (w4 := match map_get sessionID (activeClients w) with Some _ => _ | None => _ end).
  assert (messages (data w4) = messages (data w) /\ timers w4 = timers w
          /\ uuid w4 = streamTail (uuid w)) as (Hm & Ht & Hu).
  { subst w4. destruct (map_get sessionID (activeClients w)) as [b|]; [|done].
    by destruct (createSmsBinding_sameStore binding b sessionID (uuid w 0%nat) pf w3)
      as (-> & _ & -> & -> & _). }
  assert (wellFormed w4) as Hw4 by by eapply wellFormed_next_uuid.
  destruct (respects_scheduleMessagesForContact (uuid w 0%nat) w4 Hw4) as [Hw5 Ha5].
  split; [done|]. eapply advances_trans; [|exact Ha5]. by apply advances_same.
Qed.

Lemma respects_runRequest r : respects (runRequest r).
Proof.
  destruct r as [op| | | |]; cbn [runRequest].
  - apply respects_runOp.
  - apply respects_bind; [apply respects_postContacts|intros; apply respects_ret].
  - apply respects_bind; [|intros; apply respects_ret].
    unfold postLogin. repeat case_match; try apply respects_ret.
    apply respects_bind; [apply respects_ensureNotifyService|intros r].
    case_match; [apply respects_ret|].
    apply respects_bind; [by apply respects_same|intros; apply respects_ret].
  - by apply respects_same.
  - apply respects_bind; [|intros; apply respects_ret].
    unfold authGuard. repeat case_match; try apply respects_ret.
    apply respects_bind; [by apply respects_same|intros e].
    case_match; [apply respects_ret|].
    apply respects_bind; [by apply respects_same|intros; apply respects_ret].
Qed.

Lemma respects_runRequests rs w :
  wellFormed w -> wellFormed (runRequests rs w) /\ advances w (runRequests rs w).
Proof.
  revert w. induction rs as [|r rs IH]; intros w Hw.
  - split; [done|apply advances_refl].
  - cbn [runRequests foldl]. destruct (respects_runRequest r w Hw) as [Hw1 Ha1].
    destruct (IH _ Hw1) as [Hw2 Ha2]. split; [done|by eapply advances_trans].
Qed.

(** X25: along every sequence of requests from a well-formed world, each
    run to completion, no message is removed or moved, no message changes
    its id, and a status only moves forward in the state machine:
    "scheduled" to anything, "sending" to "sent", "delivered" or
    "failed", "sent" to "delivered", and nothing after "delivered",
    "failed" or "cancelled". *)
Theorem status_moves_forward_along_requests (rs1 rs2 : list Request) (w : World) i m :
  wellFormed w ->
  messages (data (runRequests rs1 w)) !! i = Some m ->
  exists m',
    messages (data (runRequests (rs1 ++ rs2) w)) !! i = Some m'
    /\ ScheduledMessage.id m' = ScheduledMessage.id m
    /\ status_le (ScheduledMessage.status m) (ScheduledMessage.status m').
Proof.
  intros Hw Hi. unfold runRequests. rewrite foldl_app. fold (runRequests rs1 w).
  fold (runRequests rs2 (runRequests rs1 w)).
  destruct (respects_runRequests rs1 w Hw) as [Hw1 _].
  destruct (respects_runRequests rs2 _ Hw1) as [_ Ha]. by apply Ha.
Qed.

End RequestSequences.

(** * The message text *)

Section MessageText.

Implicit Types (r s before pre rest : list ascii) (c : ascii).

Lemma getSubstitution_plain matched before after r :
  "$"%char ∉ r -> getSubstitution matched before after r = r.
Proof.
  induction r as [|c r IH]; [done|]. intros [Hc Hr]%not_elem_of_cons.
  cbn [getSubstitution]. rewrite bool_decide_eq_false_2 by done. by rewrite IH.
Qed.

(** Text without "{" is copied as it is. *)
Lemma replaceName_segment r before pre rest :
  "{"%char ∉ pre ->
  replaceName r 0 before (pre ++ rest) = pre ++ replaceName r 0 (before ++ pre) rest.
Proof.
  revert before. induction pre as [|c pre IH]; intros before Hpre.
  - by rewrite app_nil_r.
  - apply not_elem_of_cons in Hpre as [Hc Hpre].
    cbn [app replaceName]. rewrite bool_decide_eq_false_2.
    + rewrite IH by done. by rewrite <- app_assoc.
    + intros H. apply Hc. destruct pre as [|? ?]; cbn in H; by injection H.
Qed.

(** At the placeholder the substitution is written and the placeholder
    is passed over. *)
Lemma replaceName_match r before rest :
  replaceName r 0 before (namePlaceholder ++ rest)
  = getSubstitution namePlaceholder before rest r
    ++ replaceName r 0 (before ++ namePlaceholder) rest.
Proof.
  cbn [namePlaceholder list_ascii_of_string app replaceName take drop].
  rewrite bool_decide_eq_true_2 by done.
  by rewrite drop_0, <- !app_assoc.
Qed.

(** X26: in a template whose other text has no "{", [interpolateName]
    puts the name, without angle brackets and trimmed, in the place of
    every placeholder, when that name has no "$". *)
Theorem interpolateName_replaces_all segs name :
  Forall (fun seg => "{"%char ∉ seg) segs -> "$"%char ∉ safeName name ->
  interpolateName (string_of_list_ascii (joinWith namePlaceholder segs)) name
  = string_of_list_ascii (joinWith (safeName name) segs).
Proof.
  intros Hsegs Hname. unfold interpolateName. fold (safeName name).
  rewrite list_ascii_of_string_of_list_ascii. f_equal.
  generalize (@nil ascii) as before.
  induction Hsegs as [|seg segs Hseg _ IH]; intros before; [done|].
  destruct segs as [|seg' segs].
  - cbn [joinWith]. rewrite <- (app_nil_r seg) at 1.
    rewrite replaceName_segment by done. cbn. by rewrite app_nil_r.
  - change (joinWith ?sep (seg :: seg' :: segs))
      with (seg ++ sep ++ joinWith sep (seg' :: segs)).
    rewrite replaceName_segment, replaceName_match, getSubstitution_plain, IH by done.
    done.
Qed.

(** X27: a name that holds "$&" is not inserted as it is: the placeholder
    text itself comes out in the place of the "$&". *)
Theorem interpolateName_dollar_ampersand pre post a b name :
  "{"%char ∉ pre -> "{"%char ∉ post -> "$"%char ∉ a -> "$"%char ∉ b ->
  safeName name = a ++ ["$"; "&"]%char ++ b ->
  interpolateName (string_of_list_ascii (pre ++ namePlaceholder ++ post)) name
  = string_of_list_ascii (pre ++ a ++ namePlaceholder ++ b ++ post).
Proof.
  intros Hpre Hpost Ha Hb Hname. unfold interpolateName. fold (safeName name).
  rewrite list_ascii_of_string_of_list_ascii, Hname. f_equal.
  rewrite replaceName_segment, replaceName_match by done.
  rewrite <- (app_nil_r post) at 2. rewrite replaceName_segment by done.
  cbn [replaceName app]. rewrite app_nil_r. f_equal.
  assert (forall m bf af,
            getSubstitution m bf af (a ++ "$"%char :: "&"%char :: b) = a ++ m ++ b)
    as ->; [|by rewrite <- !app_assoc].
  intros m bf af. clear Hname. induction a as [|c a IH].
  - cbn. by rewrite getSubstitution_plain.
  - apply not_elem_of_cons in Ha as [Hc Ha]. cbn [app getSubstitution].
    rewrite bool_decide_eq_false_2 by done. by rewrite IH.
Qed.

Lemma trimStart_Forall (P : ascii -> Prop) s : Forall P s -> Forall P (trimStart s).
Proof. induction 1 as [|c s Hc Hs IH]; [done|]. cbn. case_match; [done|by constructor]. Qed.

Lemma trim_Forall (P : ascii -> Prop) s : Forall P s -> Forall P (trim s).
Proof.
  intros H. unfold trim. apply Forall_reverse, trimStart_Forall, Forall_reverse.
  by apply trimStart_Forall.
Qed.

Lemma safeName_noAngle name : Forall noAngle (safeName name).
Proof.
  apply trim_Forall, Forall_forall. by intros c [Hc _]%list_elem_of_filter.
Qed.

Lemma getSubstitution_Forall (P : ascii -> Prop) matched before after r :
  P "$"%char -> Forall P matched -> Forall P before -> Forall P after -> Forall P r ->
  Forall P (getSubstitution matched before after r).
Proof.
  intros Hd Hm Hb Ha.
  assert (forall n r, (length r <= n)%nat -> Forall P r ->
            Forall P (getSubstitution matched before after r)) as H; [|by apply (H (length r))].
  clear r. induction n as [|n IH]; intros r Hn Hr.
  - destruct r; [done|cbn in Hn; lia].
  - destruct Hr as [|c r Hc Hr]; [done|]. cbn [getSubstitution]. cbn in Hn.
    case_bool_decide; [|constructor; [done|apply IH; [lia|done]]].
    destruct Hr as [|d r Hd' Hr]; [by constructor|]. cbn in Hn.
    repeat case_bool_decide;
      first [ apply Forall_app; split; [done|apply IH; [lia|done]]
            | constructor; [done|apply IH; [cbn; lia|by constructor]]
            | constructor; [done|apply IH; [lia|done]] ].
Qed.

Lemma replaceName_Forall (P : ascii -> Prop) r skip before s :
  P "$"%char -> Forall P namePlaceholder ->
  Forall P r -> Forall P before -> Forall P s -> Forall P (replaceName r skip before s).
Proof.
  intros Hd Hph Hr Hb Hs. revert skip before Hb.
  induction Hs as [|c s Hc Hs IH]; intros skip before Hb; [done|].
  assert (Forall P (before ++ [c])) as Hb' by (apply Forall_app; split; [done|by constructor]).
  cbn [replaceName]. destruct skip as [|k]; [|by apply IH].
  case_bool_decide; [|constructor; [done|by apply IH]].
  apply Forall_app. split; [|by apply IH].
  apply getSubstitution_Forall; try done. apply Forall_drop. by constructor.
Qed.

(** X28: when the template has no angle bracket, the text that
    [interpolateName] makes has none, whatever the name holds. *)
Theorem interpolateName_noAngle template name :
  Forall noAngle (list_ascii_of_string template) ->
  Forall noAngle (list_ascii_of_string (interpolateName template name)).
Proof.
  intros Ht. unfold interpolateName. rewrite list_ascii_of_string_of_list_ascii.
  fold (safeName name).
  apply replaceName_Forall; [done|by repeat constructor|apply safeName_noAngle|done..].
Qed.

(** X29: [generateBirthdayMessage] answers one of the five templates with
    the name put in, without any angle bracket, and uses one random
    choice and nothing else. *)
Theorem generateBirthdayMessage_result name w :
  (exists t, t ∈ BIRTHDAY_MESSAGES
             /\ (generateBirthdayMessage name w).1 = interpolateName t name)
  /\ Forall noAngle (list_ascii_of_string (generateBirthdayMessage name w).1)
  /\ (generateBirthdayMessage name w).2 = set_random (streamTail (random w)) w.
Proof.
  unfold generateBirthdayMessage. rewrite bind_run. cbn [fst snd randomBelow mret M_ret].
  assert (exists t, BIRTHDAY_MESSAGES !! (random w 0 mod length BIRTHDAY_MESSAGES)%nat = Some t)
    as [t Ht].
  { apply lookup_lt_is_Some. apply Nat.mod_upper_bound. done. }
  rewrite Ht. cbn [default from_option id].
  assert (t ∈ BIRTHDAY_MESSAGES) as Hin by by eapply list_elem_of_lookup_2.
  split_and!; [by exists t| |done].
  unfold interpolateName. rewrite list_ascii_of_string_of_list_ascii. fold (safeName name).
  apply replaceName_Forall; [done|by repeat constructor|apply safeName_noAngle|done|].
  assert (Forall (fun t => Forall noAngle (list_ascii_of_string t)) BIRTHDAY_MESSAGES) as Hall.
  { repeat constructor; by vm_compute. }
  rewrite Forall_forall in Hall. by apply Hall.
Qed.

End MessageText.

(** * Sending at once *)

Section SendNow.

Implicit Types (w : World) (m msg : ScheduledMessage.t) (contact : Contact.t).

Lemma insert_last {A} (l : list A) (x y : A) : <[length l := y]> (l ++ [x]) = l ++ [y].
Proof. rewrite insert_app_r_alt by lia. by rewrite Nat.sub_diag. Qed.

(** A record stored last under an id that no message had is the one
    found under that id. *)
Lemma list_find_fresh_last (msgs : list ScheduledMessage.t) record :
  ScheduledMessage.id record ∉ ScheduledMessage.id <$> msgs ->
  list_find (fun m => ScheduledMessage.id m = ScheduledMessage.id record) (msgs ++ [record])
  = Some (length msgs, record).
Proof.
  intros Hfresh. rewrite list_find_app_r.
  - cbn. by rewrite decide_True.
  - apply list_find_None, Forall_forall. intros m Hm Hid. apply Hfresh.
    rewrite <- Hid. by apply list_elem_of_fmap_2.
Qed.

(** X30: a send-now for a known contact, with an identifier that no stored
    message has, stores one record more, the last, for that contact: it is
    "sent" with a sent time and a pending delivered callback when 200 is
    answered, and "failed" with an error text when 500 is answered; it is
    never left "sending", and the send is called once. *)
Theorem postSendNow_outcome sessionID contactId messageBody w contact :
  truthy contactId = true -> findContact contactId w = Some contact ->
  uuid w 0%nat ∉ ids w ->
  exists record,
    messages (data (postSendNow sessionID contactId messageBody w).2)
    = messages (data w) ++ [record]
    /\ ScheduledMessage.id record = uuid w 0%nat
    /\ ScheduledMessage.contactId record = Contact.id contact
    /\ ScheduledMessage.phone record = Contact.phone contact
    /\ length (sendLog (postSendNow sessionID contactId messageBody w).2)
       = S (length (sendLog w))
    /\ (((postSendNow sessionID contactId messageBody w).1 = 200
         /\ ScheduledMessage.status record = sent
         /\ is_Some (ScheduledMessage.sentAt record)
         /\ timers (postSendNow sessionID contactId messageBody w).2
            = timers w ++ [uuid w 0%nat])
        \/ ((postSendNow sessionID contactId messageBody w).1 = 500
            /\ ScheduledMessage.status record = failed
            /\ is_Some (ScheduledMessage.errorMessage record)
            /\ timers (postSendNow sessionID contactId messageBody w).2 = timers w)).
Proof.
  intros Ht Hc Hfresh. rewrite (postSendNow_run _ _ _ _ _ Ht Hc). cbv zeta.
  set (body := (sendNowBody messageBody contact w).1).
  set (record := sendNowRecord w contact body).
  set (out := sendNowOutcome sessionID w messageBody contact).
  assert (sameStore (sendNowStored w messageBody contact) out.2) as (Hm & _ & Htm & _)
    by apply sendBirthdaySms_sameStore.
  assert (sendLog out.2
          = sendLog (sendNowStored w messageBody contact) ++ [(Contact.phone contact, body)])
    as Hlog by apply sendBirthdaySms_sendLog.
  assert (success out.1 = false -> is_Some (error out.1)) as Hres
    by apply sendBirthdaySms_failure_text.
  destruct (sendNowBody_same w messageBody contact) as ((_ & _ & Htb & _) & _).
  assert (messages (data out.2) = messages (data w) ++ [record]) as Hmsgs by by rewrite Hm.
  assert (timers out.2 = timers w) as Htimers by by rewrite Htm.
  assert (length (sendLog out.2) = S (length (sendLog w))) as Hlen.
  { assert (sendLog (sendNowStored w messageBody contact) = sendLog w) as Hsl.
    { unfold sendNowStored, sendNowBody. by destruct (truthy_opt messageBody). }
    rewrite Hlog, length_app, Hsl. cbn. lia. }
  assert (list_find (fun m => ScheduledMessage.id m = uuid w 0%nat) (messages (data out.2))
          = Some (length (messages (data w)), record)) as Hf.
  { rewrite Hmsgs. by apply (list_find_fresh_last (messages (data w)) record). }
  assert (ScheduledMessage.id record = uuid w 0%nat
          /\ ScheduledMessage.contactId record = Contact.id contact
          /\ ScheduledMessage.phone record = Contact.phone contact) as (Hr1 & Hr2 & Hr3)
    by done.
  clearbody out record. clear Hm Htm Hlog.
  destruct (success out.1) eqn:Hs; cbn [fst snd].
  - exists (sentRecord record out.1 (clock out.2 0%nat)).
    unfold markSent, setTimeoutDelivered. rewrite !bind_run. cbn [fst snd now].
    rewrite (updateMessage_at _ _ _ _ record) by done. cbn. rewrite Hmsgs, insert_last.
    split_and!; try done.
    left. split_and!; [done..| |by rewrite Htimers]. by eexists.
  - exists (failedRecord record out.1).
    unfold markFailed. rewrite (updateMessage_at _ _ _ _ record) by done.
    cbn. rewrite Hmsgs, insert_last. specialize (Hres eq_refl).
    split_and!; try done.
    right. split_and!; [done..|exact Htimers].
Qed.

End SendNow.

(** ** A cancellation served during a dispatch cycle *)

Section ServedDuringCycle.

Implicit Types (w : World) (msg : ScheduledMessage.t).

(** With nothing served in between, the loop body and the cycle are the
    ones that run to completion. *)
Lemma processDueMessageServing_nothing bundle now_ msg w :
  processDueMessageServing (mret tt) bundle now_ msg w = processDueMessage bundle now_ msg w.
Proof.
  unfold processDueMessageServing, processDueMessage.
  case_decide; [done|]. destruct (JSDate.parse _) as [t|]; [|done].
  destruct (t <=? now_); [|done].
  rewrite !bind_run. reflexivity.
Qed.

Lemma forEach_ext {A} (f g : A -> M unit) (l : list A) w :
  (forall x w', f x w' = g x w') -> forEach f l w = forEach g l w.
Proof.
  intros Hfg. revert w. induction l as [|x l IH]; intros w; [done|].
  cbn [forEach]. rewrite !bind_run, Hfg. apply IH.
Qed.

Lemma processDueMessagesServing_nothing w :
  processDueMessagesServing (fun _ => mret tt) w = processDueMessages w.
Proof.
  unfold processDueMessagesServing, processDueMessages.
  rewrite !bind_run. apply forEach_ext. intros. apply processDueMessageServing_nothing.
Qed.

(** What is served during the send of a due message finds the message in
    status "sending" and the send made; the loop body writes the result
    back on the world that it leaves. *)
Lemma processDueMessageServing_due served bundle now_ msg w :
  dueAt now_ msg = true ->
  processDueMessageServing served bundle now_ msg w
  = (let out := sendOutcome bundle w msg in
     let w' := (served out.2).2 in
     if success out.1 then
       (markSent (ScheduledMessage.id msg) out.1;;
        contacts ← getContacts;
        match snd <$> list_find
                (fun c => Contact.id c = ScheduledMessage.contactId msg) contacts with
        | Some contact => scheduleMessagesForContact (Contact.id contact);; mret tt
        | None => mret tt
        end) w'
     else markFailed (ScheduledMessage.id msg) out.1 w').
Proof.
  unfold dueAt, processDueMessageServing, sendOutcome, claimed.
  intros [Hs Hd]%andb_prop. apply bool_decide_eq_true in Hs.
  rewrite decide_False by (by intros ?).
  destruct (JSDate.parse _) as [t|]; [|done]. rewrite Hd.
  rewrite !bind_run. cbn zeta. destruct (success _); rewrite ?bind_run; reflexivity.
Qed.

(** C4: a cancellation that is served while a dispatch cycle awaits the
    send of an earlier message is lost.  Alice's and Bob's occurrences
    are both due.  While the send of Alice's is awaited, Bob's is still
    "scheduled" in the store, the cancel route answers 200 and leaves it
    "cancelled".  The cycle then comes to its copy of Bob's occurrence
    from the list that it read at its start, finds it "scheduled" there,
    sends the message and stores the occurrence as "sent", with a
    delivered callback pending: a "cancelled" occurrence has changed its
    status, and the cancelled message has been sent. *)
Theorem cancel_during_send_is_overwritten :
  dueAt (clock worldTwoDue 0%nat) dueMessage = true
  /\ (postCancel "m-1"
        (sendOutcome (cycleBundle worldTwoDue) (cycleStart worldTwoDue) dueMessage).2).1 = 200
  /\ ScheduledMessage.status
       <$> messages (data (postCancel "m-1"
             (sendOutcome (cycleBundle worldTwoDue) (cycleStart worldTwoDue) dueMessage).2).2)
       = [sending; cancelled]
  /\ take 2 (ScheduledMessage.status
       <$> messages (data (processDueMessagesServing cancelOfBobComesIn worldTwoDue).2))
     = [sent; sent]
  /\ sendLog (processDueMessagesServing cancelOfBobComesIn worldTwoDue).2
     = [("+15550100", "Happy Birthday, Alice!"); ("+15550101", "Happy Birthday, Bob!")]
  /\ timers (processDueMessagesServing cancelOfBobComesIn worldTwoDue).2 = ["m-0"; "m-1"].
Proof. split_and!; vm_compute; reflexivity. Qed.

End ServedDuringCycle.

(** * Instances on the sample data *)

Section RouteSamples.

Import JSDate.

Lemma notify_service_is_shared_witness :
  (ensureNotifyService (mkBundle (mkCredentials "AC2" "token-2" "" None)) "session-2"
     (ensureNotifyService (mkBundle (mkCredentials "AC1" "token-1" "MG1" None)) "session-1"
        (set_serviceApi (fun _ => Responded (Some (Some "IS9"%string))) worldNew)).2).1
  = Some "IS9"%string.
Proof.
  apply (notify_service_is_shared (mkBundle (mkCredentials "AC1" "token-1" "MG1" None))
           "session-1" (mkBundle (mkCredentials "AC2" "token-2" "" None)) "session-2" "IS9"
           (set_serviceApi (fun _ => Responded (Some (Some "IS9"%string))) worldNew));
    try reflexivity.
  discriminate.
Defined.

Lemma sendBirthdaySms_without_service_witness :
  (sendBirthdaySms (Some (mkBundle (mkCredentials "AC1" "token-1" "" None))) "session-1"
     "c-1" "+15550100" "Hello" worldNew).1
  = mkSmsResult false None (Some "Notify service not available"%string).
Proof.
  apply (sendBirthdaySms_without_service (mkBundle (mkCredentials "AC1" "token-1" "" None))
           "session-1" "c-1" "+15550100" "Hello" worldNew).
  reflexivity.
Defined.

Lemma maskSid_shows_ends_witness :
  maskSid ("AC0123" +:+ "456789abcdef0123456789ab" +:+ "cdef") = "AC0123" +:+ "..." +:+ "cdef".
Proof. apply maskSid_shows_ends; reflexivity. Defined.

Lemma postContacts_rejected_witness :
  (postContacts (Responded None) "session-1" (Some "Bob"%string) (Some "12"%string)
     (Some "1990-01-01"%string) worldNew).2 = worldNew.
Proof.
  edestruct (postContacts_rejected (Responded None) "session-1" (Some "Bob"%string)
               (Some "12"%string) (Some "1990-01-01"%string) worldNew) as [H _];
    [vm_compute; reflexivity|exact H].
Defined.

Lemma postContacts_created_witness :
  contacts (data (postContacts (Responded None) "session-1" (Some " Bob "%string)
                    (Some "(415) 555-2671"%string) (Some "1990-02-29"%string) worldNew).2)
  = contacts (data worldNew)
    ++ [Contact.mk "u" "Bob" "+14155552671" (2, 29) "1990-02-29" "2024-03-15T10:00:00.000Z"].
Proof.
  edestruct (postContacts_created (Responded None) "session-1" (Some " Bob "%string)
               (Some "(415) 555-2671"%string) (Some "1990-02-29"%string) worldNew)
    as [H _]; [vm_compute; reflexivity|exact H].
Defined.

Lemma contactsValid_worldNew : contactsValid worldNew.
Proof.
  split; [apply NoDup_singleton|]. apply Forall_singleton.
  unfold contactValid, validBirthday. cbn. split_and!; try lia.
  exists (list_ascii_of_string "15550100"). split_and!; [done|repeat constructor|cbn; lia..].
Qed.

Lemma contacts_stay_valid_witness :
  contactsValid
    (runRequests
       [PostContacts (Responded None) "session-1" (Some "Bob"%string)
          (Some "(415) 555-2671"%string) (Some "1990-02-29"%string);
        SystemOp (DeleteContact "c-1"); SystemOp DispatchCycle] worldNew).
Proof. apply contacts_stay_valid. exact contactsValid_worldNew. Defined.

Lemma scheduled_occurrence_due_witness :
  exists m,
    (scheduleMessagesForContact "c-1" worldNew).1 = Some m
    /\ dueAt (clock worldNew 0%nat) m = false.
Proof.
  destruct (scheduled_occurrence_due "c-1" worldNew alice) as (m & H1 & _ & H3).
  - reflexivity.
  - unfold validBirthday. cbn. lia.
  - vm_compute. reflexivity.
  - vm_compute. split; discriminate.
  - exists m. split; [exact H1|exact H3].
Defined.

Lemma cycle_without_due_messages_witness :
  processDueMessages worldQuiet = (tt, cycleStart worldQuiet).
Proof.
  apply cycle_without_due_messages. intros m Hm.
  change (messages (data worldQuiet)) with [cancelledMessage; dueMessage] in Hm.
  apply elem_of_cons in Hm as [Hm|Hm]; [rewrite Hm; vm_compute; reflexivity|].
  apply list_elem_of_singleton in Hm. rewrite Hm. vm_compute. reflexivity.
Defined.

Lemma fireTimer_delivers_witness :
  exists i m,
    messages (data (processDueMessages worldDue).2) !! i = Some m
    /\ ScheduledMessage.status m = sent
    /\ timers (fireTimer 0 (processDueMessages worldDue).2).2
       = delete 0%nat (timers (processDueMessages worldDue).2).
Proof.
  pose proof (fireTimer_delivers 0 (processDueMessages worldDue).2
                (proj1 (respects_processDueMessages worldDue wellFormed_worldDue))) as H.
  assert (timers (processDueMessages worldDue).2 !! 0%nat = Some "m-0"%string) as Ht
    by (vm_compute; reflexivity).
  rewrite Ht in H. destruct H as (i & m & Hi & _ & Hs & _ & Hd).
  exists i, m. split; [exact Hi|split; [exact Hs|exact Hd]].
Defined.

Lemma unique_scheduled_along_requests_witness :
  atMostOneScheduled
    (messages (data (runRequests
       [PostContacts (Responded None) "session-1" (Some "Bob"%string)
          (Some "(415) 555-2671"%string) (Some "1990-02-29"%string);
        SystemOp DispatchCycle; SystemOp ScheduleAll] worldDue))).
Proof.
  apply unique_scheduled_along_requests.
  apply atMostOneScheduled_NoDup. vm_compute. apply NoDup_singleton.
Defined.

Lemma status_moves_forward_along_requests_witness :
  exists m',
    messages (data (runRequests
       ([SystemOp DispatchCycle]
        ++ [PostContacts (Responded None) "session-1" (Some "Bob"%string)
              (Some "(415) 555-2671"%string) (Some "1990-02-29"%string);
            SystemOp (DeliveredTimer 0)]) worldDue)) !! 0%nat = Some m'
    /\ ScheduledMessage.id m' = "m-0"%string.
Proof.
  edestruct (status_moves_forward_along_requests [SystemOp DispatchCycle]
               [PostContacts (Responded None) "session-1" (Some "Bob"%string)
                  (Some "(415) 555-2671"%string) (Some "1990-02-29"%string);
                SystemOp (DeliveredTimer 0)] worldDue 0) as (m' & H1 & H2 & _).
  - exact wellFormed_worldDue.
  - vm_compute. reflexivity.
  - exists m'. split; [exact H1|exact H2].
Defined.

Lemma interpolateName_replaces_all_witness :
  interpolateName "Happy Birthday, {{name}}! See you, {{name}}." " <b>Bob</b> "
  = "Happy Birthday, bBob/b! See you, bBob/b."%string.
Proof.
  apply (interpolateName_replaces_all
           [list_ascii_of_string "Happy Birthday, "; list_ascii_of_string "! See you, ";
            list_ascii_of_string "."] " <b>Bob</b> ").
  - repeat constructor; by apply (bool_decide_unpack _); vm_compute.
  - by apply (bool_decide_unpack _); vm_compute.
Defined.

Lemma interpolateName_dollar_ampersand_witness :
  interpolateName "Hi {{name}}!" "A$&B" = "Hi A{{name}}B!"%string.
Proof.
  apply (interpolateName_dollar_ampersand (list_ascii_of_string "Hi ")
           (list_ascii_of_string "!") (list_ascii_of_string "A") (list_ascii_of_string "B")
           "A$&B"); by apply (bool_decide_unpack _); vm_compute.
Defined.

Lemma interpolateName_noAngle_witness :
  Forall noAngle (list_ascii_of_string (interpolateName "Dear {{name}}," "<script>")).
Proof.
  apply interpolateName_noAngle. repeat constructor; discriminate.
Defined.

Lemma postSendNow_outcome_witness :
  exists record,
    messages (data (postSendNow "session-1" "c-1" (Some "Hello"%string) worldNew).2)
    = messages (data worldNew) ++ [record]
    /\ ScheduledMessage.id record = "u"%string.
Proof.
  destruct (postSendNow_outcome "session-1" "c-1" (Some "Hello"%string) worldNew alice)
    as (record & H1 & H2 & _).
  - reflexivity.
  - reflexivity.
  - intros H. by apply elem_of_nil in H.
  - exists record. split; [exact H1|exact H2].
Defined.

End RouteSamples.

